(** * RAG chatbot backend: the query pipeline and its session store

    A shallow embedding of the query-time core of the backend
    ([src/services/*.py], [src/config.py], [src/models/*.py]) and proofs of
    the properties its specification states (C1 to C10).

    Modelling conventions.
    - A Python [str] is a [string]; each character of the [string] stands
      for one code point, so [len(s)] is [String.length].
    - A Python [float] that takes part in a comparison (relevance scores,
      thresholds) is a finite value, read as the rational it denotes ([Q]);
      [a > b] on floats is [Qlt b a].
    - A [UUID] is kept in its canonical text form, so [str(uuid)] and
      [UUID(text)] are the identity.
    - [async] functions are sequential: every [await] is a call.
    - Code that can raise lives in the monad [M]: a state monad over the
      [World] (database tables, counter of external interactions, log of
      provider calls) whose results are [Ok] or [Err].  The state survives an
      error, as a committed row survives a later exception.
    - [logger.*] calls are dropped; [try: ... except Exception: log; raise]
      is the identity on results.
    - The database is PostgreSQL with the column types the models declare:
      a [String(20)] column cuts a longer value whose excess is spaces and
      refuses any other, text with U+0000 is refused, and a [JSONB] value
      holds the keys of its objects in [jsonb]'s own order.  A JSON number
      keeps its value. *)

From Stdlib Require Import List String Ascii Bool Arith ZArith QArith Lia.
From Stdlib Require Import Permutation Sorted DecimalString.
Import ListNotations.

Open Scope string_scope.
Open Scope list_scope.

(** ** Python values *)

Definition UUID := string.
Definition datetime := Z.            (* microseconds since the epoch *)

Definition len (s : string) : Z := Z.of_nat (String.length s).

(** [s[:n]] for [0 <= n]. *)
Definition str_prefix (n : nat) (s : string) : string := substring 0 n s.

(** [l[start:]] with Python's treatment of a negative or too large start. *)
Definition slice_from {A : Type} (start : Z) (l : list A) : list A :=
  let n := Z.of_nat (List.length l) in
  let lo := if (start <? 0)%Z then Z.max (n + start) 0 else Z.min start n in
  skipn (Z.to_nat lo) l.

(** JSON-like values, for the JSONB column [context_used]. *)
#[local] Set Warnings "-register-all".
Inductive json : Type :=
| JNull
| JBool (b : bool)
| JInt (z : Z)
| JFloat (q : Q)
| JStr (s : string)
| JList (l : list json)
| JObj (kv : list (string * json)).

Definition dquote : string := String (ascii_of_nat 34) "".
Definition nl : string := String (ascii_of_nat 10) "".

(** ** Exceptions *)

Inductive error : Type :=
| IntegrityError (constraint : string)  (* sqlalchemy: CHECK, FOREIGN KEY or key violation *)
| DataError                              (* a value the database refuses: too long for VARCHAR(20), U+0000 in a text *)
| OperationalError                       (* database unreachable *)
| ValidationError                        (* pydantic model validation *)
| ProviderError (msg : string)           (* raised by the Gemini or Qdrant client *)
| IndexError
| TypeError.

Inductive result (A : Type) : Type :=
| Ok (a : A)
| Err (e : error).
Arguments Ok {A} a.
Arguments Err {A} e.

(** ** src/config.py *)

Record Settings : Type := mkSettings {
  gemini_embedding_model : string;
  gemini_chat_model : string;
  qdrant_collection_name : string;
  top_k_results : Z;
  similarity_threshold : Q;
  max_conversation_context : Z
}.

Definition default_settings : Settings :=
  {| gemini_embedding_model := "gemini-embedding-001";
     gemini_chat_model := "gemini-2.5-flash";
     qdrant_collection_name := "ai_native_book";
     top_k_results := 5;
     similarity_threshold := 6 # 10;
     max_conversation_context := 6 |}.

(** ** Requests sent to the external providers *)

Inductive EmbedContents : Type :=
| SingleText (text : string)
| TextList (texts : list string).

Record EmbedRequest : Type := mkEmbedRequest {
  er_model : string;
  er_contents : EmbedContents;
  er_task_type : string
}.

Record SearchRequest : Type := mkSearchRequest {
  sr_collection_name : string;
  sr_query_vector : list Q;
  sr_limit : Z;
  sr_score_threshold : Q
}.

(** [genai_types.Content(role=..., parts=[Part.from_text(text=...)])] *)
Record Content : Type := mkContent {
  c_role : string;
  c_parts : list string
}.

Record GenerateRequest : Type := mkGenerateRequest {
  gr_model : string;
  gr_contents : list Content;
  gr_system_instruction : string;
  gr_temperature : Q;
  gr_max_output_tokens : Z
}.

Inductive Call : Type :=
| CallEmbedContent (req : EmbedRequest)
| CallQdrantSearch (req : SearchRequest)
| CallGenerateContent (req : GenerateRequest).

(** A point of the vector index.  The payload is a dict whose values have
    the types [ChunkPayload] declares (src/models/document.py); any key may
    be absent. *)
Record Payload : Type := mkPayload {
  p_title : option string;
  p_file_path : option string;
  p_chunk_text : option string;
  p_chunk_index : option Z;
  p_total_chunks : option Z
}.

Record ScoredPoint : Type := mkScoredPoint {
  sp_payload : Payload;
  sp_score : Q
}.

(** ** Database tables (src/services/conversation.py) *)

Record ChatSessionModel : Type := mkChatSession {
  s_session_id : UUID;
  s_created_at : datetime;
  s_last_activity_at : datetime
}.

Record ChatMessageModel : Type := mkChatMessage {
  m_message_id : UUID;
  m_session_id : UUID;
  m_role : string;
  m_content : string;
  m_selected_text : option string;
  m_context_used : option json;
  m_created_at : datetime
}.

(** The constraints the tables in the database carry.  [__table_args__] and
    the [ForeignKey] column declare all of them; whether the tables of the
    database at [settings.database_url] have them is a fact about that
    database. *)
Record Constraints : Type := mkConstraints {
  chk_activity_after_creation : bool;
  chk_valid_role : bool;
  chk_content_length : bool;
  fk_message_session : bool
}.

Definition declared_constraints : Constraints :=
  {| chk_activity_after_creation := true;
     chk_valid_role := true;
     chk_content_length := true;
     fk_message_session := true |}.

(** ** The world and the environment *)

Record World : Type := mkWorld {
  chat_sessions : list ChatSessionModel;
  chat_messages : list ChatMessageModel;     (* in insertion order *)
  db_constraints : Constraints;
  tick : nat;                                (* external interactions so far *)
  calls : list Call                          (* provider calls, oldest first *)
}.

(** What the process does not control: configuration, the three provider
    clients, the random and clock sources, and database availability. *)
Record Env : Type := mkEnv {
  settings : Settings;
  embed_content : EmbedRequest -> result (list (list Q));
  qdrant_search : SearchRequest -> result (list ScoredPoint);
  generate_content : GenerateRequest -> result (option string);
  uuid4 : nat -> UUID;
  utcnow : nat -> datetime;
  isoformat : datetime -> string;
  db_down : nat -> bool
}.

(** ** The monad *)

Definition M (A : Type) : Type := World -> result A * World.

Definition ret {A : Type} (a : A) : M A := fun w => (Ok a, w).

Definition raise {A : Type} (e : error) : M A := fun w => (Err e, w).

Definition bind {A B : Type} (m : M A) (k : A -> M B) : M B :=
  fun w =>
    match m w with
    | (Ok a, w') => k a w'
    | (Err e, w') => (Err e, w')
    end.

Definition lift {A : Type} (r : result A) : M A := fun w => (r, w).

Notation "x <- m ;; k" := (bind m (fun x => k))
  (at level 61, m at next level, right associativity).
Notation "' pat <- m ;; k" := (bind m (fun x => match x with pat => k end))
  (at level 61, pat pattern, m at next level, right associativity).

Definition get_world : M World := fun w => (Ok w, w).

Definition next_tick : M nat :=
  fun w => (Ok (tick w),
            {| chat_sessions := chat_sessions w;
               chat_messages := chat_messages w;
               db_constraints := db_constraints w;
               tick := S (tick w);
               calls := calls w |}).

Definition log_call (c : Call) : M unit :=
  fun w => (Ok tt,
            {| chat_sessions := chat_sessions w;
               chat_messages := chat_messages w;
               db_constraints := db_constraints w;
               tick := tick w;
               calls := calls w ++ [c] |}).

Definition put_sessions (l : list ChatSessionModel) : M unit :=
  fun w => (Ok tt,
            {| chat_sessions := l;
               chat_messages := chat_messages w;
               db_constraints := db_constraints w;
               tick := tick w;
               calls := calls w |}).

Definition put_messages (l : list ChatMessageModel) : M unit :=
  fun w => (Ok tt,
            {| chat_sessions := chat_sessions w;
               chat_messages := l;
               db_constraints := db_constraints w;
               tick := tick w;
               calls := calls w |}).

(** ** Generic helpers *)

(** A stable insertion sort.  [before h x] says that [h] goes strictly
    before [x]; an element is put in front of the first one that does not go
    strictly before it, so elements the order does not separate keep their
    relative position (as [list.sort] and a stable [ORDER BY] do). *)
Fixpoint insert_by {A : Type} (before : A -> A -> bool) (x : A) (l : list A) : list A :=
  match l with
  | [] => [x]
  | h :: t => if before h x then h :: insert_by before x t else x :: h :: t
  end.

Definition sort_by {A : Type} (before : A -> A -> bool) (l : list A) : list A :=
  fold_right (insert_by before) [] l.

(** A list comprehension whose element expression can raise: the first
    failure aborts it. *)
Fixpoint map_result {A B : Type} (f : A -> result B) (l : list A) : result (list B) :=
  match l with
  | [] => Ok []
  | x :: t =>
      match f x with
      | Err e => Err e
      | Ok y =>
          match map_result f t with
          | Err e => Err e
          | Ok ys => Ok (y :: ys)
          end
      end
  end.

Definition Qltb (a b : Q) : bool := negb (Qle_bool b a).

(** ** src/services/conversation.py *)

(** One database round trip ([async with self.async_session()] up to the
    [commit] or [execute]): it fails when the database is unreachable. *)
Definition db_connect (env : Env) : M unit :=
  t <- next_tick ;;
  if db_down env t then raise OperationalError else ret tt.

Definition session_exists (sid : UUID) (l : list ChatSessionModel) : bool :=
  existsb (fun s => s_session_id s =? sid) l.

Definition message_exists (mid : UUID) (l : list ChatMessageModel) : bool :=
  existsb (fun m => m_message_id m =? mid) l.

(** INSERT INTO chat_sessions: the CHECK constraint, then the primary key. *)
Definition insert_session (row : ChatSessionModel) : M unit :=
  w <- get_world ;;
  if chk_activity_after_creation (db_constraints w)
     && negb (s_created_at row <=? s_last_activity_at row)%Z then
    raise (IntegrityError "chk_activity_after_creation")
  else if session_exists (s_session_id row) (chat_sessions w) then
    raise (IntegrityError "chat_sessions_pkey")
  else put_sessions (chat_sessions w ++ [row]).

Definition valid_role (role : string) : bool :=
  (role =? "user") || (role =? "assistant").

Definition valid_content_length (content : string) : bool :=
  (1 <=? len content)%Z && (len content <=? 10000)%Z.

(** *** What PostgreSQL stores *)

(** A text that contains U+0000: PostgreSQL refuses it, in a [varchar] or
    [text] value as in a string or key of a [jsonb] value. *)
Fixpoint has_nul (s : string) : bool :=
  match s with
  | EmptyString => false
  | String c rest => (nat_of_ascii c =? 0)%nat || has_nul rest
  end.

Definition option_has_nul (s : option string) : bool :=
  match s with
  | Some s => has_nul s
  | None => false
  end.

Fixpoint json_has_nul (j : json) : bool :=
  match j with
  | JStr s => has_nul s
  | JList l => existsb json_has_nul l
  | JObj kv => existsb (fun p => has_nul (fst p) || json_has_nul (snd p)) kv
  | _ => false
  end.

Definition option_json_has_nul (j : option json) : bool :=
  match j with
  | Some j => json_has_nul j
  | None => false
  end.

Fixpoint all_spaces (s : string) : bool :=
  match s with
  | EmptyString => true
  | String c rest => Ascii.eqb c " " && all_spaces rest
  end.

(** Assignment to a [varchar(n)] column: a longer value is an error, unless
    the characters beyond the [n]-th are all spaces; then the value is cut
    to [n] characters. *)
Definition varchar (n : nat) (s : string) : option string :=
  if (String.length s <=? n)%nat then Some s
  else if all_spaces (substring n (String.length s - n) s) then Some (str_prefix n s)
  else None.

(** The order of the keys of a [jsonb] object: shorter keys first (in bytes
    of UTF-8), keys of one length byte by byte. *)
Fixpoint utf8_length (s : string) : nat :=
  match s with
  | EmptyString => O
  | String c rest =>
      ((if (nat_of_ascii c <? 128)%nat then 1 else 2) + utf8_length rest)%nat
  end.

Fixpoint string_ltb (a b : string) : bool :=
  match a, b with
  | _, EmptyString => false
  | EmptyString, String _ _ => true
  | String x a', String y b' =>
      (nat_of_ascii x <? nat_of_ascii y)%nat
      || ((nat_of_ascii x =? nat_of_ascii y)%nat && string_ltb a' b')
  end.

Definition jsonb_key_before (a b : string) : bool :=
  (utf8_length a <? utf8_length b)%nat
  || ((utf8_length a =? utf8_length b)%nat && string_ltb a b).

(** One pair put into the sorted pairs of a [jsonb] object; the value of a
    key that is already there is replaced. *)
Fixpoint jsonb_put (k : string) (v : json) (kv : list (string * json))
    : list (string * json) :=
  match kv with
  | [] => [(k, v)]
  | (k', v') :: rest =>
      if k =? k' then (k, v) :: rest
      else if jsonb_key_before k k' then (k, v) :: kv
      else (k', v') :: jsonb_put k v rest
  end.

Definition jsonb_object (kv : list (string * json)) : list (string * json) :=
  fold_left (fun sorted p => jsonb_put (fst p) (snd p) sorted) kv [].

(** The value a [jsonb] column holds for a JSON text, and so the value
    that is read back from it: objects have their keys in the order of
    [jsonb_key_before], at every depth; numbers keep their value. *)
Fixpoint jsonb (j : json) : json :=
  match j with
  | JList l => JList (map jsonb l)
  | JObj kv => JObj (jsonb_object (map (fun p => (fst p, jsonb (snd p))) kv))
  | _ => j
  end.

(** The row as the table holds it: [role] is a [String(20)] column,
    [content] and [selected_text] are [Text], [context_used] is [JSONB].
    [None] when PostgreSQL refuses one of the values. *)
Definition stored_row (row : ChatMessageModel) : option ChatMessageModel :=
  if has_nul (m_role row) || has_nul (m_content row)
     || option_has_nul (m_selected_text row)
     || option_json_has_nul (m_context_used row) then None
  else
    match varchar 20 (m_role row) with
    | None => None
    | Some role =>
        Some {| m_message_id := m_message_id row;
                m_session_id := m_session_id row;
                m_role := role;
                m_content := m_content row;
                m_selected_text := m_selected_text row;
                m_context_used := option_map jsonb (m_context_used row);
                m_created_at := m_created_at row |}
    end.

(** INSERT INTO chat_messages: the values are converted to their column
    types, then come the CHECK constraints (in name order), the primary key
    and the foreign key. *)
Definition insert_message (row : ChatMessageModel) : M unit :=
  w <- get_world ;;
  match stored_row row with
  | None => raise DataError
  | Some row =>
      if chk_content_length (db_constraints w)
         && negb (valid_content_length (m_content row)) then
        raise (IntegrityError "chk_content_length")
      else if chk_valid_role (db_constraints w) && negb (valid_role (m_role row)) then
        raise (IntegrityError "chk_valid_role")
      else if message_exists (m_message_id row) (chat_messages w) then
        raise (IntegrityError "chat_messages_pkey")
      else if fk_message_session (db_constraints w)
              && negb (session_exists (m_session_id row) (chat_sessions w)) then
        raise (IntegrityError "chat_messages_session_id_fkey")
      else put_messages (chat_messages w ++ [row])
  end.

(** [ConversationService.create_session].  The column defaults ([uuid4],
    [datetime.utcnow], once per column) are evaluated at the flush. *)
Definition create_session (env : Env) : M UUID :=
  _ <- db_connect env ;;
  i <- next_tick ;;
  t1 <- next_tick ;;
  t2 <- next_tick ;;
  let new_session :=
    {| s_session_id := uuid4 env i;
       s_created_at := utcnow env t1;
       s_last_activity_at := utcnow env t2 |} in
  _ <- insert_session new_session ;;
  ret (s_session_id new_session).

(** [ConversationService.save_message] *)
Definition save_message (env : Env) (session_id : UUID) (role content : string)
    (selected_text : option string) (context_used : option json) : M UUID :=
  _ <- db_connect env ;;
  i <- next_tick ;;
  t <- next_tick ;;
  let message :=
    {| m_message_id := uuid4 env i;
       m_session_id := session_id;
       m_role := role;
       m_content := content;
       m_selected_text := selected_text;
       m_context_used := context_used;
       m_created_at := utcnow env t |} in
  _ <- insert_message message ;;
  ret (m_message_id message).

(** One entry of the list [get_conversation_history] returns. *)
Record HistoryMessage : Type := mkHistoryMessage {
  h_message_id : string;
  h_role : string;
  h_content : string;
  h_selected_text : option string;
  h_context_used : option json;
  h_created_at : string
}.

Definition history_entry (env : Env) (msg : ChatMessageModel) : HistoryMessage :=
  {| h_message_id := m_message_id msg;
     h_role := m_role msg;
     h_content := m_content msg;
     h_selected_text := m_selected_text msg;
     h_context_used := m_context_used msg;
     h_created_at := isoformat env (m_created_at msg) |}.

Definition created_before (a b : ChatMessageModel) : bool :=
  (m_created_at a <? m_created_at b)%Z.

(** SELECT ... WHERE session_id = :sid ORDER BY created_at ASC *)
Definition select_messages (sid : UUID) (l : list ChatMessageModel) : list ChatMessageModel :=
  sort_by created_before (filter (fun m => m_session_id m =? sid) l).

(** [ConversationService.get_conversation_history] *)
Definition get_conversation_history (env : Env) (session_id : UUID) : M (list HistoryMessage) :=
  _ <- db_connect env ;;
  w <- get_world ;;
  let messages := select_messages session_id (chat_messages w) in
  ret (map (history_entry env) messages).

(** ** src/services/embedding.py *)

(** [EmbeddingService.generate_embedding] *)
Definition generate_embedding (env : Env) (text : string) : M (list Q) :=
  let request :=
    {| er_model := gemini_embedding_model (settings env);
       er_contents := SingleText text;
       er_task_type := "RETRIEVAL_QUERY" |} in
  _ <- log_call (CallEmbedContent request) ;;
  embeddings <- lift (embed_content env request) ;;
  match embeddings with
  | [] => raise IndexError                     (* response.embeddings[0] *)
  | embedding :: _ => ret embedding
  end.

(** [EmbeddingService.generate_embeddings_batch] *)
Definition generate_embeddings_batch (env : Env) (texts : list string) : M (list (list Q)) :=
  let request :=
    {| er_model := gemini_embedding_model (settings env);
       er_contents := TextList texts;
       er_task_type := "RETRIEVAL_DOCUMENT" |} in
  _ <- log_call (CallEmbedContent request) ;;
  embeddings <- lift (embed_content env request) ;;
  ret embeddings.

(** ** src/services/vector_store.py *)

(** The dict [search] builds for one result. *)
Record RetrievedChunk : Type := mkRetrievedChunk {
  title : string;
  file_path : string;
  chunk_text : string;
  chunk_index : Z;
  total_chunks : Z;
  relevance_score : Q
}.

(** [d.get(key, default)] *)
Definition dict_get {A : Type} (field : option A) (default : A) : A :=
  match field with
  | Some v => v
  | None => default
  end.

Definition chunk_of_point (result : ScoredPoint) : RetrievedChunk :=
  {| title := dict_get (p_title (sp_payload result)) "Untitled";
     file_path := dict_get (p_file_path (sp_payload result)) "";
     chunk_text := dict_get (p_chunk_text (sp_payload result)) "";
     chunk_index := dict_get (p_chunk_index (sp_payload result)) 0%Z;
     total_chunks := dict_get (p_total_chunks (sp_payload result)) 1%Z;
     relevance_score := sp_score result |}.

(** [VectorStoreService.search] *)
Definition vector_store_search (env : Env) (query_embedding : list Q) (top_k : Z)
    (score_threshold : Q) : M (list RetrievedChunk) :=
  let request :=
    {| sr_collection_name := qdrant_collection_name (settings env);
       sr_query_vector := query_embedding;
       sr_limit := top_k;
       sr_score_threshold := score_threshold |} in
  _ <- log_call (CallQdrantSearch request) ;;
  results <- lift (qdrant_search env request) ;;
  ret (map chunk_of_point results).

(** ** src/services/llm.py *)

(** [sep.join(l)] *)
Fixpoint join (sep : string) (l : list string) : string :=
  match l with
  | [] => ""
  | [x] => x
  | x :: t => x ++ sep ++ join sep t
  end.

#[local] Open Scope string_scope.

Definition refusal_sentence : string :=
  "I don't have information about that in the documentation. " ++
  "I can only answer questions about Physical AI, robotics, ROS2, " ++
  "and related topics covered in this book.".

(** [LLMService._build_system_prompt] *)
Definition _build_system_prompt (retrieved_chunks : list RetrievedChunk) : string :=
  let context_text :=
    join (nl ++ nl)
      (map (fun chunk =>
              "[Source: " ++ title chunk ++ " - " ++ file_path chunk ++ "]" ++ nl
              ++ chunk_text chunk)
           retrieved_chunks) in
  "You are a helpful AI assistant for the " ++ dquote
  ++ "Physical AI & Humanoid Robotics" ++ dquote ++ " textbook." ++ nl
  ++ nl
  ++ "Your role is to answer questions based ONLY on the provided book content. Follow these guidelines:" ++ nl
  ++ nl
  ++ "1. GROUNDING: Base all answers strictly on the provided context below. Do not use external knowledge." ++ nl
  ++ "2. CITATIONS: Reference specific sources when making claims (e.g., " ++ dquote
  ++ "According to the ROS2 chapter..." ++ dquote ++ ")." ++ nl
  ++ "3. SCOPE: If the question is outside the book's scope, politely state: " ++ dquote
  ++ refusal_sentence ++ dquote ++ nl
  ++ "4. CLARITY: Explain technical concepts clearly, suitable for students learning robotics." ++ nl
  ++ "5. HONESTY: If the context doesn't contain enough information to answer fully, admit it." ++ nl
  ++ nl
  ++ "CONTEXT FROM BOOK:" ++ nl
  ++ context_text ++ nl
  ++ nl
  ++ "Answer the user's question based on the above context.".

Definition content_of_message (msg : HistoryMessage) : Content :=
  {| c_role := h_role msg; c_parts := [h_content msg] |}.

(** [LLMService._build_conversation_history] *)
Definition _build_conversation_history (env : Env)
    (conversation_messages : list HistoryMessage) (current_query : string)
    (selected_text : option string) : list Content :=
  let messages :=
    map content_of_message
      (slice_from (- max_conversation_context (settings env)) conversation_messages) in
  match selected_text with
  | Some (String a rest as sel) =>
      let query_with_context :=
        "Selected text from page: " ++ dquote ++ sel ++ dquote ++ nl
        ++ nl
        ++ "Question: " ++ current_query in
      (messages ++ [ {| c_role := "user"; c_parts := [query_with_context] |} ])%list
  | _ =>
      (messages ++ [ {| c_role := "user"; c_parts := [current_query] |} ])%list
  end.

#[local] Open Scope list_scope.

(** [LLMService.generate_response] *)
Definition generate_response (env : Env) (query : string)
    (retrieved_chunks : list RetrievedChunk)
    (conversation_history : list HistoryMessage)
    (selected_text : option string) : M string :=
  let system_instruction := _build_system_prompt retrieved_chunks in
  let contents := _build_conversation_history env conversation_history query selected_text in
  let request :=
    {| gr_model := gemini_chat_model (settings env);
       gr_contents := contents;
       gr_system_instruction := system_instruction;
       gr_temperature := 7 # 10;
       gr_max_output_tokens := 500 |} in
  _ <- log_call (CallGenerateContent request) ;;
  text <- lift (generate_content env request) ;;
  match text with
  | None => raise TypeError                    (* len(answer) in the log line *)
  | Some answer => ret answer
  end.

(** ** src/models/chat.py *)

Record Source : Type := mkSource {
  src_title : string;
  src_file_path : string;
  src_relevance_score : Q;
  src_excerpt : string
}.

(** The pydantic constructor [Source(...)]: [relevance_score] has [ge=0.0]
    and [le=1.0], [excerpt] has [max_length=500]. *)
Definition new_Source (title file_path : string) (relevance_score : Q)
    (excerpt : string) : result Source :=
  if Qle_bool 0 relevance_score && Qle_bool relevance_score 1
     && (len excerpt <=? 500)%Z
  then Ok {| src_title := title;
             src_file_path := file_path;
             src_relevance_score := relevance_score;
             src_excerpt := excerpt |}
  else Err ValidationError.

(** ** src/services/rag_service.py *)

Definition refusal_message : string :=
  ("I don't have information about that in the documentation. "
   ++ "I can only answer questions about Physical AI, robotics, ROS2, "
   ++ "and related topics covered in this book.")%string.

(** The dict [seen_files]: keys in insertion order; assigning to a key
    that is present replaces its value in place. *)
Definition seen_dict := list (string * RetrievedChunk).

Fixpoint dict_lookup (k : string) (d : seen_dict) : option RetrievedChunk :=
  match d with
  | [] => None
  | (k', v) :: t => if k' =? k then Some v else dict_lookup k t
  end.

Fixpoint dict_set (k : string) (v : RetrievedChunk) (d : seen_dict) : seen_dict :=
  match d with
  | [] => [(k, v)]
  | (k', v') :: t => if k' =? k then (k, v) :: t else (k', v') :: dict_set k v t
  end.

Definition dict_values (d : seen_dict) : list RetrievedChunk := map snd d.

(** One iteration of the loop of step 7. *)
Definition see_chunk (seen_files : seen_dict) (chunk : RetrievedChunk) : seen_dict :=
  match dict_lookup (file_path chunk) seen_files with
  | None => dict_set (file_path chunk) chunk seen_files
  | Some kept =>
      if Qltb (relevance_score kept) (relevance_score chunk)
      then dict_set (file_path chunk) chunk seen_files
      else seen_files
  end.

Definition dedupe_by_file (retrieved_chunks : list RetrievedChunk) : seen_dict :=
  fold_left see_chunk retrieved_chunks [].

Definition source_of_chunk (chunk : RetrievedChunk) : result Source :=
  new_Source (title chunk) (file_path chunk) (relevance_score chunk)
             (str_prefix 500 (chunk_text chunk)).

Definition higher_score (a b : Source) : bool :=
  Qltb (src_relevance_score b) (src_relevance_score a).

(** Step 7 of [process_query]: deduplicate, build the [Source]s, sort. *)
Definition format_sources (retrieved_chunks : list RetrievedChunk) : result (list Source) :=
  let seen_files := dedupe_by_file retrieved_chunks in
  match map_result source_of_chunk (dict_values seen_files) with
  | Err e => Err e
  | Ok sources => Ok (sort_by higher_score sources)
  end.

Definition chunk_summary (chunk : RetrievedChunk) : json :=
  JObj [ ("title", JStr (title chunk));
         ("file_path", JStr (file_path chunk));
         ("relevance_score", JFloat (relevance_score chunk)) ].

Definition context_metadata (retrieved_chunks : list RetrievedChunk) : json :=
  JObj [ ("chunks", JList (map chunk_summary retrieved_chunks));
         ("retrieval_count", JInt (Z.of_nat (List.length retrieved_chunks))) ].

(** [RAGService.process_query] *)
Definition process_query (env : Env) (query : string) (session_id : option UUID)
    (selected_text : option string) : M (string * list Source * UUID) :=
  (* Step 1: create or get session *)
  session_id <- match session_id with
                | None => create_session env
                | Some sid => ret sid
                end ;;
  (* Step 2: get conversation history *)
  conversation_history <- get_conversation_history env session_id ;;
  (* Step 3: generate query embedding *)
  query_embedding <- generate_embedding env query ;;
  (* Step 4: search vector store *)
  retrieved_chunks <- vector_store_search env query_embedding
                        (top_k_results (settings env))
                        (similarity_threshold (settings env)) ;;
  (* Steps 5 to 7 *)
  '(response, sources) <-
     match retrieved_chunks with
     | [] => ret (refusal_message, [])
     | _ :: _ =>
         response <- generate_response env query retrieved_chunks
                       conversation_history selected_text ;;
         sources <- lift (format_sources retrieved_chunks) ;;
         ret (response, sources)
     end ;;
  (* Step 8: save user message *)
  _ <- save_message env session_id "user" query selected_text None ;;
  (* Step 9: save assistant message with context *)
  _ <- save_message env session_id "assistant" response None
         (Some (context_metadata retrieved_chunks)) ;;
  ret (response, sources, session_id).

(** [RAGService.get_session_history] *)
Definition get_session_history (env : Env) (session_id : UUID) : M (list HistoryMessage) :=
  get_conversation_history env session_id.

(** *** Prefixes of the pipeline, to name its intermediate results *)

(** Steps 1 to 4: session, history and retrieved chunks. *)
Definition retrieval_steps (env : Env) (query : string) (session_id : option UUID)
    : M (UUID * list HistoryMessage * list RetrievedChunk) :=
  session_id <- match session_id with
                | None => create_session env
                | Some sid => ret sid
                end ;;
  conversation_history <- get_conversation_history env session_id ;;
  query_embedding <- generate_embedding env query ;;
  retrieved_chunks <- vector_store_search env query_embedding
                        (top_k_results (settings env))
                        (similarity_threshold (settings env)) ;;
  ret (session_id, conversation_history, retrieved_chunks).

(** Steps 5 to 7: the answer and its sources. *)
Definition answer_steps (env : Env) (query : string) (selected_text : option string)
    (conversation_history : list HistoryMessage)
    (retrieved_chunks : list RetrievedChunk) : M (string * list Source) :=
  match retrieved_chunks with
  | [] => ret (refusal_message, [])
  | _ :: _ =>
      response <- generate_response env query retrieved_chunks
                    conversation_history selected_text ;;
      sources <- lift (format_sources retrieved_chunks) ;;
      ret (response, sources)
  end.

(** Steps 8 and 9: the two writes. *)
Definition persist_steps (env : Env) (query : string) (selected_text : option string)
    (session_id : UUID) (retrieved_chunks : list RetrievedChunk)
    (response : string) : M unit :=
  _ <- save_message env session_id "user" query selected_text None ;;
  _ <- save_message env session_id "assistant" response None
         (Some (context_metadata retrieved_chunks)) ;;
  ret tt.

(** ** Stub providers and sample worlds

    Concrete environments in the style of a test double, used to run the
    model on examples. *)

Definition text_of_nat (n : nat) : string := NilZero.string_of_uint (Nat.to_uint n).

Definition point (title file_path chunk_text : string) (score : Q) : ScoredPoint :=
  {| sp_payload := {| p_title := Some title;
                      p_file_path := Some file_path;
                      p_chunk_text := Some chunk_text;
                      p_chunk_index := Some 0%Z;
                      p_total_chunks := Some 1%Z |};
     sp_score := score |}.

(** A database that is always up, a clock that advances, fresh ids, and
    providers that answer with the given points and text. *)
Definition stub_env (cfg : Settings) (points : result (list ScoredPoint))
    (answer : result (option string)) : Env :=
  {| settings := cfg;
     embed_content := fun _ => Ok [[1 # 2; 1 # 3]];
     qdrant_search := fun _ => points;
     generate_content := fun _ => answer;
     uuid4 := fun n => ("id-" ++ text_of_nat n)%string;
     utcnow := fun n => Z.of_nat n;
     isoformat := fun t => text_of_nat (Z.to_nat t);
     db_down := fun _ => false |}.

Definition empty_world (c : Constraints) : World :=
  {| chat_sessions := [];
     chat_messages := [];
     db_constraints := c;
     tick := 0;
     calls := [] |}.

(** The scenario of the specification: two chunks of file A (0.81 and 0.65)
    and one of file B (0.70). *)
Definition ros2_points : list ScoredPoint :=
  [ point "Intro" "a.md" "ROS2 is a robotics middleware." (81 # 100);
    point "Intro" "a.md" "Nodes exchange messages." (65 # 100);
    point "Nav" "b.md" "Navigation uses ROS2 actions." (70 # 100) ].

Definition ros2_env : Env :=
  stub_env default_settings (Ok ros2_points) (Ok (Some "ROS2 is a robotics middleware.")).

Definition no_match_env : Env :=
  stub_env default_settings (Ok []) (Ok (Some "unused")).

(** ** Vocabulary of the properties *)

(** [a] may stand in front of [b]: [b] does not go strictly before [a]. *)
Definition may_precede {A : Type} (before : A -> A -> bool) (a b : A) : Prop :=
  before b a = false.

(** What the loop of step 7 maintains, with [l] the chunks seen so far. *)
Record seen_inv (d : seen_dict) (l : list RetrievedChunk) : Prop := {
  inv_nodup : NoDup (map fst d);
  inv_entry : forall k v, In (k, v) d ->
      file_path v = k /\ In v l /\
      forall c, In c l -> file_path c = k ->
                (relevance_score c <= relevance_score v)%Q;
  inv_cover : forall c, In c l -> In (file_path c) (map fst d)
}.

Definition built_from (c : RetrievedChunk) (s : Source) : Prop :=
  src_title s = title c /\
  src_file_path s = file_path c /\
  src_relevance_score s = relevance_score c /\
  src_excerpt s = substring 0 500 (chunk_text c).

Definition by_score_desc (a b : Source) : Prop :=
  (src_relevance_score b <= src_relevance_score a)%Q.

(** Step 7 as a whole. *)
Definition sources_of_chunks (chunks : list RetrievedChunk) (sources : list Source) : Prop :=
  NoDup (map src_file_path sources) /\
  (forall fp, In fp (map file_path chunks) <-> In fp (map src_file_path sources)) /\
  (forall s, In s sources ->
     exists c, In c chunks /\ built_from c s /\
       (String.length (src_excerpt s) <= 500)%nat /\
       String.prefix (src_excerpt s) (chunk_text c) = true /\
       forall c', In c' chunks -> file_path c' = src_file_path s ->
                  (relevance_score c' <= src_relevance_score s)%Q) /\
  StronglySorted by_score_desc sources.

(** A computation leaves a component [f] of the world alone, whatever its
    outcome. *)
Definition preserves {A X : Type} (f : World -> X) (m : M A) : Prop :=
  forall w, f (snd (m w)) = f w.

Definition generate_calls (l : list Call) : list GenerateRequest :=
  flat_map (fun c => match c with
                     | CallGenerateContent r => [r]
                     | _ => []
                     end) l.

Definition generator_log (w : World) : list GenerateRequest := generate_calls (calls w).

Definition tick_world (w : World) : World :=
  {| chat_sessions := chat_sessions w;
     chat_messages := chat_messages w;
     db_constraints := db_constraints w;
     tick := S (tick w);
     calls := calls w |}.

(** Every message row points to a row of the session table. *)
Definition referential_integrity (w : World) : Prop :=
  forall m, In m (chat_messages w) ->
            exists s, In s (chat_sessions w) /\ s_session_id s = m_session_id m.

Definition fk_integrity (w : World) : Prop :=
  fk_message_session (db_constraints w) = true /\ referential_integrity w.

(** A computation maintains a property of the world, whatever its outcome. *)
Definition keeps {A : Type} (P : World -> Prop) (m : M A) : Prop :=
  forall w, P w -> P (snd (m w)).

(** The turn built from the current query (and the selected text, when it
    is a non-empty string). *)
Definition current_turn (current_query : string) (selected_text : option string) : Content :=
  match selected_text with
  | Some (String a rest as sel) =>
      {| c_role := "user";
         c_parts := [ ("Selected text from page: " ++ dquote ++ sel ++ dquote ++ nl
                       ++ nl ++ "Question: " ++ current_query)%string ] |}
  | _ => {| c_role := "user"; c_parts := [current_query] |}
  end.

(** The [n] last elements of a list. *)
Definition last_n {A : Type} (n : nat) (l : list A) : list A :=
  skipn (List.length l - n) l.

(** ** Further sample data *)

Definition ros2_sources : list Source :=
  [ {| src_title := "Intro"; src_file_path := "a.md";
       src_relevance_score := 81 # 100;
       src_excerpt := "ROS2 is a robotics middleware." |};
    {| src_title := "Nav"; src_file_path := "b.md";
       src_relevance_score := 70 # 100;
       src_excerpt := "Navigation uses ROS2 actions." |} ].

(** A generator that answers with the empty string: the assistant row then
    violates [chk_content_length]. *)
Definition empty_answer_env : Env :=
  stub_env default_settings (Ok ros2_points) (Ok (Some "")).

Definition two_sessions_world : World :=
  {| chat_sessions :=
       [ {| s_session_id := "s1"; s_created_at := 1%Z; s_last_activity_at := 1%Z |};
         {| s_session_id := "s2"; s_created_at := 2%Z; s_last_activity_at := 2%Z |} ];
     chat_messages :=
       [ {| m_message_id := "m1"; m_session_id := "s1"; m_role := "user";
            m_content := "second"; m_selected_text := None;
            m_context_used := None; m_created_at := 20%Z |};
         {| m_message_id := "m2"; m_session_id := "s2"; m_role := "user";
            m_content := "other"; m_selected_text := None;
            m_context_used := None; m_created_at := 15%Z |};
         {| m_message_id := "m3"; m_session_id := "s1"; m_role := "assistant";
            m_content := "first"; m_selected_text := None;
            m_context_used := None; m_created_at := 10%Z |} ];
     db_constraints := declared_constraints;
     tick := 0;
     calls := [] |}.

Definition bare_point (score : Q) : ScoredPoint :=
  {| sp_payload := {| p_title := None; p_file_path := None; p_chunk_text := None;
                      p_chunk_index := None; p_total_chunks := None |};
     sp_score := score |}.

Definition bare_points : list ScoredPoint :=
  [ bare_point (7 # 10); bare_point (9 # 10);
    point "Nav" "b.md" "Navigation uses ROS2 actions." (8 # 10) ].

Definition bare_env : Env :=
  stub_env default_settings (Ok bare_points) (Ok (Some "answer")).

Definition bare_sources : list Source :=
  [ {| src_title := "Untitled"; src_file_path := "";
       src_relevance_score := 9 # 10; src_excerpt := "" |};
    {| src_title := "Nav"; src_file_path := "b.md";
       src_relevance_score := 8 # 10;
       src_excerpt := "Navigation uses ROS2 actions." |} ].

Definition one_session_world (c : Constraints) : World :=
  {| chat_sessions :=
       [ {| s_session_id := "s1"; s_created_at := 1%Z; s_last_activity_at := 1%Z |} ];
     chat_messages := [];
     db_constraints := c;
     tick := 0;
     calls := [] |}.

(** A table created without the two CHECK constraints on messages. *)
Definition unchecked_constraints : Constraints :=
  {| chk_activity_after_creation := true;
     chk_valid_role := false;
     chk_content_length := false;
     fk_message_session := true |}.

Fixpoint repeat_char (c : ascii) (n : nat) : string :=
  match n with
  | O => ""
  | S n' => String c (repeat_char c n')
  end.

Definition long_content : string := repeat_char "a"%char (N.to_nat 10001).

(** Values that the database does not keep as they are written. *)
Definition padded_role : string := "user                 ".

Definition unordered_payload : json :=
  JObj [ ("bb", JInt 1); ("a", JList [JObj [ ("zz", JNull); ("y", JBool true) ]]) ].

Definition nul_content : string := String "a" (String (ascii_of_nat 0) "b").

(** Chunks whose texts are longer than an excerpt: two of file A (600
    characters at 0.81, a short one at 0.65) and one of file B (520
    characters at 0.70). *)
Definition long_text_points : list ScoredPoint :=
  [ point "Intro" "a.md" (repeat_char "x"%char 600) (81 # 100);
    point "Intro" "a.md" "Nodes exchange messages." (65 # 100);
    point "Nav" "b.md" (repeat_char "y"%char 520) (70 # 100) ].

Definition long_text_env : Env :=
  stub_env default_settings (Ok long_text_points) (Ok (Some "ROS2 is a robotics middleware.")).

Definition long_text_sources : list Source :=
  [ {| src_title := "Intro"; src_file_path := "a.md";
       src_relevance_score := 81 # 100;
       src_excerpt := repeat_char "x"%char 500 |};
    {| src_title := "Nav"; src_file_path := "b.md";
       src_relevance_score := 70 # 100;
       src_excerpt := repeat_char "y"%char 500 |} ].

Definition windowed_settings (n : Z) : Settings :=
  {| gemini_embedding_model := "gemini-embedding-001";
     gemini_chat_model := "gemini-2.5-flash";
     qdrant_collection_name := "ai_native_book";
     top_k_results := 5;
     similarity_threshold := 6 # 10;
     max_conversation_context := n |}.

Definition no_window_env : Env :=
  stub_env (windowed_settings 0) (Ok ros2_points) (Ok (Some "answer")).

Definition earlier_turns : list HistoryMessage :=
  [ {| h_message_id := "m1"; h_role := "user"; h_content := "What is ROS2?";
       h_selected_text := None; h_context_used := None; h_created_at := "1" |};
    {| h_message_id := "m2"; h_role := "assistant"; h_content := "A middleware.";
       h_selected_text := None; h_context_used := None; h_created_at := "2" |} ].

(** ** Further vocabulary: the store *)

(** The world after [n] more external interactions. *)
Definition ticks (n : nat) (w : World) : World :=
  {| chat_sessions := chat_sessions w;
     chat_messages := chat_messages w;
     db_constraints := db_constraints w;
     tick := n + tick w;
     calls := calls w |}.

(** The row [save_message] builds in world [w]: the id and the timestamp
    are the next two draws after the connection. *)
Definition message_row (env : Env) (w : World) (session_id : UUID)
    (role content : string) (selected_text : option string)
    (context_used : option json) : ChatMessageModel :=
  {| m_message_id := uuid4 env (S (tick w));
     m_session_id := session_id;
     m_role := role;
     m_content := content;
     m_selected_text := selected_text;
     m_context_used := context_used;
     m_created_at := utcnow env (S (S (tick w))) |}.

(** A payload without a floating-point number. *)
Fixpoint json_no_float (j : json) : bool :=
  match j with
  | JFloat _ => false
  | JList l => forallb json_no_float l
  | JObj kv => forallb (fun p => json_no_float (snd p)) kv
  | _ => true
  end.

(** What is read from the column [context_used] after [written] was
    saved: nothing when nothing was written, a payload otherwise; for a
    payload without floating-point numbers it is the written one with its
    keys in the order of a [jsonb] object. *)
Definition payload_read_back (written read : option json) : Prop :=
  match written with
  | None => read = None
  | Some j => exists j', read = Some j' /\ (json_no_float j = true -> j' = jsonb j)
  end.

(** Primary keys: no two rows of a table share their id. *)
Definition unique_keys (w : World) : Prop :=
  NoDup (map s_session_id (chat_sessions w)) /\
  NoDup (map m_message_id (chat_messages w)).

(** The requests [process_query] sends for a query. *)
Definition query_embedding_request (env : Env) (query : string) : EmbedRequest :=
  {| er_model := gemini_embedding_model (settings env);
     er_contents := SingleText query;
     er_task_type := "RETRIEVAL_QUERY" |}.

Definition query_search_request (env : Env) (query_embedding : list Q) : SearchRequest :=
  {| sr_collection_name := qdrant_collection_name (settings env);
     sr_query_vector := query_embedding;
     sr_limit := top_k_results (settings env);
     sr_score_threshold := similarity_threshold (settings env) |}.

Definition generation_request (env : Env) (query : string)
    (retrieved_chunks : list RetrievedChunk) (history : list HistoryMessage)
    (selected_text : option string) : GenerateRequest :=
  {| gr_model := gemini_chat_model (settings env);
     gr_contents := _build_conversation_history env history query selected_text;
     gr_system_instruction := _build_system_prompt retrieved_chunks;
     gr_temperature := 7 # 10;
     gr_max_output_tokens := 500 |}.

(** The world after the provider calls [l] and one more tick. *)
Definition after_calls (w : World) (n : nat) (l : list Call) : World :=
  {| chat_sessions := chat_sessions w;
     chat_messages := chat_messages w;
     db_constraints := db_constraints w;
     tick := n + tick w;
     calls := calls w ++ l |}.

(** [needle] occurs in [text]. *)
Definition occurs_in (needle text : string) : Prop :=
  exists before after, text = (before ++ needle ++ after)%string.

(** The label and text of one chunk, as the system prompt shows them. *)
Definition chunk_block (chunk : RetrievedChunk) : string :=
  ("[Source: " ++ title chunk ++ " - " ++ file_path chunk ++ "]" ++ nl
   ++ chunk_text chunk)%string.

(** An index that returns one chunk with a score just above 1. *)
Definition overshoot_env : Env :=
  stub_env default_settings
    (Ok [ point "Intro" "a.md" "ROS2 is a robotics middleware." (1000001 # 1000000) ])
    (Ok (Some "ROS2 is a robotics middleware.")).

(** A random source that always draws the same id. *)
Definition stuck_id_env : Env :=
  {| settings := default_settings;
     embed_content := fun _ => Ok [[1 # 2]];
     qdrant_search := fun _ => Ok [];
     generate_content := fun _ => Ok (Some "unused");
     uuid4 := fun _ => "m1";
     utcnow := fun n => Z.of_nat n;
     isoformat := fun t => text_of_nat (Z.to_nat t);
     db_down := fun _ => false |}.

(** ** src/utils/markdown.py (and the string methods it uses) *)

(** [c.isspace()] for a character: the white space of [str.split],
    [str.strip] and the pattern [\s]. *)
Definition isspace (c : ascii) : bool :=
  let n := nat_of_ascii c in
  ((9 <=? n)%nat && (n <=? 13)%nat) || ((28 <=? n)%nat && (n <=? 32)%nat)
  || (n =? 133)%nat || (n =? 160)%nat.

(** [text.split()], scanning left to right with the word read so far. *)
Fixpoint split_from (word : string) (s : string) : list string :=
  match s with
  | EmptyString =>
      match word with
      | EmptyString => []
      | _ => [word]
      end
  | String c rest =>
      if isspace c then
        match word with
        | EmptyString => split_from EmptyString rest
        | _ => word :: split_from EmptyString rest
        end
      else split_from (word ++ String c EmptyString)%string rest
  end.

Definition split_ws (text : string) : list string := split_from EmptyString text.

(** An index of a slice, as Python normalises it for a list of [n] items. *)
Definition slice_index (n i : Z) : Z :=
  if (i <? 0)%Z then Z.max (i + n) 0 else Z.min i n.

(** [l[start:stop]] *)
Definition py_slice {A : Type} (start stop : Z) (l : list A) : list A :=
  let n := Z.of_nat (List.length l) in
  let lo := slice_index n start in
  let hi := slice_index n stop in
  firstn (Z.to_nat (hi - lo)) (skipn (Z.to_nat lo) l).

(** The functions of the module whose names are taken by chunk fields. *)
Module Markdown.

(** The [while] loop of [chunk_text]; [None] when [fuel] iterations were
    not enough to leave it. *)
Fixpoint chunk_loop (fuel : nat) (words : list string) (chunk_size overlap : Z)
    (start : Z) (chunks : list string) : option (list string) :=
  match fuel with
  | O => None
  | S fuel' =>
      if (start <? Z.of_nat (List.length words))%Z then
        let stop := (start + chunk_size)%Z in
        let chunk_words := py_slice start stop words in
        let chunks := chunks ++ [join " " chunk_words] in
        let start := (start + (chunk_size - overlap))%Z in
        let start := if (overlap >=? chunk_size)%Z then (start + 1)%Z else start in
        chunk_loop fuel' words chunk_size overlap start chunks
      else Some chunks
  end.

(** [chunk_text] *)
Definition chunk_text (fuel : nat) (text : string) (chunk_size overlap : Z)
    : option (list string) :=
  let words := split_ws text in
  if (Z.of_nat (List.length words) <=? chunk_size)%Z then Some [text]
  else chunk_loop fuel words chunk_size overlap 0 [].

(** How far the loop of [chunk_text] moves per iteration. *)
Definition chunk_step (chunk_size overlap : Z) : Z :=
  (chunk_size - overlap + (if (overlap >=? chunk_size)%Z then 1 else 0))%Z.

End Markdown.

(** A word as [split] produces them: not empty, no white space. *)
Fixpoint no_space (s : string) : bool :=
  match s with
  | EmptyString => true
  | String c rest => negb (isspace c) && no_space rest
  end.

Definition is_word (s : string) : Prop := s <> EmptyString /\ no_space s = true.

Definition sample_text : string := "a b  c d e f g".

(** ** src/utils/sanitization.py: [validate_session_id] *)

(** [[0-9a-f]] under [re.IGNORECASE] *)
Definition is_hex_digit (c : ascii) : bool :=
  let n := nat_of_ascii c in
  ((48 <=? n)%nat && (n <=? 57)%nat) || ((97 <=? n)%nat && (n <=? 102)%nat)
  || ((65 <=? n)%nat && (n <=? 70)%nat).

(** [[0-9a-f]{n}] at the start of [s]: what follows the match. *)
Fixpoint match_hex (n : nat) (s : string) : option string :=
  match n with
  | O => Some s
  | S n' =>
      match s with
      | String c rest => if is_hex_digit c then match_hex n' rest else None
      | EmptyString => None
      end
  end.

(** A literal [-] at the start of [s]. *)
Definition match_hyphen (s : string) : option string :=
  match s with
  | String c rest => if Ascii.eqb c "-" then Some rest else None
  | EmptyString => None
  end.

Definition and_then {A B : Type} (o : option A) (f : A -> option B) : option B :=
  match o with
  | Some a => f a
  | None => None
  end.

(** [validate_session_id]: [re.match] of the anchored pattern; the final
    [$] matches at the end of the string and also just before a line feed
    that ends it. *)
Definition validate_session_id (session_id : string) : bool :=
  match
    and_then (match_hex 8 session_id) (fun s1 =>
    and_then (match_hyphen s1) (fun s2 =>
    and_then (match_hex 4 s2) (fun s3 =>
    and_then (match_hyphen s3) (fun s4 =>
    and_then (match_hex 4 s4) (fun s5 =>
    and_then (match_hyphen s5) (fun s6 =>
    and_then (match_hex 4 s6) (fun s7 =>
    and_then (match_hyphen s7) (fun s8 =>
    match_hex 12 s8))))))))
  with
  | Some rest => (rest =? "") || (rest =? nl)
  | None => false
  end.

(** ** src/api/sessions.py *)

Fixpoint remove_hyphens (s : string) : string :=
  match s with
  | EmptyString => EmptyString
  | String c rest =>
      if Ascii.eqb c "-" then remove_hyphens rest else String c (remove_hyphens rest)
  end.

Definition lower_char (c : ascii) : ascii :=
  let n := nat_of_ascii c in
  if (65 <=? n)%nat && (n <=? 90)%nat then ascii_of_nat (n + 32) else c.

Fixpoint lower (s : string) : string :=
  match s with
  | EmptyString => EmptyString
  | String c rest => String (lower_char c) (lower rest)
  end.

(** [UUID(session_id)] for a text that passed [validate_session_id] (hex
    digits in groups of 8-4-4-4-12, perhaps a final line feed): the text
    without its hyphens must have 32 characters, else [ValueError]; the value
    is the text in lower case. *)
Definition UUID_of_text (text : string) : option UUID :=
  if (String.length (remove_hyphens text) =? 32)%nat then Some (lower text) else None.

(** The result of an endpoint: the response body, or an [HTTPException]. *)
Inductive HTTPResult (A : Type) : Type :=
| Response200 (body : A)
| HTTPException (status_code : Z) (detail : string).
Arguments Response200 {A} body.
Arguments HTTPException {A} status_code detail.

Record ChatMessage : Type := mkChatMessageOut {
  cm_message_id : UUID;
  cm_session_id : UUID;
  cm_role : string;
  cm_content : string;
  cm_selected_text : option string;
  cm_context_used : option json;
  cm_created_at : string
}.

Record SessionHistoryResponse : Type := mkSessionHistoryResponse {
  shr_session_id : string;
  shr_messages : list ChatMessage
}.

(** The pydantic constructor [ChatMessage(...)] on one history entry:
    [context_used] must be a dict or [None]. *)
Definition new_ChatMessage (session_uuid : UUID) (msg : HistoryMessage) : result ChatMessage :=
  match h_context_used msg with
  | Some (JObj _) | None =>
      Ok {| cm_message_id := h_message_id msg;
            cm_session_id := session_uuid;
            cm_role := h_role msg;
            cm_content := h_content msg;
            cm_selected_text := h_selected_text msg;
            cm_context_used := h_context_used msg;
            cm_created_at := h_created_at msg |}
  | Some _ => Err ValidationError
  end.

Definition history_failure : string := "An error occurred while retrieving session history.".

(** The endpoint [get_session_history] of src/api/sessions.py. *)
Definition get_session_history_endpoint (env : Env) (session_id : string)
    : World -> HTTPResult SessionHistoryResponse * World :=
  fun w =>
    if negb (validate_session_id session_id) then
      (HTTPException 400 "Invalid session ID format", w)
    else
      match UUID_of_text session_id with
      | None => (HTTPException 500 history_failure, w)
      | Some session_uuid =>
          match get_session_history env session_uuid w with
          | (Err _, w') => (HTTPException 500 history_failure, w')
          | (Ok [], w') => (HTTPException 404 "Session not found", w')
          | (Ok messages, w') =>
              match map_result (new_ChatMessage session_uuid) messages with
              | Err _ => (HTTPException 500 history_failure, w')
              | Ok chat_messages =>
                  (Response200 {| shr_session_id := session_id;
                                  shr_messages := chat_messages |}, w')
              end
          end
      end.

(** [ConversationService.get_session]: any exception is logged and turned
    into [None]. *)
Definition get_session (env : Env) (session_id : UUID)
    : World -> option ChatSessionModel * World :=
  fun w =>
    match db_connect env w with
    | (Err _, w') => (None, w')
    | (Ok _, w') =>
        match filter (fun s => s_session_id s =? session_id) (chat_sessions w') with
        | [s] => (Some s, w')
        | _ => (None, w')     (* no row; or several: MultipleResultsFound, caught *)
        end
    end.

Definition sample_uuid : string := "123e4567-e89b-12d3-a456-426614174000".

Definition sample_uuid_upper : string := "123E4567-E89B-12D3-A456-426614174000".

(** A store with one session, under a well-formed id, and one message. *)
Definition uuid_world : World :=
  {| chat_sessions :=
       [ {| s_session_id := sample_uuid; s_created_at := 1%Z; s_last_activity_at := 1%Z |};
         {| s_session_id := "00000000-0000-0000-0000-000000000000";
            s_created_at := 2%Z; s_last_activity_at := 2%Z |} ];
     chat_messages :=
       [ {| m_message_id := "m1"; m_session_id := sample_uuid; m_role := "user";
            m_content := "What is ROS2?"; m_selected_text := None;
            m_context_used := None; m_created_at := 5%Z |} ];
     db_constraints := declared_constraints;
     tick := 0;
     calls := [] |}.

(** Every character of [s] satisfies [p]. *)
Fixpoint all_chars (p : ascii -> bool) (s : string) : bool :=
  match s with
  | EmptyString => true
  | String c rest => p c && all_chars p rest
  end.

(** A group of [n] hexadecimal digits. *)
Definition hex_group (n : nat) (s : string) : Prop :=
  String.length s = n /\ all_chars is_hex_digit s = true.

(** The output form of a stored row. *)
Definition chat_message_of_row (env : Env) (session_uuid : UUID) (row : ChatMessageModel)
    : ChatMessage :=
  {| cm_message_id := m_message_id row;
     cm_session_id := session_uuid;
     cm_role := m_role row;
     cm_content := m_content row;
     cm_selected_text := m_selected_text row;
     cm_context_used := m_context_used row;
     cm_created_at := isoformat env (m_created_at row) |}.

(** [context_used] holds a JSON object or nothing. *)
Definition context_is_dict (row : ChatMessageModel) : Prop :=
  match m_context_used row with
  | Some (JObj _) | None => True
  | Some _ => False
  end.

(** ** src/services/vector_store.py: [upsert_chunks]; the health probes *)

Record PointStruct : Type := mkPointStruct {
  ps_id : string;
  ps_vector : list Q;
  ps_payload : Payload
}.

Record UpsertRequest : Type := mkUpsertRequest {
  ur_collection_name : string;
  ur_points : list PointStruct
}.

(** [client.models.generate_content] as the health probe calls it: a model,
    the contents and a config that only sets [max_output_tokens]. *)
Record ProbeRequest : Type := mkProbeRequest {
  pr_model : string;
  pr_contents : list Content;
  pr_max_output_tokens : Z
}.

(** The client operations that the query pipeline does not use. *)
Record AdminClients : Type := mkAdminClients {
  qdrant_upsert : UpsertRequest -> result unit;
  qdrant_get_collections : result (list string);
  gemini_probe : ProbeRequest -> result (option string)
}.

(** The loop of [upsert_chunks] over [zip(chunks, embeddings)]: one fresh
    id per pair, in order. *)
Fixpoint make_points (env : Env) (pairs : list (Payload * list Q)) : M (list PointStruct) :=
  match pairs with
  | [] => ret []
  | (chunk, embedding) :: rest =>
      i <- next_tick ;;
      let point := {| ps_id := uuid4 env i;
                      ps_vector := embedding;
                      ps_payload := chunk |} in
      points <- make_points env rest ;;
      ret (point :: points)
  end.

(** [VectorStoreService.upsert_chunks] *)
Definition upsert_chunks (env : Env) (clients : AdminClients)
    (chunks : list Payload) (embeddings : list (list Q)) : M unit :=
  points <- make_points env (combine chunks embeddings) ;;
  lift (qdrant_upsert clients
          {| ur_collection_name := qdrant_collection_name (settings env);
             ur_points := points |}).

(** [VectorStoreService.check_health] *)
Definition vector_store_check_health (clients : AdminClients) : bool :=
  match qdrant_get_collections clients with
  | Ok _ => true
  | Err _ => false
  end.

(** [ConversationService.check_health] *)
Definition conversation_check_health (env : Env) : World -> bool * World :=
  fun w =>
    match db_connect env w with
    | (Ok _, w') => (true, w')
    | (Err _, w') => (false, w')
    end.

Definition probe_request (env : Env) : ProbeRequest :=
  {| pr_model := gemini_chat_model (settings env);
     pr_contents := [ {| c_role := "user"; c_parts := ["test"] |} ];
     pr_max_output_tokens := 5 |}.

(** [LLMService.check_health]: [response.text is not None], or [False] on
    any exception. *)
Definition llm_check_health (env : Env) (clients : AdminClients) : bool :=
  match gemini_probe clients (probe_request env) with
  | Ok (Some _) => true
  | Ok None => false
  | Err _ => false
  end.

Definition up_or_down (healthy : bool) : string := if healthy then "up" else "down".

(** [RAGService.check_health]: the dict, in insertion order. *)
Definition rag_check_health (env : Env) (clients : AdminClients)
    : World -> list (string * string) * World :=
  fun w =>
    let qdrant_healthy := vector_store_check_health clients in
    let '(postgres_healthy, w') := conversation_check_health env w in
    let openai_healthy := llm_check_health env clients in
    ([ ("qdrant", up_or_down qdrant_healthy);
       ("postgres", up_or_down postgres_healthy);
       ("openai", up_or_down openai_healthy) ], w').

(** The outcome of the health endpoint: the body of the 200 response, or
    the status code and the [detail] dict of the [HTTPException]. *)
Inductive HealthResult : Type :=
| HealthResponse (status : string) (services : list (string * string))
| HealthException (status_code : Z) (status : string) (services : list (string * string)).

(** The endpoint [health_check] of src/api/health.py. *)
Definition health_check (env : Env) (clients : AdminClients)
    : World -> HealthResult * World :=
  fun w =>
    let '(services, w') := rag_check_health env clients w in
    let all_healthy := forallb (fun kv => snd kv =? "up") services in
    let overall_status := if all_healthy then "healthy" else "degraded" in
    if negb all_healthy then (HealthException 503 overall_status services, w')
    else (HealthResponse overall_status services, w').

(** Clients that accept everything. *)
Definition stub_clients : AdminClients :=
  {| qdrant_upsert := fun _ => Ok tt;
     qdrant_get_collections := Ok ["ai_native_book"];
     gemini_probe := fun _ => Ok (Some "ok") |}.

(** Clients whose model answers the probe without text. *)
Definition silent_model_clients : AdminClients :=
  {| qdrant_upsert := fun _ => Ok tt;
     qdrant_get_collections := Ok ["ai_native_book"];
     gemini_probe := fun _ => Ok None |}.

Definition sample_payload (i : Z) : Payload :=
  {| p_title := Some "Intro"; p_file_path := Some "a.md";
     p_chunk_text := Some "text"; p_chunk_index := Some i;
     p_total_chunks := Some 3%Z |}.

#[local] Open Scope string_scope.

(** ** src/utils/sanitization.py: [sanitize_selected_text];
       src/config.py: [cors_origins_list] *)

(** [s.lstrip()], [s.rstrip()] and [s.strip()] *)
Fixpoint lstrip (s : string) : string :=
  match s with
  | EmptyString => EmptyString
  | String c rest => if isspace c then lstrip rest else s
  end.

Fixpoint rstrip (s : string) : string :=
  match s with
  | EmptyString => EmptyString
  | String c rest =>
      match rstrip rest with
      | EmptyString => if isspace c then EmptyString else String c EmptyString
      | rest' => String c rest'
      end
  end.

Definition strip (s : string) : string := rstrip (lstrip s).

(** [re.sub(r"\s+", " ", s)]: every maximal run of white space becomes
    one space, written when the last character of the run is read. *)
Fixpoint collapse_ws (s : string) : string :=
  match s with
  | EmptyString => EmptyString
  | String c rest =>
      if isspace c then
        match rest with
        | EmptyString => " "
        | String c' _ =>
            if isspace c' then collapse_ws rest else String " " (collapse_ws rest)
        end
      else String c (collapse_ws rest)
  end.

(** [sanitize_selected_text] *)
Definition sanitize_selected_text (text : option string) (min_length max_length : Z)
    : option string :=
  match text with
  | None => None
  | Some text =>
      let text := strip text in
      if ((len text <? min_length)%Z || (len text >? max_length)%Z)%bool then None
      else Some (strip (collapse_ws text))
  end.

(** The tail of [sanitize_selected_text] on a text that has no leading
    white space. *)
Definition squeeze (s : string) : string := rstrip (collapse_ws s).


(** [s.split(sep)] for a separator of one character, scanning left to
    right with the field read so far. *)
Fixpoint split_on_from (sep : ascii) (field : string) (s : string) : list string :=
  match s with
  | EmptyString => [field]
  | String c rest =>
      if Ascii.eqb c sep then field :: split_on_from sep EmptyString rest
      else split_on_from sep (field ++ String c EmptyString) rest
  end.

Definition split_on (sep : ascii) (s : string) : list string :=
  split_on_from sep EmptyString s.

(** [Settings.cors_origins_list], as a function of the field
    [cors_origins]. *)
Definition cors_origins_list (cors_origins : string) : list string :=
  map strip (split_on "," cors_origins).

Fixpoint count_char (sep : ascii) (s : string) : nat :=
  match s with
  | EmptyString => O
  | String c rest => ((if Ascii.eqb c sep then 1 else 0) + count_char sep rest)%nat
  end.

Definition default_cors_origins : string := "http://localhost:3000,http://localhost:3001".

#[local] Open Scope list_scope.

(** * Properties *)

(** ** The stable sort *)

Section StableSort.
Context {A : Type} (before : A -> A -> bool).

Lemma insert_by_perm (x : A) (l : list A) :
  Permutation (x :: l) (insert_by before x l).
Proof.
  induction l as [| h t IH]; simpl.
  - apply Permutation_refl.
  - destruct (before h x).
    + eapply perm_trans; [apply perm_swap | apply perm_skip, IH].
    + apply Permutation_refl.
Qed.

Lemma sort_by_perm (l : list A) : Permutation l (sort_by before l).
Proof.
  induction l as [| x t IH]; simpl.
  - constructor.
  - eapply perm_trans; [apply perm_skip, IH | apply insert_by_perm].
Qed.

Hypothesis before_asym : forall a b, before a b = true -> before b a = false.
Hypothesis may_precede_trans :
  forall a b c, may_precede before a b -> may_precede before b c -> may_precede before a c.

Lemma insert_by_sorted (x : A) (l : list A) :
  StronglySorted (may_precede before) l ->
  StronglySorted (may_precede before) (insert_by before x l).
Proof.
  induction 1 as [| h t Ht IH Hh]; simpl.
  - repeat constructor.
  - destruct (before h x) eqn:E.
    + constructor; [exact IH |].
      apply Forall_forall. intros y Hy.
      apply (Permutation_in _ (Permutation_sym (insert_by_perm x t))) in Hy.
      destruct Hy as [<- | Hy].
      * apply before_asym, E.
      * rewrite Forall_forall in Hh. now apply Hh.
    + constructor; [constructor; assumption |].
      constructor; [exact E |].
      apply Forall_forall. intros y Hy.
      rewrite Forall_forall in Hh.
      apply may_precede_trans with h; [exact E | now apply Hh].
Qed.

Lemma sort_by_sorted (l : list A) : StronglySorted (may_precede before) (sort_by before l).
Proof.
  induction l as [| x t IH]; simpl.
  - constructor.
  - now apply insert_by_sorted.
Qed.
End StableSort.

(** ** Truncation of a string *)

Lemma str_prefix_length (n : nat) (s : string) :
  String.length (str_prefix n s) = Nat.min n (String.length s).
Proof.
  unfold str_prefix. revert s.
  induction n as [| n IH]; intros [| c s]; simpl; try reflexivity.
  now rewrite IH.
Qed.

Lemma str_prefix_is_prefix (n : nat) (s : string) :
  String.prefix (str_prefix n s) s = true.
Proof.
  unfold str_prefix. revert s.
  induction n as [| n IH]; intros [| c s]; simpl; try reflexivity.
  destruct (ascii_dec c c) as [_ | Hc]; [apply IH | now destruct Hc].
Qed.

(** ** Scores *)

Lemma Qltb_true (a b : Q) : Qltb a b = true <-> (a < b)%Q.
Proof.
  unfold Qltb. rewrite negb_true_iff. split; intros H.
  - apply Qnot_le_lt. intros Hle. apply Qle_bool_iff in Hle. congruence.
  - destruct (Qle_bool b a) eqn:E; [| reflexivity].
    apply Qle_bool_iff in E. exfalso. now apply (Qlt_not_le a b).
Qed.

Lemma Qltb_false (a b : Q) : Qltb a b = false <-> (b <= a)%Q.
Proof.
  unfold Qltb. rewrite negb_false_iff. apply Qle_bool_iff.
Qed.

(** ** The dict [seen_files] *)

Lemma dict_lookup_none (k : string) (d : seen_dict) :
  dict_lookup k d = None <-> ~ In k (map fst d).
Proof.
  induction d as [| [k' v'] t IH]; simpl.
  - tauto.
  - destruct (k' =? k) eqn:E.
    + apply String.eqb_eq in E. split; [discriminate | intros H; exfalso; apply H; now left].
    + apply String.eqb_neq in E. rewrite IH. tauto.
Qed.

Lemma dict_lookup_some (k : string) (v : RetrievedChunk) (d : seen_dict) :
  dict_lookup k d = Some v -> In (k, v) d.
Proof.
  induction d as [| [k' v'] t IH]; simpl; [discriminate |].
  destruct (k' =? k) eqn:E.
  - apply String.eqb_eq in E. intros [= <-]. left. now subst.
  - intros H. right. now apply IH.
Qed.

Lemma dict_set_keys_present (k : string) (v : RetrievedChunk) (d : seen_dict) :
  In k (map fst d) -> map fst (dict_set k v d) = map fst d.
Proof.
  induction d as [| [k' v'] t IH]; simpl; [tauto |].
  destruct (k' =? k) eqn:E.
  - apply String.eqb_eq in E. now subst.
  - apply String.eqb_neq in E. intros [H | H]; [contradiction |].
    simpl. now rewrite IH.
Qed.

Lemma dict_set_keys_absent (k : string) (v : RetrievedChunk) (d : seen_dict) :
  ~ In k (map fst d) -> map fst (dict_set k v d) = map fst d ++ [k].
Proof.
  induction d as [| [k' v'] t IH]; simpl; [reflexivity |].
  intros H. destruct (k' =? k) eqn:E.
  - apply String.eqb_eq in E. tauto.
  - simpl. rewrite IH; tauto.
Qed.

Lemma dict_set_entries (k : string) (v : RetrievedChunk) (d : seen_dict)
    (k' : string) (v' : RetrievedChunk) :
  NoDup (map fst d) ->
  In (k', v') (dict_set k v d) ->
  (k', v') = (k, v) \/ (k' <> k /\ In (k', v') d).
Proof.
  induction d as [| [k0 v0] t IH]; simpl; intros Hnd Hin.
  - destruct Hin as [H | []]. now left.
  - inversion Hnd as [| ? ? Hnot Hnd']; subst.
    destruct (k0 =? k) eqn:E.
    + apply String.eqb_eq in E. subst k0.
      destruct Hin as [H | H]; [now left |].
      right. split; [| now right].
      intros ->. apply Hnot. now apply (in_map fst) in H.
    + apply String.eqb_neq in E.
      destruct Hin as [H | H].
      * inversion H; subst. right. split; [exact E | now left].
      * destruct (IH Hnd' H) as [H' | [H1 H2]]; [now left | right; split; [exact H1 | now right]].
Qed.

Lemma dict_entry_unique (d : seen_dict) (k : string) (v v' : RetrievedChunk) :
  NoDup (map fst d) -> In (k, v) d -> In (k, v') d -> v = v'.
Proof.
  induction d as [| [k0 v0] t IH]; simpl; intros Hnd H1 H2; [contradiction |].
  inversion Hnd as [| ? ? Hnot Hnd']; subst.
  destruct H1 as [H1 | H1], H2 as [H2 | H2].
  - congruence.
  - inversion H1; subst. exfalso. apply Hnot. now apply (in_map fst) in H2.
  - inversion H2; subst. exfalso. apply Hnot. now apply (in_map fst) in H1.
  - now apply IH.
Qed.

(** ** Deduplication by file path *)

Lemma seen_inv_nil : seen_inv [] [].
Proof. split; simpl; [constructor | tauto | tauto]. Qed.

Lemma see_chunk_inv (d : seen_dict) (l : list RetrievedChunk) (c : RetrievedChunk) :
  seen_inv d l -> seen_inv (see_chunk d c) (l ++ [c]).
Proof.
  intros [Hnd Hent Hcov]. unfold see_chunk.
  assert (Hold : forall k v, k <> file_path c -> In (k, v) d ->
            file_path v = k /\ In v (l ++ [c]) /\
            forall c', In c' (l ++ [c]) -> file_path c' = k ->
                       (relevance_score c' <= relevance_score v)%Q).
  { intros k v Hk Hin. destruct (Hent k v Hin) as (Hf & Hl & Hmax).
    repeat split; [exact Hf | apply in_or_app; now left |].
    intros c' Hc' Hfc'. apply in_app_or in Hc'.
    destruct Hc' as [Hc' | [<- | []]]; [now apply Hmax | congruence]. }
  destruct (dict_lookup (file_path c) d) as [kept |] eqn:L.
  - pose proof (dict_lookup_some _ _ _ L) as Hkept.
    assert (Hkey : In (file_path c) (map fst d)) by now apply (in_map fst) in Hkept.
    destruct (Hent _ _ Hkept) as (_ & _ & Hmax).
    destruct (Qltb (relevance_score kept) (relevance_score c)) eqn:E.
    + apply Qltb_true in E. split.
      * now rewrite dict_set_keys_present.
      * intros k v Hin.
        destruct (dict_set_entries _ _ _ _ _ Hnd Hin) as [Heq | [Hk Hin']].
        -- inversion Heq; subst. repeat split; [apply in_or_app; right; now left |].
           intros c' Hc' Hfc'. apply in_app_or in Hc'.
           destruct Hc' as [Hc' | [<- | []]]; [| apply Qle_refl].
           apply Qle_trans with (relevance_score kept);
             [now apply Hmax | now apply Qlt_le_weak].
        -- now apply Hold.
      * intros c' Hc'. rewrite dict_set_keys_present by exact Hkey.
        apply in_app_or in Hc'. destruct Hc' as [Hc' | [<- | []]]; auto.
    + apply Qltb_false in E. split.
      * exact Hnd.
      * intros k v Hin. destruct (Hent k v Hin) as (Hf & Hl & Hmax').
        repeat split; [exact Hf | apply in_or_app; now left |].
        intros c' Hc' Hfc'. apply in_app_or in Hc'.
        destruct Hc' as [Hc' | [<- | []]]; [now apply Hmax' |].
        rewrite <- Hfc' in Hin.
        now rewrite (dict_entry_unique d _ v kept Hnd Hin Hkept).
      * intros c' Hc'. apply in_app_or in Hc'.
        destruct Hc' as [Hc' | [<- | []]]; auto.
  - apply dict_lookup_none in L. split.
    + rewrite dict_set_keys_absent by exact L.
      apply (Permutation_NoDup (Permutation_cons_append (map fst d) (file_path c))).
      now constructor.
    + intros k v Hin.
      destruct (dict_set_entries _ _ _ _ _ Hnd Hin) as [Heq | [Hk Hin']].
      * inversion Heq; subst. repeat split; [apply in_or_app; right; now left |].
        intros c' Hc' Hfc'. apply in_app_or in Hc'.
        destruct Hc' as [Hc' | [<- | []]]; [| apply Qle_refl].
        exfalso. apply L. rewrite <- Hfc'. now apply Hcov.
      * now apply Hold.
    + intros c' Hc'. rewrite dict_set_keys_absent by exact L.
      apply in_app_or in Hc'. apply in_or_app.
      destruct Hc' as [Hc' | [<- | []]]; [left; now apply Hcov | right; now left].
Qed.

Lemma fold_see_chunk_inv (rest : list RetrievedChunk) :
  forall d l, seen_inv d l -> seen_inv (fold_left see_chunk rest d) (l ++ rest).
Proof.
  induction rest as [| c rest IH]; intros d l H; simpl.
  - now rewrite app_nil_r.
  - replace (l ++ c :: rest) with ((l ++ [c]) ++ rest)
      by (rewrite <- app_assoc; reflexivity).
    apply IH. now apply see_chunk_inv.
Qed.

Lemma dedupe_by_file_inv (chunks : list RetrievedChunk) :
  seen_inv (dedupe_by_file chunks) chunks.
Proof. apply (fold_see_chunk_inv chunks [] []), seen_inv_nil. Qed.

(** ** Building the sources *)

Lemma source_of_chunk_ok (c : RetrievedChunk) (s : Source) :
  source_of_chunk c = Ok s -> built_from c s.
Proof.
  unfold source_of_chunk, new_Source, str_prefix.
  destruct (_ && _); [| discriminate].
  intros [= <-]. repeat split.
Qed.

Lemma map_result_ok {A B : Type} (f : A -> result B) (l : list A) (l' : list B) :
  map_result f l = Ok l' -> Forall2 (fun x y => f x = Ok y) l l'.
Proof.
  revert l'. induction l as [| x t IH]; simpl; intros l' H.
  - inversion H. constructor.
  - destruct (f x) as [y |] eqn:E; [| discriminate].
    destruct (map_result f t) as [ys |]; [| discriminate].
    inversion H; subst. constructor; [exact E | now apply IH].
Qed.

Lemma built_from_paths (vals : list RetrievedChunk) (srcs : list Source) :
  Forall2 (fun c s => source_of_chunk c = Ok s) vals srcs ->
  map src_file_path srcs = map file_path vals.
Proof.
  induction 1 as [| c s vals srcs H _ IH]; simpl; [reflexivity |].
  apply source_of_chunk_ok in H. destruct H as (_ & -> & _). now rewrite IH.
Qed.

Lemma Forall2_in_right {A B : Type} (R : A -> B -> Prop) (l : list A) (l' : list B) (y : B) :
  Forall2 R l l' -> In y l' -> exists x, In x l /\ R x y.
Proof.
  induction 1 as [| a b l l' H _ IH]; simpl; [tauto |].
  intros [<- | Hy].
  - exists a. auto.
  - destruct (IH Hy) as (x & Hx & HR). exists x. auto.
Qed.

Lemma seen_values_paths (d : seen_dict) (l : list RetrievedChunk) :
  seen_inv d l -> map file_path (dict_values d) = map fst d.
Proof.
  intros [_ Hent _]. unfold dict_values.
  induction d as [| [k v] t IH]; simpl; [reflexivity |].
  destruct (Hent k v (or_introl eq_refl)) as (-> & _).
  f_equal. apply IH. intros k' v' H. apply Hent. now right.
Qed.

Lemma sort_sources_sorted (l : list Source) :
  StronglySorted by_score_desc (sort_by higher_score l).
Proof.
  assert (H : StronglySorted (may_precede higher_score) (sort_by higher_score l)).
  { apply sort_by_sorted.
    - intros a b. unfold higher_score. rewrite Qltb_true, Qltb_false.
      apply Qlt_le_weak.
    - intros a b c. unfold may_precede, higher_score. rewrite !Qltb_false.
      intros H1 H2. now apply Qle_trans with (src_relevance_score b). }
  induction H as [| x t _ IH Hx]; constructor; [exact IH |].
  eapply Forall_impl; [| exact Hx].
  intros y. unfold may_precede, higher_score. now rewrite Qltb_false.
Qed.

Lemma format_sources_ok (chunks : list RetrievedChunk) (sources : list Source) :
  format_sources chunks = Ok sources -> sources_of_chunks chunks sources.
Proof.
  unfold format_sources.
  pose proof (dedupe_by_file_inv chunks) as Hinv.
  destruct (map_result source_of_chunk (dict_values (dedupe_by_file chunks)))
    as [srcs |] eqn:E; [| discriminate].
  intros [= <-]. apply map_result_ok in E.
  pose proof (built_from_paths _ _ E) as Hpaths.
  rewrite (seen_values_paths _ _ Hinv) in Hpaths.
  pose proof (sort_by_perm higher_score srcs) as Hperm.
  pose proof (Permutation_map src_file_path Hperm) as Hpermf.
  destruct Hinv as [Hnd Hent Hcov].
  split; [| split; [| split]].
  - apply (Permutation_NoDup Hpermf). now rewrite Hpaths.
  - intros fp. split; intros H.
    + apply (Permutation_in _ Hpermf). rewrite Hpaths.
      apply in_map_iff in H. destruct H as (c & <- & Hc). now apply Hcov.
    + apply (Permutation_in _ (Permutation_sym Hpermf)) in H. rewrite Hpaths in H.
      apply in_map_iff in H. destruct H as ([k v] & <- & Hkv).
      destruct (Hent k v Hkv) as (Hf & Hv & _). simpl. rewrite <- Hf.
      now apply in_map.
  - intros s Hs. apply (Permutation_in _ (Permutation_sym Hperm)) in Hs.
    destruct (Forall2_in_right _ _ _ _ E Hs) as (c & Hc & Hb).
    apply source_of_chunk_ok in Hb.
    unfold dict_values in Hc. apply in_map_iff in Hc.
    destruct Hc as ([k v] & Hsnd & Hkv). simpl in Hsnd. subst v.
    destruct (Hent k c Hkv) as (Hf & Hin & Hmax).
    pose proof Hb as (_ & Hp & Hsc & Hex).
    exists c. repeat split; try apply Hb; try exact Hin.
    + rewrite Hex. change (substring 0 500 (chunk_text c)) with (str_prefix 500 (chunk_text c)).
      rewrite str_prefix_length. apply Nat.le_min_l.
    + rewrite Hex. apply (str_prefix_is_prefix 500).
    + intros c' Hc' Hfc'. rewrite Hsc. apply Hmax; [exact Hc' | congruence].
  - apply sort_sources_sorted.
Qed.

(** ** Reasoning in the monad *)

Lemma bind_ok {A B : Type} (m : M A) (k : A -> M B) (w w' : World) (b : B) :
  bind m k w = (Ok b, w') ->
  exists a w1, m w = (Ok a, w1) /\ k a w1 = (Ok b, w').
Proof.
  unfold bind. destruct (m w) as [[a | e] w1]; [| discriminate].
  intros H. now exists a, w1.
Qed.

Lemma preserves_bind {A B X : Type} (f : World -> X) (m : M A) (k : A -> M B) :
  preserves f m -> (forall a, preserves f (k a)) -> preserves f (bind m k).
Proof.
  intros Hm Hk w. unfold bind. specialize (Hm w).
  destruct (m w) as [[a | e] w1]; simpl in *.
  - now rewrite Hk.
  - exact Hm.
Qed.

Ltac frame :=
  repeat first
    [ apply preserves_bind; [| intros ?]
    | match goal with
      | |- preserves _ (if ?b then _ else _) => destruct b
      | |- preserves _ (match ?x with _ => _ end) => destruct x
      end
    | (intros ?; reflexivity) ].

(** *** What each service call leaves alone *)

Lemma generate_embedding_messages env text :
  preserves chat_messages (generate_embedding env text).
Proof. unfold generate_embedding, lift. frame. Qed.

Lemma vector_store_search_messages env emb k th :
  preserves chat_messages (vector_store_search env emb k th).
Proof. unfold vector_store_search, lift. frame. Qed.

Lemma generate_response_messages env q chunks hist sel :
  preserves chat_messages (generate_response env q chunks hist sel).
Proof. unfold generate_response, lift. frame. Qed.

Lemma get_conversation_history_messages env sid :
  preserves chat_messages (get_conversation_history env sid).
Proof. unfold get_conversation_history, db_connect. frame. Qed.

Lemma create_session_messages env : preserves chat_messages (create_session env).
Proof. unfold create_session, db_connect, insert_session. frame. Qed.

Lemma generate_embedding_sessions env text :
  preserves chat_sessions (generate_embedding env text).
Proof. unfold generate_embedding, lift. frame. Qed.

Lemma vector_store_search_sessions env emb k th :
  preserves chat_sessions (vector_store_search env emb k th).
Proof. unfold vector_store_search, lift. frame. Qed.

Lemma generate_response_sessions env q chunks hist sel :
  preserves chat_sessions (generate_response env q chunks hist sel).
Proof. unfold generate_response, lift. frame. Qed.

Lemma get_conversation_history_sessions env sid :
  preserves chat_sessions (get_conversation_history env sid).
Proof. unfold get_conversation_history, db_connect. frame. Qed.

Lemma save_message_sessions env sid role content sel ctx :
  preserves chat_sessions (save_message env sid role content sel ctx).
Proof. unfold save_message, db_connect, insert_message. frame. Qed.

Lemma save_message_calls env sid role content sel ctx :
  preserves calls (save_message env sid role content sel ctx).
Proof. unfold save_message, db_connect, insert_message. frame. Qed.

Lemma get_conversation_history_calls env sid :
  preserves calls (get_conversation_history env sid).
Proof. unfold get_conversation_history, db_connect. frame. Qed.

Lemma create_session_calls env : preserves calls (create_session env).
Proof. unfold create_session, db_connect, insert_session. frame. Qed.

(** *** The pipeline as three stages *)

Lemma process_query_stages env query session_id selected_text w :
  process_query env query session_id selected_text w =
  match retrieval_steps env query session_id w with
  | (Err e, w1) => (Err e, w1)
  | (Ok (sid, history, chunks), w1) =>
      match answer_steps env query selected_text history chunks w1 with
      | (Err e, w2) => (Err e, w2)
      | (Ok (response, sources), w2) =>
          match persist_steps env query selected_text sid chunks response w2 with
          | (Err e, w3) => (Err e, w3)
          | (Ok _, w3) => (Ok (response, sources, sid), w3)
          end
      end
  end.
Proof.
  unfold process_query, retrieval_steps, answer_steps, persist_steps.
  unfold bind, ret, lift.
  destruct (match session_id with
            | Some sid => _
            | None => create_session env
            end w) as [[sid | e] w0]; [| reflexivity].
  destruct (get_conversation_history env sid w0) as [[history | e] w1]; [| reflexivity].
  destruct (generate_embedding env query w1) as [[emb | e] w2]; [| reflexivity].
  destruct (vector_store_search env emb _ _ w2) as [[chunks | e] w3]; [| reflexivity].
  assert (Hpersist : forall response sources w4,
    match save_message env sid "user" query selected_text None w4 with
    | (Ok _, w5) =>
        match save_message env sid "assistant" response None
                (Some (context_metadata chunks)) w5 with
        | (Ok _, w6) => (Ok (response, sources, sid), w6)
        | (Err e, w6) => (Err e, w6)
        end
    | (Err e, w5) => (Err e, w5)
    end =
    match
      match save_message env sid "user" query selected_text None w4 with
      | (Ok _, w5) =>
          match save_message env sid "assistant" response None
                  (Some (context_metadata chunks)) w5 with
          | (Ok _, w6) => (Ok tt, w6)
          | (Err e, w6) => (Err e, w6)
          end
      | (Err e, w5) => (Err e, w5)
      end
    with
    | (Ok _, w3) => (Ok (response, sources, sid), w3)
    | (Err e, w3) => (Err e, w3)
    end :> result (string * list Source * UUID) * World).
  { intros response sources w4.
    destruct (save_message env sid "user" query selected_text None w4)
      as [[m1 | e] w5]; [| reflexivity].
    destruct (save_message env sid "assistant" response None _ w5)
      as [[m2 | e] w6]; reflexivity. }
  destruct chunks as [| c rest].
  - apply Hpersist.
  - destruct (generate_response env query (c :: rest) history selected_text w3)
      as [[response | e] w4]; [| reflexivity].
    destruct (format_sources (c :: rest)) as [sources | e]; [| reflexivity].
    apply Hpersist.
Qed.

(** *** Calls to the Answer Generator *)

Lemma generate_embedding_generator_log env text :
  preserves generator_log (generate_embedding env text).
Proof.
  unfold generate_embedding, lift. frame.
  intros w. unfold generator_log, generate_calls. simpl.
  rewrite flat_map_app. simpl. apply app_nil_r.
Qed.

Lemma vector_store_search_generator_log env emb k th :
  preserves generator_log (vector_store_search env emb k th).
Proof.
  unfold vector_store_search, lift. frame.
  intros w. unfold generator_log, generate_calls. simpl.
  rewrite flat_map_app. simpl. apply app_nil_r.
Qed.

Lemma retrieval_steps_generator_log env query session_id :
  preserves generator_log (retrieval_steps env query session_id).
Proof.
  unfold retrieval_steps.
  apply preserves_bind.
  { destruct session_id; [intros w; reflexivity |].
    intros w. unfold generator_log. f_equal. apply create_session_calls. }
  intros sid. apply preserves_bind.
  { intros w. unfold generator_log. f_equal. apply get_conversation_history_calls. }
  intros history. apply preserves_bind; [apply generate_embedding_generator_log |].
  intros emb. apply preserves_bind; [apply vector_store_search_generator_log |].
  intros chunks w. reflexivity.
Qed.

Lemma persist_steps_calls env query selected_text sid chunks response :
  preserves calls (persist_steps env query selected_text sid chunks response).
Proof.
  unfold persist_steps.
  apply preserves_bind; [apply save_message_calls | intros _].
  apply preserves_bind; [apply save_message_calls | intros _].
  intros w. reflexivity.
Qed.

(** C1: when the vector search returns no chunk, [process_query] answers
    with the fixed refusal message and an empty list of sources (that is its
    result whenever it returns, and it returns as soon as the two saves
    succeed), and it makes no call after the search: the Answer Generator is
    never invoked. *)
Theorem empty_retrieval_refuses_without_generation
    (env : Env) (query : string) (session_id : option UUID)
    (selected_text : option string) (w : World)
    (sid : UUID) (history : list HistoryMessage) (w1 : World) :
  retrieval_steps env query session_id w = (Ok (sid, history, []), w1) ->
  let outcome := process_query env query session_id selected_text w in
  (forall r w', outcome = (Ok r, w') -> r = (refusal_message, [], sid)) /\
  (forall m1 w2 m2 w3,
      save_message env sid "user" query selected_text None w1 = (Ok m1, w2) ->
      save_message env sid "assistant" refusal_message None
        (Some (context_metadata [])) w2 = (Ok m2, w3) ->
      outcome = (Ok (refusal_message, [], sid), w3)) /\
  calls (snd outcome) = calls w1 /\
  generate_calls (calls (snd outcome)) = generate_calls (calls w).
Proof.
  intros Hret outcome.
  assert (Hout : outcome =
    match persist_steps env query selected_text sid [] refusal_message w1 with
    | (Ok _, w3) => (Ok (refusal_message, [], sid), w3)
    | (Err e, w3) => (Err e, w3)
    end).
  { unfold outcome. rewrite process_query_stages, Hret. reflexivity. }
  pose proof (persist_steps_calls env query selected_text sid [] refusal_message w1)
    as Hcalls.
  assert (Hc : calls (snd outcome) = calls w1).
  { rewrite Hout.
    destruct (persist_steps env query selected_text sid [] refusal_message w1)
      as [[u | e] w3]; exact Hcalls. }
  repeat split.
  - intros r w' H. rewrite Hout in H.
    destruct (persist_steps env query selected_text sid [] refusal_message w1)
      as [[u | e] w3]; [| discriminate].
    now inversion H.
  - intros m1 w2 m2 w3 H1 H2. rewrite Hout.
    unfold persist_steps, bind, ret. now rewrite H1, H2.
  - exact Hc.
  - rewrite Hc.
    pose proof (retrieval_steps_generator_log env query session_id w) as H.
    rewrite Hret in H. exact H.
Qed.

Lemma empty_retrieval_refuses_witness :
  retrieval_steps no_match_env "What is ROS2?" None (empty_world declared_constraints)
    = (Ok ("id-1", [], []),
       snd (retrieval_steps no_match_env "What is ROS2?" None
              (empty_world declared_constraints))) /\
  fst (process_query no_match_env "What is ROS2?" None (Some "ROS2")
         (empty_world declared_constraints))
    = Ok (refusal_message, [], "id-1") /\
  generate_calls
    (calls (snd (process_query no_match_env "What is ROS2?" None (Some "ROS2")
                   (empty_world declared_constraints)))) = [].
Proof.
  assert (H : retrieval_steps no_match_env "What is ROS2?" None
                (empty_world declared_constraints)
              = (Ok ("id-1", [], []),
                 snd (retrieval_steps no_match_env "What is ROS2?" None
                        (empty_world declared_constraints))))
    by (vm_compute; reflexivity).
  split; [exact H |].
  destruct (empty_retrieval_refuses_without_generation
              no_match_env "What is ROS2?" None (Some "ROS2")
              (empty_world declared_constraints) _ _ _ H)
    as (_ & Hok & _ & Hgen).
  split.
  - erewrite Hok; [reflexivity | vm_compute; reflexivity | vm_compute; reflexivity].
  - exact Hgen.
Defined.

(** *** The effect of one save *)

(** The payload that [process_query] writes already has its keys in the
    order of a [jsonb] object. *)
Lemma jsonb_context_metadata (chunks : list RetrievedChunk) :
  jsonb (context_metadata chunks) = context_metadata chunks.
Proof.
  assert (Hmap : map jsonb (map chunk_summary chunks) = map chunk_summary chunks).
  { rewrite map_map. apply map_ext. intros c. vm_compute. reflexivity. }
  unfold context_metadata. cbn [jsonb map fst snd]. rewrite Hmap.
  unfold jsonb_object. cbn [fold_left fst snd jsonb_put].
  change ("retrieval_count" =? "chunks") with false.
  change (jsonb_key_before "retrieval_count" "chunks") with false.
  reflexivity.
Qed.

(** A save either fails and leaves the world's tables as they were, or
    appends the row as the table holds it. *)
Lemma insert_message_cases (row : ChatMessageModel) (w : World) :
  (exists e, insert_message row w = (Err e, w)) \/
  (exists row',
     stored_row row = Some row' /\
     insert_message row w
       = (Ok tt, {| chat_sessions := chat_sessions w;
                    chat_messages := chat_messages w ++ [row'];
                    db_constraints := db_constraints w;
                    tick := tick w;
                    calls := calls w |})).
Proof.
  unfold insert_message, bind, get_world, raise, put_messages.
  destruct (stored_row row) as [row' |]; [| left; eauto].
  repeat match goal with
         | |- context [if ?b then _ else _] => destruct b
         end; try (left; eauto; fail).
  right. exists row'. split; reflexivity.
Qed.

Lemma stored_row_fields (row row' : ChatMessageModel) :
  stored_row row = Some row' ->
  m_message_id row' = m_message_id row /\
  m_session_id row' = m_session_id row /\
  varchar 20 (m_role row) = Some (m_role row') /\
  m_content row' = m_content row /\
  m_selected_text row' = m_selected_text row /\
  m_context_used row' = option_map jsonb (m_context_used row) /\
  m_created_at row' = m_created_at row.
Proof.
  unfold stored_row.
  destruct (has_nul (m_role row) || has_nul (m_content row)
            || option_has_nul (m_selected_text row)
            || option_json_has_nul (m_context_used row)); [discriminate |].
  destruct (varchar 20 (m_role row)) as [role |]; [| discriminate].
  intros H. injection H as <-. cbn. repeat split; reflexivity.
Qed.

(** The two roles fit the column, so a role is one of them exactly when
    the stored role is. *)
Lemma valid_role_stored (role : string) :
  valid_role role = true -> varchar 20 role = Some role /\ has_nul role = false.
Proof.
  unfold valid_role. intros H. apply orb_true_iff in H.
  destruct H as [H | H]; apply String.eqb_eq in H; subst; split; reflexivity.
Qed.

Lemma varchar_valid_role (role role' : string) :
  varchar 20 role = Some role' -> valid_role role' = valid_role role.
Proof.
  unfold varchar. destruct (Nat.leb_spec (String.length role) 20) as [Hle | Hgt].
  - intros H. now injection H as <-.
  - destruct (all_spaces _); [| discriminate]. intros H. injection H as <-.
    assert (Hlong : forall r, (20 <= String.length r)%nat -> valid_role r = false).
    { intros r Hr. unfold valid_role. apply orb_false_iff.
      split; apply String.eqb_neq; intros ->; cbn in Hr; lia. }
    rewrite !Hlong; [reflexivity | lia |].
    rewrite str_prefix_length. lia.
Qed.

Lemma save_message_ok env sid role content sel ctx w mid w' :
  save_message env sid role content sel ctx w = (Ok mid, w') ->
  exists t role',
    varchar 20 role = Some role' /\
    chat_messages w' =
    chat_messages w ++ [ {| m_message_id := mid;
                            m_session_id := sid;
                            m_role := role';
                            m_content := content;
                            m_selected_text := sel;
                            m_context_used := option_map jsonb ctx;
                            m_created_at := t |} ].
Proof.
  unfold save_message, db_connect.
  unfold bind at 1 2. unfold next_tick at 1.
  destruct (db_down env (tick w)); [discriminate |].
  unfold ret at 1. unfold bind at 1. unfold next_tick at 1.
  unfold bind at 1. unfold next_tick at 1.
  unfold bind at 1.
  match goal with
  | |- context [insert_message ?row ?w0] =>
      destruct (insert_message_cases row w0) as [(e & He) | (row' & Hst & He)];
      rewrite He
  end; [discriminate |].
  unfold ret. intros H. injection H as <- <-.
  apply stored_row_fields in Hst. cbn in Hst.
  destruct Hst as (Hid & Hsid & Hrole & Hcontent & Hsel & Hctx & Ht).
  exists (m_created_at row'), (m_role row'). split; [exact Hrole |].
  cbn [chat_messages]. f_equal. f_equal.
  destruct row'; cbn in *. congruence.
Qed.

Lemma save_user_message_ok env sid content sel w mid w' :
  save_message env sid "user" content sel None w = (Ok mid, w') ->
  exists t,
    chat_messages w' =
    chat_messages w ++ [ {| m_message_id := mid;
                            m_session_id := sid;
                            m_role := "user";
                            m_content := content;
                            m_selected_text := sel;
                            m_context_used := None;
                            m_created_at := t |} ].
Proof.
  intros H. apply save_message_ok in H. destruct H as (t & role' & Hrole & H).
  injection Hrole as <-. now exists t.
Qed.

Lemma save_assistant_message_ok env sid content chunks w mid w' :
  save_message env sid "assistant" content None (Some (context_metadata chunks)) w
    = (Ok mid, w') ->
  exists t,
    chat_messages w' =
    chat_messages w ++ [ {| m_message_id := mid;
                            m_session_id := sid;
                            m_role := "assistant";
                            m_content := content;
                            m_selected_text := None;
                            m_context_used := Some (context_metadata chunks);
                            m_created_at := t |} ].
Proof.
  intros H. apply save_message_ok in H. destruct H as (t & role' & Hrole & H).
  injection Hrole as <-. cbn [option_map] in H.
  rewrite jsonb_context_metadata in H. now exists t.
Qed.

Lemma save_message_err env sid role content sel ctx w e w' :
  save_message env sid role content sel ctx w = (Err e, w') ->
  chat_messages w' = chat_messages w.
Proof.
  unfold save_message, db_connect.
  unfold bind at 1 2. unfold next_tick at 1.
  destruct (db_down env (tick w)).
  { cbn. intros H. now inversion H. }
  unfold ret at 1. unfold bind at 1. unfold next_tick at 1.
  unfold bind at 1. unfold next_tick at 1.
  unfold bind at 1.
  match goal with
  | |- context [insert_message ?row ?w0] =>
      destruct (insert_message_cases row w0) as [(e' & He) | (row' & Hst & He)];
      rewrite He
  end; [| discriminate].
  intros H. now inversion H.
Qed.

Lemma retrieval_steps_messages env query session_id :
  preserves chat_messages (retrieval_steps env query session_id).
Proof.
  unfold retrieval_steps.
  apply preserves_bind.
  { destruct session_id; [intros w; reflexivity | apply create_session_messages]. }
  intros sid. apply preserves_bind; [apply get_conversation_history_messages |].
  intros history. apply preserves_bind; [apply generate_embedding_messages |].
  intros emb. apply preserves_bind; [apply vector_store_search_messages |].
  intros chunks w. reflexivity.
Qed.

Lemma answer_steps_messages env query sel history chunks :
  preserves chat_messages (answer_steps env query sel history chunks).
Proof.
  unfold answer_steps. destruct chunks; [intros w; reflexivity |].
  apply preserves_bind; [apply generate_response_messages |].
  intros response. unfold lift. frame.
Qed.

Lemma answer_steps_refusal env query sel history w r w' :
  answer_steps env query sel history [] w = (Ok r, w') ->
  r = (refusal_message, []).
Proof. unfold answer_steps, ret. now intros [= <- _]. Qed.

Lemma answer_steps_sources env query sel history c rest w response sources w' :
  answer_steps env query sel history (c :: rest) w = (Ok (response, sources), w') ->
  format_sources (c :: rest) = Ok sources.
Proof.
  unfold answer_steps. intros H.
  apply bind_ok in H. destruct H as (resp & w1 & _ & H).
  apply bind_ok in H. destruct H as (srcs & w2 & Hs & H).
  unfold lift in Hs. unfold ret in H.
  inversion Hs; subst. inversion H; subst. assumption.
Qed.

(** The outcome of a successful run, stage by stage. *)
Lemma process_query_ok env query session_id selected_text w response sources sid w' :
  process_query env query session_id selected_text w = (Ok (response, sources, sid), w') ->
  exists history chunks w1 w2 m1 w3 m2,
    retrieval_steps env query session_id w = (Ok (sid, history, chunks), w1) /\
    answer_steps env query selected_text history chunks w1 = (Ok (response, sources), w2) /\
    save_message env sid "user" query selected_text None w2 = (Ok m1, w3) /\
    save_message env sid "assistant" response None
      (Some (context_metadata chunks)) w3 = (Ok m2, w').
Proof.
  rewrite process_query_stages.
  destruct (retrieval_steps env query session_id w)
    as [[[[sid0 history] chunks] | e] w1] eqn:E1; [| discriminate].
  destruct (answer_steps env query selected_text history chunks w1)
    as [[[resp srcs] | e] w2] eqn:E2; [| discriminate].
  destruct (persist_steps env query selected_text sid0 chunks resp w2)
    as [[u | e] w3] eqn:E3; [| discriminate].
  intros H. inversion H; subst.
  unfold persist_steps in E3.
  apply bind_ok in E3. destruct E3 as (m1 & w4 & Hs1 & E3).
  apply bind_ok in E3. destruct E3 as (m2 & w5 & Hs2 & E3).
  unfold ret in E3. inversion E3; subst.
  exists history, chunks, w1, w2, m1, w4, m2. auto.
Qed.

(** *** Sources *)

(** Step 7 cannot fail on chunks whose scores lie in [0, 1]. *)
Lemma map_result_length {A B : Type} (f : A -> result B) (l : list A) (ys : list B) :
  map_result f l = Ok ys -> List.length ys = List.length l.
Proof.
  revert ys. induction l as [| x t IH]; intros ys H; cbn in H.
  - now inversion H.
  - destruct (f x); [| discriminate].
    destruct (map_result f t) as [ys' |]; [| discriminate].
    inversion H; subst. cbn. now rewrite (IH ys' eq_refl).
Qed.

Lemma sort_by_length_sources (l : list Source) :
  List.length (sort_by higher_score l) = List.length l.
Proof. symmetry. apply Permutation_length, sort_by_perm. Qed.

Lemma format_sources_total (chunks : list RetrievedChunk) :
  Forall (fun c => (0 <= relevance_score c)%Q /\ (relevance_score c <= 1)%Q) chunks ->
  exists sources, format_sources chunks = Ok sources.
Proof.
  intros Hrange. unfold format_sources.
  pose proof (dedupe_by_file_inv chunks) as [_ Hent _].
  assert (Hvals : forall c, In c (dict_values (dedupe_by_file chunks)) -> In c chunks).
  { intros c Hc. unfold dict_values in Hc. apply in_map_iff in Hc.
    destruct Hc as ([k v] & <- & Hkv). now destruct (Hent k v Hkv) as (_ & ? & _). }
  induction (dict_values (dedupe_by_file chunks)) as [| c t IH]; simpl.
  - now exists [].
  - destruct IH as (srcs & IH); [intros c' Hc'; apply Hvals; now right |].
    rewrite Forall_forall in Hrange.
    destruct (Hrange c (Hvals c (or_introl eq_refl))) as (H0 & H1).
    unfold source_of_chunk at 1, new_Source.
    apply Qle_bool_iff in H0, H1. rewrite H0, H1. cbn [andb].
    assert (Hlen : (len (str_prefix 500 (chunk_text c)) <=? 500)%Z = true).
    { apply Z.leb_le. unfold len. rewrite str_prefix_length.
      change 500%Z with (Z.of_nat 500). apply Nat2Z.inj_le, Nat.le_min_l. }
    rewrite Hlen.
    destruct (map_result source_of_chunk t) as [ys |] eqn:E.
    + eexists. reflexivity.
    + destruct srcs; discriminate.
Qed.

(** C2: for a non-empty list of retrieved chunks, the sources
    [process_query] returns have pairwise distinct file paths, one for each
    file path among the chunks; each source is built from a chunk of its file
    whose score is the maximum among the chunks of that file, its excerpt
    being the first 500 characters of that chunk's text (at most 500
    characters, a prefix of the text); and the list is sorted by relevance
    score, highest first.  The cut to 500 characters is what lets a long
    chunk through: with scores between 0 and 1, once the Answer Generator has
    answered, the sources are built without an error, however long the
    texts of the chunks are. *)
Theorem sources_deduplicated_by_file_and_sorted
    (env : Env) (query : string) (session_id : option UUID)
    (selected_text : option string) (w : World)
    (sid : UUID) (history : list HistoryMessage)
    (chunks : list RetrievedChunk) (w1 : World) :
  retrieval_steps env query session_id w = (Ok (sid, history, chunks), w1) ->
  chunks <> [] ->
  (forall response sources sid' w',
     process_query env query session_id selected_text w
       = (Ok (response, sources, sid'), w') ->
     NoDup (map src_file_path sources) /\
     (forall fp, In fp (map file_path chunks) <-> In fp (map src_file_path sources)) /\
     (forall s, In s sources ->
        exists c, In c chunks /\
          src_title s = title c /\
          src_file_path s = file_path c /\
          src_relevance_score s = relevance_score c /\
          src_excerpt s = substring 0 500 (chunk_text c) /\
          (String.length (src_excerpt s) <= 500)%nat /\
          String.prefix (src_excerpt s) (chunk_text c) = true /\
          forall c', In c' chunks -> file_path c' = src_file_path s ->
                     (relevance_score c' <= src_relevance_score s)%Q) /\
     StronglySorted
       (fun a b => (src_relevance_score b <= src_relevance_score a)%Q) sources) /\
  (Forall (fun c => (0 <= relevance_score c)%Q /\ (relevance_score c <= 1)%Q) chunks ->
   forall response w2,
     generate_response env query chunks history selected_text w1 = (Ok response, w2) ->
     exists sources,
       answer_steps env query selected_text history chunks w1
         = (Ok (response, sources), w2) /\
       List.length sources = List.length (dedupe_by_file chunks)).
Proof.
  intros Hret Hne. split.
  - intros response sources sid' w' Hrun.
    apply process_query_ok in Hrun.
    destruct Hrun as (history' & chunks' & w1' & w2 & m1 & w3 & m2 & Hret' & Hans & _).
    rewrite Hret in Hret'. inversion Hret'; subst.
    destruct chunks' as [| c rest]; [congruence |].
    apply answer_steps_sources, format_sources_ok in Hans.
    destruct Hans as (Hnd & Hcov & Hsrc & Hsorted).
    repeat split; try assumption; try (now apply Hcov).
    intros s Hs.
    destruct (Hsrc s Hs) as (c0 & Hc0 & (Ht & Hp & Hsc & Hex) & Hlen & Hpre & Hmax).
    exists c0. repeat split; assumption.
  - intros Hrange response w2 Hgen.
    destruct (format_sources_total chunks Hrange) as (sources & Hsrc).
    exists sources. split.
    + destruct chunks as [| c rest]; [congruence |].
      unfold answer_steps, bind. rewrite Hgen. unfold lift. rewrite Hsrc. reflexivity.
    + unfold format_sources in Hsrc.
      destruct (map_result source_of_chunk (dict_values (dedupe_by_file chunks)))
        as [built |] eqn:Hbuilt; [| discriminate].
      injection Hsrc as <-.
      rewrite sort_by_length_sources.
      apply map_result_length in Hbuilt. rewrite Hbuilt.
      unfold dict_values. apply length_map.
Qed.

Lemma sources_deduplicated_witness :
  fst (process_query long_text_env "What is ROS2?" None None
         (empty_world declared_constraints))
    = Ok ("ROS2 is a robotics middleware.", long_text_sources, "id-1") /\
  NoDup (map src_file_path long_text_sources) /\
  StronglySorted
    (fun a b => (src_relevance_score b <= src_relevance_score a)%Q) long_text_sources /\
  map (fun s => String.length (src_excerpt s)) long_text_sources = [500; 500]%nat /\
  exists sources,
    fst (answer_steps long_text_env "What is ROS2?" None []
           (map chunk_of_point long_text_points)
           (snd (retrieval_steps long_text_env "What is ROS2?" None
                   (empty_world declared_constraints))))
      = Ok ("ROS2 is a robotics middleware.", sources) /\
    List.length sources = 2%nat.
Proof.
  split; [vm_compute; reflexivity |].
  assert (H := sources_deduplicated_by_file_and_sorted
                 long_text_env "What is ROS2?" None None
                 (empty_world declared_constraints)
                 "id-1" [] (map chunk_of_point long_text_points)
                 (snd (retrieval_steps long_text_env "What is ROS2?" None
                         (empty_world declared_constraints)))).
  destruct H as (Hsucc & Htotal).
  - vm_compute; reflexivity.
  - discriminate.
  - destruct (Hsucc "ROS2 is a robotics middleware." long_text_sources "id-1"
                (snd (process_query long_text_env "What is ROS2?" None None
                        (empty_world declared_constraints))))
      as (Hnd & _ & _ & Hsorted); [vm_compute; reflexivity |].
    split; [exact Hnd |]. split; [exact Hsorted |].
    split; [vm_compute; reflexivity |].
    destruct (Htotal
                ltac:(repeat constructor; vm_compute; discriminate)
                "ROS2 is a robotics middleware."
                (snd (generate_response long_text_env "What is ROS2?"
                        (map chunk_of_point long_text_points) [] None
                        (snd (retrieval_steps long_text_env "What is ROS2?" None
                                (empty_world declared_constraints))))))
      as (sources & Hans & Hlen); [vm_compute; reflexivity |].
    exists sources. split; [now rewrite Hans | exact Hlen].
Defined.

(** *** Persistence of the turn *)

(** C4: a successful [process_query] appends exactly two rows to the
    message table, in this order: the user message (content = query, with the
    selected text) and the assistant message (content = answer), both for the
    returned session; the assistant row's [context_used] lists title, file
    path and score of every retrieved chunk and the retrieval count.  This
    holds on both branches: with no retrieved chunk the answer is the refusal
    message and the payload is the summary of zero chunks. *)
Theorem successful_query_persists_user_then_assistant
    (env : Env) (query : string) (session_id : option UUID)
    (selected_text : option string) (w : World)
    (response : string) (sources : list Source) (sid : UUID) (w' : World) :
  process_query env query session_id selected_text w
    = (Ok (response, sources, sid), w') ->
  exists history chunks w1 m1 t1 m2 t2,
    retrieval_steps env query session_id w = (Ok (sid, history, chunks), w1) /\
    chat_messages w' =
      chat_messages w ++
      [ {| m_message_id := m1; m_session_id := sid;
           m_role := "user"; m_content := query;
           m_selected_text := selected_text; m_context_used := None;
           m_created_at := t1 |};
        {| m_message_id := m2; m_session_id := sid;
           m_role := "assistant"; m_content := response;
           m_selected_text := None;
           m_context_used :=
             Some (JObj
               [ ("chunks",
                  JList (map (fun c =>
                                JObj [ ("title", JStr (title c));
                                       ("file_path", JStr (file_path c));
                                       ("relevance_score", JFloat (relevance_score c)) ])
                             chunks));
                 ("retrieval_count", JInt (Z.of_nat (List.length chunks))) ]);
           m_created_at := t2 |} ] /\
    (chunks = [] ->
       response = refusal_message /\ sources = [] /\
       context_metadata chunks
         = JObj [ ("chunks", JList []); ("retrieval_count", JInt 0) ]).
Proof.
  intros Hrun. apply process_query_ok in Hrun.
  destruct Hrun as (history & chunks & w1 & w2 & m1 & w3 & m2 & Hret & Hans & Hs1 & Hs2).
  apply save_user_message_ok in Hs1. apply save_assistant_message_ok in Hs2.
  destruct Hs1 as (t1 & Hs1). destruct Hs2 as (t2 & Hs2).
  exists history, chunks, w1, m1, t1, m2, t2.
  split; [exact Hret |]. split.
  - rewrite Hs2, Hs1.
    pose proof (answer_steps_messages env query selected_text history chunks w1) as Ha.
    rewrite Hans in Ha. simpl in Ha. rewrite Ha.
    pose proof (retrieval_steps_messages env query session_id w) as Hr.
    rewrite Hret in Hr. simpl in Hr. rewrite Hr.
    rewrite <- app_assoc. reflexivity.
  - intros ->. apply answer_steps_refusal in Hans. inversion Hans. auto.
Qed.

Lemma successful_query_persists_witness :
  fst (process_query no_match_env "What is ROS2?" None (Some "ROS2")
         (empty_world declared_constraints))
    = Ok (refusal_message, [], "id-1") /\
  map (fun m => (m_role m, m_content m, m_selected_text m))
      (chat_messages
         (snd (process_query no_match_env "What is ROS2?" None (Some "ROS2")
                 (empty_world declared_constraints))))
    = [ ("user", "What is ROS2?", Some "ROS2");
        ("assistant", refusal_message, None) ].
Proof.
  split; [vm_compute; reflexivity |].
  destruct (successful_query_persists_user_then_assistant
              no_match_env "What is ROS2?" None (Some "ROS2")
              (empty_world declared_constraints)
              refusal_message [] "id-1"
              (snd (process_query no_match_env "What is ROS2?" None (Some "ROS2")
                      (empty_world declared_constraints))))
    as (history & chunks & w1 & m1 & t1 & m2 & t2 & _ & Hrows & _).
  - vm_compute; reflexivity.
  - rewrite Hrows. reflexivity.
Defined.

(** *** Partial persistence *)

(** C8: when the save of the user message succeeds and the save of the
    assistant message then fails, [process_query] fails with that error and
    the user row stays in the table (no rollback); and a failure of any
    earlier step (session, history, embedding, search, generation, source
    construction) leaves the message table as it was. *)
Theorem assistant_save_failure_keeps_user_message
    (env : Env) (query : string) (session_id : option UUID)
    (selected_text : option string) (w : World) :
  let outcome := process_query env query session_id selected_text w in
  (forall sid history chunks w1 response sources w2 m1 w3 e w4,
      retrieval_steps env query session_id w = (Ok (sid, history, chunks), w1) ->
      answer_steps env query selected_text history chunks w1
        = (Ok (response, sources), w2) ->
      save_message env sid "user" query selected_text None w2 = (Ok m1, w3) ->
      save_message env sid "assistant" response None
        (Some (context_metadata chunks)) w3 = (Err e, w4) ->
      outcome = (Err e, w4) /\
      exists t,
        chat_messages w4 =
          chat_messages w ++
          [ {| m_message_id := m1; m_session_id := sid;
               m_role := "user"; m_content := query;
               m_selected_text := selected_text; m_context_used := None;
               m_created_at := t |} ]) /\
  (forall e w1,
      retrieval_steps env query session_id w = (Err e, w1) ->
      outcome = (Err e, w1) /\ chat_messages w1 = chat_messages w) /\
  (forall sid history chunks w1 e w2,
      retrieval_steps env query session_id w = (Ok (sid, history, chunks), w1) ->
      answer_steps env query selected_text history chunks w1 = (Err e, w2) ->
      outcome = (Err e, w2) /\ chat_messages w2 = chat_messages w).
Proof.
  intros outcome. unfold outcome.
  pose proof (retrieval_steps_messages env query session_id w) as Hr.
  split; [| split].
  - intros sid history chunks w1 response sources w2 m1 w3 e w4 H1 H2 H3 H4.
    split.
    + rewrite process_query_stages, H1, H2.
      unfold persist_steps, bind. now rewrite H3, H4.
    + pose proof (answer_steps_messages env query selected_text history chunks w1) as Ha.
      rewrite H1 in Hr. rewrite H2 in Ha. simpl in Hr, Ha.
      apply save_user_message_ok in H3. destruct H3 as (t & H3).
      apply save_message_err in H4.
      exists t. now rewrite H4, H3, Ha, Hr.
  - intros e w1 H1. split.
    + now rewrite process_query_stages, H1.
    + rewrite H1 in Hr. exact Hr.
  - intros sid history chunks w1 e w2 H1 H2. split.
    + now rewrite process_query_stages, H1, H2.
    + pose proof (answer_steps_messages env query selected_text history chunks w1) as Ha.
      rewrite H1 in Hr. rewrite H2 in Ha. simpl in Hr, Ha. now rewrite Ha, Hr.
Qed.

Lemma assistant_save_failure_witness :
  fst (process_query empty_answer_env "What is ROS2?" None None
         (empty_world declared_constraints))
    = Err (IntegrityError "chk_content_length") /\
  map (fun m => (m_role m, m_content m))
      (chat_messages
         (snd (process_query empty_answer_env "What is ROS2?" None None
                 (empty_world declared_constraints))))
    = [ ("user", "What is ROS2?") ].
Proof.
  pose (w0 := empty_world declared_constraints).
  pose (r1 := retrieval_steps empty_answer_env "What is ROS2?" None w0).
  pose (r2 := answer_steps empty_answer_env "What is ROS2?" None []
                (map chunk_of_point ros2_points) (snd r1)).
  pose (r3 := save_message empty_answer_env "id-1" "user" "What is ROS2?" None None (snd r2)).
  pose (r4 := save_message empty_answer_env "id-1" "assistant" "" None
                (Some (context_metadata (map chunk_of_point ros2_points))) (snd r3)).
  destruct (assistant_save_failure_keeps_user_message
              empty_answer_env "What is ROS2?" None None w0) as (H & _).
  destruct (H "id-1" [] (map chunk_of_point ros2_points) (snd r1)
              "" ros2_sources (snd r2) "id-6" (snd r3)
              (IntegrityError "chk_content_length") (snd r4))
    as (Hout & t & Hrows); try (vm_compute; reflexivity).
  split.
  - fold w0. now rewrite Hout.
  - vm_compute; reflexivity.
Defined.

(** ** The conversation store *)

Lemma get_conversation_history_up env sid w :
  db_down env (tick w) = false ->
  get_conversation_history env sid w
    = (Ok (map (history_entry env) (select_messages sid (chat_messages w))),
       tick_world w).
Proof.
  intros Hup. unfold get_conversation_history, db_connect, bind, next_tick.
  cbn. rewrite Hup. reflexivity.
Qed.

Lemma get_conversation_history_down env sid w :
  db_down env (tick w) = true ->
  get_conversation_history env sid w = (Err OperationalError, tick_world w).
Proof.
  intros Hdown. unfold get_conversation_history, db_connect, bind, next_tick.
  cbn. rewrite Hdown. reflexivity.
Qed.

Lemma filter_none {A : Type} (f : A -> bool) (l : list A) :
  (forall x, In x l -> f x = false) -> filter f l = [].
Proof.
  induction l as [| x t IH]; simpl; intros H; [reflexivity |].
  rewrite (H x (or_introl eq_refl)). apply IH. intros y Hy. apply H. now right.
Qed.

Lemma created_order_sorted (l : list ChatMessageModel) :
  StronglySorted (fun a b => (m_created_at a <= m_created_at b)%Z)
                 (sort_by created_before l).
Proof.
  assert (H : StronglySorted (may_precede created_before) (sort_by created_before l)).
  { apply sort_by_sorted.
    - intros a b. unfold created_before. rewrite Z.ltb_lt, Z.ltb_ge. lia.
    - intros a b c. unfold may_precede, created_before. rewrite !Z.ltb_ge. lia. }
  induction H as [| x t _ IH Hx]; constructor; [exact IH |].
  eapply Forall_impl; [| exact Hx].
  intros y. unfold may_precede, created_before. now rewrite Z.ltb_ge.
Qed.

(** C5: with the database reachable, [get_conversation_history] returns
    the rows of the session, all of them and only them, ordered by
    non-decreasing creation time; for a session with no stored message
    (unknown or new) the result is the empty list, not an error. *)
Theorem history_is_complete_and_chronological
    (env : Env) (session_id : UUID) (w : World) :
  db_down env (tick w) = false ->
  exists rows w',
    get_conversation_history env session_id w
      = (Ok (map (history_entry env) rows), w') /\
    Permutation rows
      (filter (fun m => m_session_id m =? session_id) (chat_messages w)) /\
    (forall m, In m rows <->
               In m (chat_messages w) /\ m_session_id m = session_id) /\
    StronglySorted (fun a b => (m_created_at a <= m_created_at b)%Z) rows /\
    ((forall m, In m (chat_messages w) -> m_session_id m <> session_id) ->
     get_conversation_history env session_id w = (Ok [], w')).
Proof.
  intros Hup.
  exists (select_messages session_id (chat_messages w)), (tick_world w).
  pose proof (sort_by_perm created_before
                (filter (fun m => m_session_id m =? session_id) (chat_messages w)))
    as Hperm.
  split; [now apply get_conversation_history_up |].
  split; [apply Permutation_sym, Hperm |].
  split; [| split].
  - intros m. unfold select_messages. split; intros H.
    + apply (Permutation_in _ (Permutation_sym Hperm)) in H.
      apply filter_In in H. destruct H as (H1 & H2).
      apply String.eqb_eq in H2. auto.
    + apply (Permutation_in _ Hperm). apply filter_In.
      destruct H as (H1 & H2). split; [exact H1 | now apply String.eqb_eq].
  - apply created_order_sorted.
  - intros Hnone. rewrite get_conversation_history_up by exact Hup.
    unfold select_messages. rewrite filter_none; [reflexivity |].
    intros m Hm. apply String.eqb_neq. now apply Hnone.
Qed.

Lemma history_is_chronological_witness :
  db_down ros2_env (tick two_sessions_world) = false /\
  map h_content (match fst (get_conversation_history ros2_env "s1" two_sessions_world) with
                 | Ok l => l
                 | Err _ => []
                 end) = ["first"; "second"] /\
  fst (get_conversation_history ros2_env "unknown" two_sessions_world) = Ok [].
Proof.
  split; [reflexivity |].
  destruct (history_is_complete_and_chronological ros2_env "unknown" two_sessions_world)
    as (rows & w' & _ & _ & _ & _ & Hnone); [reflexivity |].
  split; [vm_compute; reflexivity |].
  rewrite Hnone; [reflexivity |].
  intros m [<- | [<- | [<- | []]]]; discriminate.
Defined.

(** *** Sessions and referential integrity *)

Lemma session_exists_in (sid : UUID) (l : list ChatSessionModel) :
  session_exists sid l = true <-> exists s, In s l /\ s_session_id s = sid.
Proof.
  unfold session_exists. rewrite existsb_exists.
  split; intros (s & Hs & H); exists s; (split; [exact Hs |]);
    now apply String.eqb_eq.
Qed.

Lemma keeps_bind {A B : Type} (P : World -> Prop) (m : M A) (k : A -> M B) :
  keeps P m -> (forall a, keeps P (k a)) -> keeps P (bind m k).
Proof.
  intros Hm Hk w Hw. unfold bind. specialize (Hm w Hw).
  destruct (m w) as [[a | e] w1]; simpl in *.
  - now apply Hk.
  - exact Hm.
Qed.

Lemma insert_message_keeps_integrity row : keeps fk_integrity (insert_message row).
Proof.
  intros w (Hfk & Href). unfold insert_message, bind, get_world, raise, put_messages.
  destruct (stored_row row) as [stored |]; [| split; assumption].
  rewrite Hfk. cbn [andb].
  repeat match goal with
         | |- context [if ?b then _ else _] => destruct b eqn:?; cbn
         end; try (split; assumption).
  split; [exact Hfk |]. intros m Hm. cbn in Hm. apply in_app_or in Hm.
  destruct Hm as [Hm | [<- | []]]; [now apply Href |].
  apply session_exists_in.
  match goal with H : negb _ = false |- _ => apply negb_false_iff in H; exact H end.
Qed.

Lemma insert_session_keeps_integrity row : keeps fk_integrity (insert_session row).
Proof.
  intros w (Hfk & Href). unfold insert_session, bind, get_world, raise, put_sessions.
  repeat match goal with
         | |- context [if ?b then _ else _] => destruct b eqn:?; cbn
         end; try (split; assumption).
  split; [exact Hfk |]. intros m Hm. cbn in Hm.
  destruct (Href m Hm) as (s & Hs & Heq).
  exists s. split; [cbn; apply in_or_app; now left | exact Heq].
Qed.

Ltac keeps_integrity :=
  repeat first
    [ apply insert_message_keeps_integrity
    | apply insert_session_keeps_integrity
    | apply keeps_bind; [| intros ?]
    | match goal with
      | |- keeps _ (if ?b then _ else _) => destruct b
      | |- keeps _ (match ?x with _ => _ end) => destruct x
      end
    | (let H := fresh in intros ? H; exact H) ].

Lemma save_message_keeps_integrity env sid role content sel ctx :
  keeps fk_integrity (save_message env sid role content sel ctx).
Proof. unfold save_message, db_connect. keeps_integrity. Qed.

Lemma process_query_keeps_integrity env query session_id selected_text :
  keeps fk_integrity (process_query env query session_id selected_text).
Proof.
  unfold process_query, create_session, get_conversation_history,
    generate_embedding, vector_store_search, generate_response, save_message,
    db_connect, lift.
  keeps_integrity.
Qed.

Lemma create_session_ok env w sid w0 :
  create_session env w = (Ok sid, w0) ->
  session_exists sid (chat_sessions w0) = true.
Proof.
  unfold create_session, db_connect, insert_session, bind, next_tick, get_world,
    put_sessions, raise, ret.
  cbn.
  repeat match goal with
         | |- context [if ?b then _ else _] => destruct b; cbn
         end;
    intros H; inversion H; subst; cbn.
  unfold session_exists. rewrite existsb_app. cbn.
  rewrite String.eqb_refl. now rewrite orb_true_r.
Qed.

Lemma process_query_new_session env query selected_text w :
  process_query env query None selected_text w =
  match create_session env w with
  | (Ok sid, w0) => process_query env query (Some sid) selected_text w0
  | (Err e, w0) => (Err e, w0)
  end.
Proof.
  unfold process_query. unfold bind at 1 6. unfold ret at 3.
  destruct (create_session env w) as [[sid | e] w0]; reflexivity.
Qed.

Lemma process_query_supplied_sessions env query sid selected_text :
  preserves chat_sessions (process_query env query (Some sid) selected_text).
Proof.
  unfold process_query.
  apply preserves_bind; [intros w; reflexivity | intros sid0].
  apply preserves_bind; [apply get_conversation_history_sessions | intros history].
  apply preserves_bind; [apply generate_embedding_sessions | intros emb].
  apply preserves_bind; [apply vector_store_search_sessions | intros chunks].
  apply preserves_bind.
  { destruct chunks; [intros w; reflexivity |].
    apply preserves_bind; [apply generate_response_sessions | intros response].
    unfold lift. frame. }
  intros [response sources].
  apply preserves_bind; [apply save_message_sessions | intros _].
  apply preserves_bind; [apply save_message_sessions | intros _].
  intros w. reflexivity.
Qed.

Lemma process_query_supplied_verbatim env query sid selected_text w r sources sid' w' :
  process_query env query (Some sid) selected_text w = (Ok (r, sources, sid'), w') ->
  sid' = sid.
Proof.
  intros H. apply process_query_ok in H.
  destruct H as (history & chunks & w1 & _ & _ & _ & _ & Hret & _).
  unfold retrieval_steps in Hret.
  apply bind_ok in Hret. destruct Hret as (sid0 & w0 & Hsid & Hret).
  unfold ret in Hsid. inversion Hsid; subst.
  apply bind_ok in Hret. destruct Hret as (h & w2 & _ & Hret).
  apply bind_ok in Hret. destruct Hret as (emb & w3 & _ & Hret).
  apply bind_ok in Hret. destruct Hret as (cs & w4 & _ & Hret).
  unfold ret in Hret. now inversion Hret.
Qed.

Lemma unknown_session_has_no_messages (sid : UUID) (w : World) :
  referential_integrity w ->
  session_exists sid (chat_sessions w) = false ->
  forall m, In m (chat_messages w) -> m_session_id m <> sid.
Proof.
  intros Href Hno m Hm Heq.
  destruct (Href m Hm) as (s & Hs & Hsid).
  assert (H : session_exists sid (chat_sessions w) = true).
  { apply session_exists_in. exists s. split; [exact Hs | congruence]. }
  congruence.
Qed.



(** ** The embedding provider *)

(** C7: the single-text operation sends exactly one request, for that text
    and tagged RETRIEVAL_QUERY; the batch operation sends exactly one
    request, for that list and tagged RETRIEVAL_DOCUMENT; both name the same
    model and their tags differ, whatever the inputs (also for a one-element
    batch of the same text).  The result of each operation is read off the
    provider's answer to that very request. *)
Theorem embedding_modes_are_distinct
    (env : Env) (text : string) (texts : list string) (w : World) :
  exists query_request document_request,
    calls (snd (generate_embedding env text w))
      = calls w ++ [CallEmbedContent query_request] /\
    er_contents query_request = SingleText text /\
    er_task_type query_request = "RETRIEVAL_QUERY" /\
    fst (generate_embedding env text w)
      = match embed_content env query_request with
        | Ok (embedding :: _) => Ok embedding
        | Ok [] => Err IndexError
        | Err e => Err e
        end /\
    calls (snd (generate_embeddings_batch env texts w))
      = calls w ++ [CallEmbedContent document_request] /\
    er_contents document_request = TextList texts /\
    er_task_type document_request = "RETRIEVAL_DOCUMENT" /\
    fst (generate_embeddings_batch env texts w)
      = embed_content env document_request /\
    er_model query_request = er_model document_request /\
    er_task_type query_request <> er_task_type document_request.
Proof.
  eexists. eexists.
  unfold generate_embedding, generate_embeddings_batch, bind, log_call, lift, ret, raise.
  cbn.
  split.
  { destruct (embed_content env _) as [[| e l] | e]; reflexivity. }
  split; [reflexivity |]. split; [reflexivity |].
  split.
  { destruct (embed_content env _) as [[| e l] | e]; reflexivity. }
  split.
  { destruct (embed_content env _) as [l | e]; reflexivity. }
  split; [reflexivity |]. split; [reflexivity |].
  split.
  { destruct (embed_content env _) as [l | e]; reflexivity. }
  split; [reflexivity | discriminate].
Qed.

(** ** The vector index *)

Lemma unique_key_filter {A : Type} (f : A -> string) (k : string) (l : list A) :
  NoDup (map f l) -> In k (map f l) ->
  exists x, filter (fun y => f y =? k) l = [x].
Proof.
  induction l as [| x t IH]; simpl; intros Hnd Hin; [contradiction |].
  inversion Hnd as [| ? ? Hnot Hnd']; subst.
  destruct (f x =? k) eqn:E.
  - apply String.eqb_eq in E. subst k. exists x. f_equal.
    apply filter_none. intros y Hy. apply String.eqb_neq. intros Heq.
    apply Hnot. rewrite <- Heq. now apply in_map.
  - apply String.eqb_neq in E. destruct Hin as [H | H]; [contradiction |].
    now apply IH.
Qed.

(** C10: whenever the index answers, [search] succeeds and returns one
    chunk per point, in order, each field being the payload's value or, when
    the payload lacks the key, its default (title "Untitled", empty file path
    and text, chunk index 0, total chunks 1), with the point's score.  If
    some point lacks a file path, step 7 yields exactly one source with the
    empty file path, however many such points there are. *)
Theorem search_fills_missing_payload_fields
    (env : Env) (query_embedding : list Q) (top_k : Z) (score_threshold : Q)
    (w : World) (points : list ScoredPoint) :
  qdrant_search env
    {| sr_collection_name := qdrant_collection_name (settings env);
       sr_query_vector := query_embedding;
       sr_limit := top_k;
       sr_score_threshold := score_threshold |} = Ok points ->
  exists chunks w',
    vector_store_search env query_embedding top_k score_threshold w
      = (Ok chunks, w') /\
    Forall2
      (fun p c =>
         title c = match p_title (sp_payload p) with
                   | Some v => v | None => "Untitled" end /\
         file_path c = match p_file_path (sp_payload p) with
                       | Some v => v | None => "" end /\
         chunk_text c = match p_chunk_text (sp_payload p) with
                        | Some v => v | None => "" end /\
         chunk_index c = match p_chunk_index (sp_payload p) with
                         | Some v => v | None => 0%Z end /\
         total_chunks c = match p_total_chunks (sp_payload p) with
                          | Some v => v | None => 1%Z end /\
         relevance_score c = sp_score p)
      points chunks /\
    (forall sources,
        format_sources chunks = Ok sources ->
        (exists p, In p points /\ p_file_path (sp_payload p) = None) ->
        exists s, filter (fun x => src_file_path x =? "") sources = [s]).
Proof.
  intros Hsearch.
  exists (map chunk_of_point points). eexists.
  split; [| split].
  - unfold vector_store_search, bind, log_call, lift, ret. cbn.
    rewrite Hsearch. reflexivity.
  - clear Hsearch. induction points as [| p t IH]; simpl; constructor.
    + repeat split.
    + exact IH.
  - intros sources Hfmt (p & Hp & Hnone).
    apply format_sources_ok in Hfmt. destruct Hfmt as (Hnd & Hcov & _).
    apply unique_key_filter; [exact Hnd |].
    apply Hcov. apply in_map_iff. exists (chunk_of_point p).
    split; [| now apply in_map].
    unfold chunk_of_point. simpl. now rewrite Hnone.
Qed.

Lemma search_fills_missing_fields_witness :
  qdrant_search bare_env
    {| sr_collection_name := qdrant_collection_name (settings bare_env);
       sr_query_vector := [1 # 2];
       sr_limit := 5;
       sr_score_threshold := 6 # 10 |} = Ok bare_points /\
  format_sources (map chunk_of_point bare_points) = Ok bare_sources /\
  exists s, filter (fun x => src_file_path x =? "") bare_sources = [s].
Proof.
  split; [reflexivity |].
  split; [vm_compute; reflexivity |].
  destruct (search_fills_missing_payload_fields bare_env [1 # 2] 5 (6 # 10)
              (empty_world declared_constraints) bare_points eq_refl)
    as (chunks & w' & Hrun & _ & Hcollapse).
  vm_compute in Hrun. injection Hrun as <- _.
  apply Hcollapse.
  - vm_compute. reflexivity.
  - exists (bare_point (7 # 10)). split; [now left | reflexivity].
Defined.

(** ** Validation of a message *)

Lemma invalid_role (role : string) :
  role <> "user" -> role <> "assistant" -> valid_role role = false.
Proof.
  intros H1 H2. unfold valid_role.
  apply String.eqb_neq in H1, H2. now rewrite H1, H2.
Qed.

Lemma invalid_content_length (content : string) :
  (len content < 1)%Z \/ (10000 < len content)%Z ->
  valid_content_length content = false.
Proof.
  intros H. unfold valid_content_length. apply andb_false_iff.
  rewrite Z.leb_gt, Z.leb_gt. exact H.
Qed.

(** The row reaches the INSERT unchecked; there the CHECK constraints of
    the table, when it has them, reject it. *)
Lemma insert_message_rejects (row : ChatMessageModel) (w : World) :
  chk_valid_role (db_constraints w) = true ->
  chk_content_length (db_constraints w) = true ->
  valid_role (m_role row) = false \/ valid_content_length (m_content row) = false ->
  exists e,
    insert_message row w = (Err e, w) /\
    (e = DataError \/ e = IntegrityError "chk_content_length"
     \/ e = IntegrityError "chk_valid_role").
Proof.
  intros Hrole Hlen Hbad.
  unfold insert_message, bind, get_world, raise.
  destruct (stored_row row) as [stored |] eqn:Hst; [| eauto].
  apply stored_row_fields in Hst. destruct Hst as (_ & _ & Hr & Hc & _).
  rewrite Hrole, Hlen, Hc, (varchar_valid_role _ _ Hr). cbn [andb].
  destruct (valid_content_length (m_content row)); cbn [negb]; [| eauto].
  destruct (valid_role (m_role row)); cbn [negb]; [| eauto 6].
  destruct Hbad; discriminate.
Qed.

(** C3 (as the code has it): [save_message] does no validation of its
    own.  On a table that carries the declared CHECK constraints, a role
    other than user or assistant, or a content length outside 1..10000, makes
    the INSERT fail: the call raises the database's error (IntegrityError
    naming the violated constraint, DataError for a value a column type
    refuses, such as a role that does not fit VARCHAR(20) or a text with
    U+0000, OperationalError when the database is unreachable), never a
    ValidationError, and the message table is unchanged. *)
Theorem invalid_message_rejected_by_database_checks
    (env : Env) (session_id : UUID) (role content : string)
    (selected_text : option string) (context_used : option json) (w : World) :
  chk_valid_role (db_constraints w) = true ->
  chk_content_length (db_constraints w) = true ->
  (role <> "user" /\ role <> "assistant")
  \/ (len content < 1)%Z \/ (10000 < len content)%Z ->
  exists e w',
    save_message env session_id role content selected_text context_used w
      = (Err e, w') /\
    (e = OperationalError \/ e = DataError
     \/ e = IntegrityError "chk_content_length"
     \/ e = IntegrityError "chk_valid_role") /\
    e <> ValidationError /\
    chat_messages w' = chat_messages w.
Proof.
  intros Hrole Hlen Hbad.
  assert (Hbad' : valid_role role = false \/ valid_content_length content = false).
  { destruct Hbad as [[H1 H2] | H]; [left; now apply invalid_role |
                                     right; now apply invalid_content_length]. }
  unfold save_message, db_connect.
  unfold bind at 1 2. unfold next_tick at 1.
  destruct (db_down env (tick w)).
  { cbn. eexists. eexists. split; [reflexivity |].
    split; [now left |]. split; [discriminate | reflexivity]. }
  unfold ret at 1. unfold bind at 1. unfold next_tick at 1.
  unfold bind at 1. unfold next_tick at 1.
  unfold bind at 1.
  match goal with
  | |- context [insert_message ?row ?w0] =>
      destruct (insert_message_rejects row w0 Hrole Hlen Hbad') as (e & He & Hkind);
      rewrite He
  end.
  exists e. eexists. split; [reflexivity |].
  split; [tauto |]. split; [| reflexivity].
  destruct Hkind as [-> | [-> | ->]]; discriminate.
Qed.

Lemma invalid_message_rejected_witness :
  fst (save_message ros2_env "s1" "system" "hello" None None
         (one_session_world declared_constraints))
    = Err (IntegrityError "chk_valid_role") /\
  chat_messages
    (snd (save_message ros2_env "s1" "system" "hello" None None
            (one_session_world declared_constraints))) = [].
Proof.
  destruct (invalid_message_rejected_by_database_checks
              ros2_env "s1" "system" "hello" None None
              (one_session_world declared_constraints) eq_refl eq_refl)
    as (e & w' & Hrun & _ & _ & Hrows).
  - left. split; discriminate.
  - split.
    + vm_compute. reflexivity.
    + rewrite Hrun. exact Hrows.
Defined.

(** C3, as stated, fails: the rejection is the database's and not a
    validation in the write path.  With the CHECK constraints the calls fail
    with IntegrityError, not ValidationError; on a table without them the
    same calls write the row, for a bad role as for a content of 10001
    characters. *)
Lemma save_message_relies_on_database_checks :
  fst (save_message ros2_env "s1" "system" "hello" None None
         (one_session_world declared_constraints))
    = Err (IntegrityError "chk_valid_role") /\
  fst (save_message ros2_env "s1" "user" long_content None None
         (one_session_world declared_constraints))
    = Err (IntegrityError "chk_content_length") /\
  fst (save_message ros2_env "s1" "system" "hello" None None
         (one_session_world unchecked_constraints)) = Ok "id-1" /\
  map (fun m => (m_role m, m_content m))
      (chat_messages
         (snd (save_message ros2_env "s1" "system" "hello" None None
                 (one_session_world unchecked_constraints))))
    = [ ("system", "hello") ] /\
  fst (save_message ros2_env "s1" "user" long_content None None
         (one_session_world unchecked_constraints)) = Ok "id-1" /\
  map (fun m => len (m_content m))
      (chat_messages
         (snd (save_message ros2_env "s1" "user" long_content None None
                 (one_session_world unchecked_constraints))))
    = [ 10001%Z ].
Proof.
  repeat split; vm_compute; reflexivity.
Qed.

(** ** The conversation window of the Answer Generator *)

Lemma _build_conversation_history_shape env history query selected_text :
  _build_conversation_history env history query selected_text
    = map content_of_message
        (slice_from (- max_conversation_context (settings env)) history)
      ++ [current_turn query selected_text].
Proof.
  unfold _build_conversation_history, current_turn.
  destruct selected_text as [[| a rest] |]; reflexivity.
Qed.

(** With a window of at least one message the prior turns are the most
    recent ones, unmodified, followed by the current query. *)
Lemma positive_window_keeps_most_recent env history query selected_text :
  (0 < max_conversation_context (settings env))%Z ->
  _build_conversation_history env history query selected_text
    = map content_of_message
        (last_n (Z.to_nat (max_conversation_context (settings env))) history)
      ++ [current_turn query selected_text].
Proof.
  intros Hpos. rewrite _build_conversation_history_shape.
  unfold slice_from, last_n.
  destruct (- max_conversation_context (settings env) <? 0)%Z eqn:E;
    [| apply Z.ltb_ge in E; lia].
  do 3 f_equal. lia.
Qed.

(** C6 at [max_conversation_context = 0]: the slice [history[-0:]] is the
    whole history, so both earlier turns are sent, where the most recent 0
    messages are none; with the default window of 6 (or any window of at
    least 1) the same call keeps the most recent ones only. *)
Lemma zero_window_sends_whole_history :
  _build_conversation_history no_window_env earlier_turns "And ROS1?" None
    = [ {| c_role := "user"; c_parts := ["What is ROS2?"] |};
        {| c_role := "assistant"; c_parts := ["A middleware."] |};
        {| c_role := "user"; c_parts := ["And ROS1?"] |} ] /\
  last_n (Z.to_nat (max_conversation_context (settings no_window_env))) earlier_turns
    = [] /\
  _build_conversation_history
      (stub_env (windowed_settings 1) (Ok ros2_points) (Ok (Some "answer")))
      earlier_turns "And ROS1?" None
    = [ {| c_role := "assistant"; c_parts := ["A middleware."] |};
        {| c_role := "user"; c_parts := ["And ROS1?"] |} ].
Proof. repeat split. Qed.

(** * Further properties of the code *)

(** ** Saving and reading back *)

Lemma save_message_unfold env sid role content sel ctx w :
  save_message env sid role content sel ctx w =
  if db_down env (tick w) then (Err OperationalError, tick_world w)
  else
    match insert_message (message_row env w sid role content sel ctx) (ticks 3 w) with
    | (Ok _, w') => (Ok (uuid4 env (S (tick w))), w')
    | (Err e, w') => (Err e, w')
    end.
Proof.
  unfold save_message, db_connect, bind, next_tick, ret, raise, message_row, ticks.
  cbn -[insert_message].
  destruct (db_down env (tick w)); reflexivity.
Qed.

Lemma insert_message_ok_inv (row : ChatMessageModel) (w w' : World) :
  insert_message row w = (Ok tt, w') ->
  exists stored,
    stored_row row = Some stored /\
    w' = {| chat_sessions := chat_sessions w;
            chat_messages := chat_messages w ++ [stored];
            db_constraints := db_constraints w;
            tick := tick w;
            calls := calls w |} /\
    (chk_content_length (db_constraints w) = true ->
     valid_content_length (m_content stored) = true) /\
    (chk_valid_role (db_constraints w) = true -> valid_role (m_role stored) = true) /\
    message_exists (m_message_id stored) (chat_messages w) = false /\
    (fk_message_session (db_constraints w) = true ->
     session_exists (m_session_id stored) (chat_sessions w) = true).
Proof.
  unfold insert_message, bind, get_world, raise, put_messages.
  destruct (stored_row row) as [stored |]; [| discriminate].
  destruct (chk_content_length (db_constraints w)
            && negb (valid_content_length (m_content stored))) eqn:E1; [discriminate |].
  destruct (chk_valid_role (db_constraints w) && negb (valid_role (m_role stored))) eqn:E2;
    [discriminate |].
  destruct (message_exists (m_message_id stored) (chat_messages w)) eqn:E3;
    [discriminate |].
  destruct (fk_message_session (db_constraints w)
            && negb (session_exists (m_session_id stored) (chat_sessions w))) eqn:E4;
    [discriminate |].
  intros H. injection H as <-. exists stored.
  split; [reflexivity |]. split; [reflexivity |].
  split; [| split; [| split; [exact E3 |]]].
  - intros Hc. rewrite Hc in E1. cbn in E1. now apply negb_false_iff in E1.
  - intros Hc. rewrite Hc in E2. cbn in E2. now apply negb_false_iff in E2.
  - intros Hc. rewrite Hc in E4. cbn in E4. now apply negb_false_iff in E4.
Qed.

Lemma insert_message_ok_intro (row stored : ChatMessageModel) (w : World) :
  stored_row row = Some stored ->
  valid_content_length (m_content stored) = true ->
  valid_role (m_role stored) = true ->
  message_exists (m_message_id stored) (chat_messages w) = false ->
  session_exists (m_session_id stored) (chat_sessions w) = true ->
  insert_message row w
    = (Ok tt, {| chat_sessions := chat_sessions w;
                 chat_messages := chat_messages w ++ [stored];
                 db_constraints := db_constraints w;
                 tick := tick w;
                 calls := calls w |}).
Proof.
  intros Hst H1 H2 H3 H4.
  unfold insert_message, bind, get_world, raise, put_messages.
  rewrite Hst, H1, H2, H3, H4. cbn [negb]. rewrite !andb_false_r. reflexivity.
Qed.

Lemma stored_row_nul_free (row stored : ChatMessageModel) :
  stored_row row = Some stored ->
  has_nul (m_role row) = false /\
  has_nul (m_content row) = false /\
  option_has_nul (m_selected_text row) = false /\
  option_json_has_nul (m_context_used row) = false.
Proof.
  unfold stored_row.
  destruct (has_nul (m_role row)); [discriminate |].
  destruct (has_nul (m_content row)); [discriminate |].
  destruct (option_has_nul (m_selected_text row)); [discriminate |].
  destruct (option_json_has_nul (m_context_used row)); [discriminate |].
  auto.
Qed.

Lemma stored_row_accepted (row : ChatMessageModel) :
  valid_role (m_role row) = true ->
  has_nul (m_content row) = false ->
  option_has_nul (m_selected_text row) = false ->
  option_json_has_nul (m_context_used row) = false ->
  stored_row row
    = Some {| m_message_id := m_message_id row;
              m_session_id := m_session_id row;
              m_role := m_role row;
              m_content := m_content row;
              m_selected_text := m_selected_text row;
              m_context_used := option_map jsonb (m_context_used row);
              m_created_at := m_created_at row |}.
Proof.
  intros Hrole Hc Hs Hj. unfold stored_row.
  destruct (valid_role_stored _ Hrole) as (Hv & Hn).
  now rewrite Hn, Hc, Hs, Hj, Hv.
Qed.

Lemma valid_role_iff (role : string) :
  valid_role role = true <-> role = "user" \/ role = "assistant".
Proof.
  unfold valid_role. rewrite orb_true_iff, !String.eqb_eq. tauto.
Qed.

Lemma valid_content_length_iff (content : string) :
  valid_content_length content = true <-> (1 <= len content <= 10000)%Z.
Proof.
  unfold valid_content_length. rewrite andb_true_iff, !Z.leb_le. tauto.
Qed.

Lemma str_prefix_all (n : nat) (s : string) :
  (String.length s <= n)%nat -> str_prefix n s = s.
Proof.
  unfold str_prefix. revert n. induction s as [| c s IH]; intros n H.
  - now destruct n.
  - destruct n as [| n]; cbn in H; [lia |]. cbn. rewrite IH by lia. reflexivity.
Qed.

Lemma varchar_prefix (n : nat) (s r : string) :
  varchar n s = Some r -> r = str_prefix n s.
Proof.
  unfold varchar. destruct (Nat.leb_spec (String.length s) n) as [Hle | Hgt].
  - intros H. injection H as <-. symmetry. now apply str_prefix_all.
  - destruct (all_spaces _); [| discriminate]. intros H. now injection H as <-.
Qed.

Lemma payload_read_back_jsonb (written : option json) :
  payload_read_back written (option_map jsonb written).
Proof. destruct written as [j |]; cbn; eauto. Qed.

(** What a successful save did, in terms of the row the table now holds. *)
Lemma save_message_ok_row env sid role content sel ctx w mid w1 :
  save_message env sid role content sel ctx w = (Ok mid, w1) ->
  exists stored,
    stored_row (message_row env w sid role content sel ctx) = Some stored /\
    db_down env (tick w) = false /\
    mid = uuid4 env (S (tick w)) /\
    w1 = {| chat_sessions := chat_sessions w;
            chat_messages := chat_messages w ++ [stored];
            db_constraints := db_constraints w;
            tick := 3 + tick w;
            calls := calls w |} /\
    (chk_content_length (db_constraints w) = true ->
     valid_content_length content = true) /\
    (chk_valid_role (db_constraints w) = true -> valid_role role = true) /\
    message_exists mid (chat_messages w) = false /\
    (fk_message_session (db_constraints w) = true ->
     session_exists sid (chat_sessions w) = true).
Proof.
  rewrite save_message_unfold.
  destruct (db_down env (tick w)); [discriminate |].
  destruct (insert_message _ (ticks 3 w)) as [[[] | e] w'] eqn:E; [| discriminate].
  intros H. injection H as <- <-.
  apply insert_message_ok_inv in E.
  destruct E as (stored & Hst & Hw & Hlen & Hrole & Hfresh & Hfk).
  pose proof (stored_row_fields _ _ Hst) as (Hid & Hsid & Hr & Hc & _).
  cbn [message_row m_message_id m_session_id m_role m_content] in Hid, Hsid, Hr, Hc.
  rewrite Hid in Hfresh. rewrite Hsid in Hfk. rewrite Hc in Hlen.
  rewrite (varchar_valid_role _ _ Hr) in Hrole.
  exists stored. repeat split; assumption.
Qed.

(** X1: what a successful [save_message] needs and does, on tables that
    carry the declared constraints.  It succeeds only if the database is
    reachable, the role is user or assistant, the content has 1 to 10000
    characters, neither the content nor the selected text nor the payload
    contains U+0000, the session exists and the drawn message id is not
    taken.  It then returns the drawn id and appends exactly one row: that
    id, the session, the role, the content and the selected text as passed,
    and the payload as [jsonb] holds it; sessions and provider calls are
    untouched.  For the payloads the pipeline writes (none, or the retrieval
    summary) the conditions are also sufficient. *)
Theorem save_message_success_conditions
    (env : Env) (session_id : UUID) (role content : string)
    (selected_text : option string) (context_used : option json) (w : World) :
  chk_valid_role (db_constraints w) = true ->
  chk_content_length (db_constraints w) = true ->
  fk_message_session (db_constraints w) = true ->
  let accepted :=
    db_down env (tick w) = false /\
    (role = "user" \/ role = "assistant") /\
    (1 <= len content <= 10000)%Z /\
    has_nul content = false /\
    option_has_nul selected_text = false /\
    option_json_has_nul context_used = false /\
    session_exists session_id (chat_sessions w) = true /\
    message_exists (uuid4 env (S (tick w))) (chat_messages w) = false in
  (forall mid w',
      save_message env session_id role content selected_text context_used w
        = (Ok mid, w') ->
      accepted /\
      mid = uuid4 env (S (tick w)) /\
      (exists payload,
         chat_messages w' =
           chat_messages w ++
           [ {| m_message_id := mid; m_session_id := session_id;
                m_role := role; m_content := content;
                m_selected_text := selected_text;
                m_context_used := payload;
                m_created_at := utcnow env (S (S (tick w))) |} ] /\
         payload_read_back context_used payload) /\
      chat_sessions w' = chat_sessions w /\
      calls w' = calls w) /\
  (context_used = None
   \/ (exists chunks, context_used = Some (context_metadata chunks)) ->
   accepted ->
   exists mid w',
     save_message env session_id role content selected_text context_used w
       = (Ok mid, w')).
Proof.
  intros Hrole Hlen Hfk accepted. unfold accepted. split.
  - intros mid w' Hsave.
    apply save_message_ok_row in Hsave.
    destruct Hsave as (stored & Hst & Hup & Hmid & Hw & Hc & Hr & Hfresh & Hs).
    specialize (Hc Hlen). specialize (Hr Hrole). specialize (Hs Hfk).
    pose proof (stored_row_nul_free _ _ Hst) as (_ & Hn1 & Hn2 & Hn3).
    cbn [message_row m_content m_selected_text m_context_used] in Hn1, Hn2, Hn3.
    rewrite (stored_row_accepted (message_row env w session_id role content
                                    selected_text context_used)) in Hst
      by assumption.
    injection Hst as <-. subst w' mid.
    apply valid_role_iff in Hr. apply valid_content_length_iff in Hc.
    split; [repeat split; solve [assumption | apply Hc] |].
    split; [reflexivity |].
    split; [| split; reflexivity].
    exists (option_map jsonb context_used).
    split; [reflexivity | apply payload_read_back_jsonb].
  - intros _ (Hup & Hr & Hc & Hn1 & Hn2 & Hn3 & Hs & Hfresh).
    apply valid_role_iff in Hr. apply valid_content_length_iff in Hc.
    rewrite save_message_unfold, Hup.
    erewrite insert_message_ok_intro;
      [ eexists; eexists; reflexivity
      | apply stored_row_accepted; assumption
      | exact Hc | exact Hr | exact Hfresh | exact Hs ].
Qed.

Lemma save_message_succeeds_witness :
  (exists mid w',
      save_message ros2_env "s1" "user" "hello" None None
        (one_session_world declared_constraints) = (Ok mid, w')) /\
  ~ (exists mid w',
      save_message ros2_env "s9" "user" "hello" None None
        (one_session_world declared_constraints) = (Ok mid, w')) /\
  ~ (exists mid w',
      save_message ros2_env "s1" "user" nul_content None None
        (one_session_world declared_constraints) = (Ok mid, w')).
Proof.
  destruct (save_message_success_conditions ros2_env "s1" "user" "hello" None None
              (one_session_world declared_constraints) eq_refl eq_refl eq_refl)
    as (_ & H1).
  destruct (save_message_success_conditions ros2_env "s9" "user" "hello" None None
              (one_session_world declared_constraints) eq_refl eq_refl eq_refl)
    as (H9 & _).
  destruct (save_message_success_conditions ros2_env "s1" "user" nul_content None None
              (one_session_world declared_constraints) eq_refl eq_refl eq_refl)
    as (H0 & _).
  split; [| split].
  - apply H1; [now left |].
    repeat split; try reflexivity; [now left | discriminate | discriminate].
  - intros (mid & w' & H). apply H9 in H.
    destruct H as ((_ & _ & _ & _ & _ & _ & H & _) & _). discriminate.
  - intros (mid & w' & H). apply H0 in H.
    destruct H as ((_ & _ & _ & H & _) & _). discriminate.
Defined.

Lemma sort_by_length {A : Type} (before : A -> A -> bool) (l : list A) :
  List.length (sort_by before l) = List.length l.
Proof. symmetry. apply Permutation_length, sort_by_perm. Qed.

Lemma filter_perm {A : Type} (f : A -> bool) (l1 l2 : list A) :
  Permutation l1 l2 -> Permutation (filter f l1) (filter f l2).
Proof.
  induction 1 as [| x l1 l2 _ IH | x y l | l1 l2 l3 _ IH1 _ IH2]; cbn.
  - constructor.
  - destruct (f x); [now constructor | assumption].
  - destruct (f x), (f y); try apply Permutation_refl. apply perm_swap.
  - eapply perm_trans; eassumption.
Qed.

Lemma filter_history_entries env (mid : UUID) (l : list ChatMessageModel) :
  filter (fun e => h_message_id e =? mid) (map (history_entry env) l)
    = map (history_entry env) (filter (fun m => m_message_id m =? mid) l).
Proof.
  induction l as [| x t IH]; cbn; [reflexivity |].
  destruct (m_message_id x =? mid); cbn; now rewrite IH.
Qed.

(** X2: a message that was saved is read back: the history of its
    session, read right after the save with the database reachable, has one
    entry more than the session had rows, and exactly one entry with the
    returned id.  That entry carries the content and the selected text as
    they were passed and the role as the [String(20)] column holds it (the
    role itself, cut to 20 characters when it was longer); its payload is
    absent when none was passed, and otherwise a payload, which for one
    without floating-point numbers is the passed one with its keys in the
    order of [jsonb]. *)
Theorem saved_message_is_read_back
    (env : Env) (session_id : UUID) (role content : string)
    (selected_text : option string) (context_used : option json)
    (w : World) (mid : UUID) (w1 : World) :
  save_message env session_id role content selected_text context_used w = (Ok mid, w1) ->
  db_down env (tick w1) = false ->
  exists entries w2 entry,
    get_conversation_history env session_id w1 = (Ok entries, w2) /\
    List.length entries
      = S (List.length (filter (fun m => m_session_id m =? session_id)
                               (chat_messages w))) /\
    filter (fun e => h_message_id e =? mid) entries = [entry] /\
    h_message_id entry = mid /\
    h_role entry = str_prefix 20 role /\
    h_content entry = content /\
    h_selected_text entry = selected_text /\
    payload_read_back context_used (h_context_used entry).
Proof.
  intros Hsave Hup.
  destruct (save_message_ok_row _ _ _ _ _ _ _ _ _ Hsave)
    as (row & Hst & _ & Hmid & Hw1 & _ & _ & Hfresh & _).
  pose proof (stored_row_fields _ _ Hst) as (Hid & Hsid & Hr & Hc & Hsel & Hctx & _).
  cbn [message_row m_message_id m_session_id m_role m_content m_selected_text
       m_context_used] in Hid, Hsid, Hr, Hc, Hsel, Hctx.
  rewrite (get_conversation_history_up env session_id w1 Hup).
  exists (map (history_entry env)
            (select_messages session_id (chat_messages w1))).
  eexists. exists (history_entry env row).
  split; [reflexivity |].
  assert (Hrows : chat_messages w1 = chat_messages w ++ [row]) by (rewrite Hw1; reflexivity).
  rewrite Hrows. unfold select_messages.
  rewrite filter_app. cbn [filter]. rewrite Hsid, String.eqb_refl.
  split; [rewrite length_map, sort_by_length, length_app; cbn; lia |].
  split.
  - set (old := filter (fun m => m_session_id m =? session_id) (chat_messages w)).
    assert (Hold : forall m, In m old -> (m_message_id m =? mid) = false).
    { intros m Hm. unfold old in Hm. apply filter_In in Hm. destruct Hm as (Hm & _).
      unfold message_exists in Hfresh.
      destruct (m_message_id m =? mid) eqn:E; [| reflexivity].
      assert (existsb (fun m0 => m_message_id m0 =? mid) (chat_messages w) = true)
        by (apply existsb_exists; eauto).
      congruence. }
    assert (Hrowid : m_message_id row = mid) by (rewrite Hid, Hmid; reflexivity).
    rewrite filter_history_entries.
    assert (Hone : forall l, Permutation l (old ++ [row]) ->
                             filter (fun m => m_message_id m =? mid) l = [row]).
    { intros l Hperm.
      pose proof (filter_perm (fun m => m_message_id m =? mid) _ _ Hperm) as Hcount.
      rewrite filter_app in Hcount. cbn [filter] in Hcount.
      rewrite Hrowid, String.eqb_refl in Hcount.
      rewrite (filter_none _ old Hold) in Hcount. cbn in Hcount.
      apply Permutation_sym, Permutation_length_1_inv in Hcount. exact Hcount. }
    rewrite (Hone _ (Permutation_sym (sort_by_perm created_before (old ++ [row])))).
    reflexivity.
  - unfold history_entry. cbn.
    split; [rewrite Hid, Hmid; reflexivity |].
    split; [now apply varchar_prefix |].
    split; [exact Hc |]. split; [exact Hsel |].
    rewrite Hctx. apply payload_read_back_jsonb.
Qed.

Lemma saved_message_is_read_back_witness :
  exists entries,
    fst (get_conversation_history ros2_env "s1"
           (snd (save_message ros2_env "s1" padded_role "hello" (Some "sel")
                   (Some unordered_payload)
                   (one_session_world unchecked_constraints)))) = Ok entries /\
    map (fun e => (h_role e, h_content e, h_selected_text e, h_context_used e)) entries
      = [ ("user                ", "hello", Some "sel",
           Some (JObj [ ("a", JList [JObj [ ("y", JBool true); ("zz", JNull) ]]);
                        ("bb", JInt 1) ])) ].
Proof.
  destruct (saved_message_is_read_back ros2_env "s1" padded_role "hello" (Some "sel")
              (Some unordered_payload)
              (one_session_world unchecked_constraints) "id-1"
              (snd (save_message ros2_env "s1" padded_role "hello" (Some "sel")
                      (Some unordered_payload)
                      (one_session_world unchecked_constraints)))
              eq_refl eq_refl)
    as (entries & w2 & entry & Hread & Hlen & Hone & _ & Hrole & Hc & Hsel & Hctx).
  exists entries. split; [now rewrite Hread |].
  destruct entries as [| e [| e' rest]]; try discriminate.
  cbn in Hone. destruct (h_message_id e =? "id-1"); [| discriminate].
  injection Hone as ->. cbn [map].
  destruct Hctx as (j' & Hj & Hkeys).
  rewrite Hrole, Hc, Hsel, Hj, (Hkeys eq_refl). reflexivity.
Defined.

(** ** The pipeline, step by step *)

Lemma retrieval_steps_inv env query session_id w sid history chunks w1 :
  retrieval_steps env query session_id w = (Ok (sid, history, chunks), w1) ->
  exists w0 embedding others points,
    match session_id with
    | Some s => s = sid /\ w0 = w
    | None => create_session env w = (Ok sid, w0)
    end /\
    db_down env (tick w0) = false /\
    history = map (history_entry env) (select_messages sid (chat_messages w0)) /\
    embed_content env (query_embedding_request env query) = Ok (embedding :: others) /\
    qdrant_search env (query_search_request env embedding) = Ok points /\
    chunks = map chunk_of_point points /\
    w1 = after_calls w0 1
           [ CallEmbedContent (query_embedding_request env query);
             CallQdrantSearch (query_search_request env embedding) ].
Proof.
  unfold retrieval_steps. intros H.
  apply bind_ok in H. destruct H as (sid0 & w0 & Hsid & H).
  apply bind_ok in H. destruct H as (h & w2 & Hh & H).
  apply bind_ok in H. destruct H as (emb & w3 & He & H).
  apply bind_ok in H. destruct H as (cs & w4 & Hs & H).
  unfold ret in H. inversion H; subst. clear H.
  destruct (db_down env (tick w0)) eqn:Hup;
    [rewrite (get_conversation_history_down _ _ _ Hup) in Hh; discriminate |].
  rewrite (get_conversation_history_up _ _ _ Hup) in Hh. inversion Hh; subst. clear Hh.
  unfold generate_embedding, bind, log_call, lift, ret, raise in He. cbn in He.
  fold (query_embedding_request env query) in He.
  destruct (embed_content env (query_embedding_request env query))
    as [[| e others] | err] eqn:Hemb; try discriminate.
  inversion He; subst. clear He.
  unfold vector_store_search, bind, log_call, lift, ret in Hs. cbn in Hs.
  fold (query_search_request env emb) in Hs.
  destruct (qdrant_search env (query_search_request env emb)) as [pts | err] eqn:Hq;
    try discriminate.
  inversion Hs; subst. clear Hs.
  exists w0, emb, others, pts.
  split.
  { destruct session_id as [s |]; [| exact Hsid].
    unfold ret in Hsid. inversion Hsid. auto. }
  repeat split; try assumption.
  unfold after_calls, tick_world. cbn. rewrite <- app_assoc. reflexivity.
Qed.

Lemma generate_response_unfold env query chunks history selected_text w :
  generate_response env query chunks history selected_text w =
  let request := generation_request env query chunks history selected_text in
  match generate_content env request with
  | Ok (Some answer) => (Ok answer, after_calls w 0 [CallGenerateContent request])
  | Ok None => (Err TypeError, after_calls w 0 [CallGenerateContent request])
  | Err e => (Err e, after_calls w 0 [CallGenerateContent request])
  end.
Proof.
  unfold generate_response, generation_request, bind, log_call, lift, ret, raise,
    after_calls.
  cbv zeta.
  destruct (generate_content env _) as [[answer |] | e]; reflexivity.
Qed.

Lemma answer_steps_inv env query selected_text history c rest w response sources w' :
  answer_steps env query selected_text history (c :: rest) w
    = (Ok (response, sources), w') ->
  generate_content env (generation_request env query (c :: rest) history selected_text)
    = Ok (Some response) /\
  format_sources (c :: rest) = Ok sources /\
  w' = after_calls w 0
         [ CallGenerateContent
             (generation_request env query (c :: rest) history selected_text) ].
Proof.
  unfold answer_steps. intros H.
  apply bind_ok in H. destruct H as (resp & w1 & Hg & H).
  apply bind_ok in H. destruct H as (srcs & w2 & Hf & H).
  unfold lift in Hf. unfold ret in H. inversion Hf; subst. inversion H; subst.
  clear H Hf.
  rewrite generate_response_unfold in Hg. cbv zeta in Hg.
  destruct (generate_content env
              (generation_request env query (c :: rest) history selected_text))
    as [[answer |] | err]; try discriminate.
  inversion Hg; subst. repeat split. assumption.
Qed.

(** X3: the provider calls of a successful query, in order: one embedding
    request for the query text in query mode, then one search with the
    returned vector and the configured top-k and threshold, then (only when
    the search returned points) one generation request whose prior turns are
    built from the session's history as it was before this turn's writes and
    whose system instruction is built from all retrieved chunks; the answer
    is the text of that generation. *)
Theorem successful_query_call_sequence
    (env : Env) (query : string) (session_id : option UUID)
    (selected_text : option string) (w : World)
    (response : string) (sources : list Source) (sid : UUID) (w' : World) :
  process_query env query session_id selected_text w
    = (Ok (response, sources, sid), w') ->
  exists embedding others points,
    let history :=
      map (history_entry env) (select_messages sid (chat_messages w)) in
    let chunks := map chunk_of_point points in
    let embed_request :=
      {| er_model := gemini_embedding_model (settings env);
         er_contents := SingleText query;
         er_task_type := "RETRIEVAL_QUERY" |} in
    let search_request :=
      {| sr_collection_name := qdrant_collection_name (settings env);
         sr_query_vector := embedding;
         sr_limit := top_k_results (settings env);
         sr_score_threshold := similarity_threshold (settings env) |} in
    let generate_request :=
      {| gr_model := gemini_chat_model (settings env);
         gr_contents := _build_conversation_history env history query selected_text;
         gr_system_instruction := _build_system_prompt chunks;
         gr_temperature := 7 # 10;
         gr_max_output_tokens := 500 |} in
    embed_content env embed_request = Ok (embedding :: others) /\
    qdrant_search env search_request = Ok points /\
    calls w' =
      calls w ++
      [ CallEmbedContent embed_request; CallQdrantSearch search_request ] ++
      match points with
      | [] => []
      | _ :: _ => [ CallGenerateContent generate_request ]
      end /\
    (points <> [] -> generate_content env generate_request = Ok (Some response)).
Proof.
  intros Hrun. apply process_query_ok in Hrun.
  destruct Hrun as (history & chunks & w1 & w2 & m1 & w3 & m2 & Hret & Hans & Hs1 & Hs2).
  apply retrieval_steps_inv in Hret.
  destruct Hret as (w0 & emb & others & pts & Hsid & Hup & Hh & Hemb & Hq & Hc & Hw1).
  assert (Hmsgs : chat_messages w0 = chat_messages w /\ calls w0 = calls w).
  { destruct session_id as [s |].
    - destruct Hsid as (_ & ->). auto.
    - pose proof (create_session_messages env w) as Hm.
      pose proof (create_session_calls env w) as Hcl.
      rewrite Hsid in Hm, Hcl. auto. }
  destruct Hmsgs as (Hm0 & Hc0).
  pose proof (save_message_calls env sid "user" query selected_text None w2) as Hk1.
  pose proof (save_message_calls env sid "assistant" response None
                (Some (context_metadata chunks)) w3) as Hk2.
  rewrite Hs1 in Hk1. rewrite Hs2 in Hk2. cbn in Hk1, Hk2.
  exists emb, others, pts. cbn zeta.
  split; [exact Hemb |]. split; [exact Hq |].
  rewrite <- Hm0, <- Hh, <- Hc.
  destruct pts as [| p pts'].
  - cbn in Hc. subst chunks.
    assert (w2 = w1) by (unfold answer_steps, ret in Hans; now inversion Hans).
    subst w2. split; [| congruence].
    rewrite Hk2, Hk1, Hw1. cbn. rewrite Hc0. reflexivity.
  - cbn [map] in Hc. rewrite Hc in Hans.
    apply answer_steps_inv in Hans. destruct Hans as (Hgen & _ & Hw2).
    rewrite <- Hc in Hgen, Hw2.
    split; [| intros _; exact Hgen].
    rewrite Hk2, Hk1, Hw2, Hw1. cbn. rewrite Hc0, <- app_assoc. reflexivity.
Qed.

Lemma successful_query_call_sequence_witness :
  map (fun c => match c with
                | CallEmbedContent _ => "embed"
                | CallQdrantSearch _ => "search"
                | CallGenerateContent _ => "generate"
                end)
      (calls (snd (process_query ros2_env "What is ROS2?" None None
                     (empty_world declared_constraints))))
    = ["embed"; "search"; "generate"].
Proof.
  destruct (successful_query_call_sequence ros2_env "What is ROS2?" None None
              (empty_world declared_constraints)
              "ROS2 is a robotics middleware." ros2_sources "id-1"
              (snd (process_query ros2_env "What is ROS2?" None None
                      (empty_world declared_constraints))))
    as (emb & others & pts & _ & Hq & Hcalls & _).
  - vm_compute. reflexivity.
  - cbn in Hq. injection Hq as <-. rewrite Hcalls. reflexivity.
Defined.

(** ** What a query does to the store *)

Lemma create_session_outcome env w :
  (exists e w', create_session env w = (Err e, w') /\
                chat_sessions w' = chat_sessions w) \/
  (exists row w', create_session env w = (Ok (s_session_id row), w') /\
                  chat_sessions w' = chat_sessions w ++ [row] /\
                  session_exists (s_session_id row) (chat_sessions w) = false).
Proof.
  unfold create_session, db_connect, insert_session, bind, next_tick, get_world,
    put_sessions, raise, ret.
  cbn -[session_exists].
  destruct (db_down env (tick w)); [left; eauto |].
  cbn -[session_exists].
  destruct (chk_activity_after_creation (db_constraints w) && _); [left; eauto |].
  destruct (session_exists _ (chat_sessions w)) eqn:E; [left; eauto |].
  right. eexists {| s_session_id := _; s_created_at := _; s_last_activity_at := _ |}.
  eexists. split; [reflexivity |]. split; [reflexivity | exact E].
Qed.

Lemma create_session_constraints env : preserves db_constraints (create_session env).
Proof. unfold create_session, db_connect, insert_session. frame. Qed.

Lemma get_conversation_history_constraints env sid :
  preserves db_constraints (get_conversation_history env sid).
Proof. unfold get_conversation_history, db_connect. frame. Qed.

Lemma generate_embedding_constraints env text :
  preserves db_constraints (generate_embedding env text).
Proof. unfold generate_embedding, lift. frame. Qed.

Lemma vector_store_search_constraints env emb k th :
  preserves db_constraints (vector_store_search env emb k th).
Proof. unfold vector_store_search, lift. frame. Qed.

Lemma generate_response_constraints env q chunks hist sel :
  preserves db_constraints (generate_response env q chunks hist sel).
Proof. unfold generate_response, lift. frame. Qed.

Lemma save_message_constraints env sid role content sel ctx :
  preserves db_constraints (save_message env sid role content sel ctx).
Proof. unfold save_message, db_connect, insert_message. frame. Qed.

Lemma retrieval_steps_constraints env query session_id :
  preserves db_constraints (retrieval_steps env query session_id).
Proof.
  unfold retrieval_steps.
  apply preserves_bind.
  { destruct session_id; [intros w; reflexivity | apply create_session_constraints]. }
  intros sid. apply preserves_bind; [apply get_conversation_history_constraints |].
  intros history. apply preserves_bind; [apply generate_embedding_constraints |].
  intros emb. apply preserves_bind; [apply vector_store_search_constraints |].
  intros chunks w. reflexivity.
Qed.

Lemma answer_steps_constraints env query sel history chunks :
  preserves db_constraints (answer_steps env query sel history chunks).
Proof.
  unfold answer_steps. destruct chunks; [intros w; reflexivity |].
  apply preserves_bind; [apply generate_response_constraints |].
  intros response. unfold lift. frame.
Qed.

Lemma answer_steps_sessions env query sel history chunks :
  preserves chat_sessions (answer_steps env query sel history chunks).
Proof.
  unfold answer_steps. destruct chunks; [intros w; reflexivity |].
  apply preserves_bind; [apply generate_response_sessions |].
  intros response. unfold lift. frame.
Qed.

Lemma retrieval_steps_sessions env query session_id w :
  exists added,
    chat_sessions (snd (retrieval_steps env query session_id w))
      = chat_sessions w ++ added /\
    (List.length added <= 1)%nat /\
    (session_id <> None -> added = []).
Proof.
  assert (Hrest : forall sid,
    preserves chat_sessions
      (conversation_history <- get_conversation_history env sid ;;
       query_embedding <- generate_embedding env query ;;
       retrieved_chunks <- vector_store_search env query_embedding
                             (top_k_results (settings env))
                             (similarity_threshold (settings env)) ;;
       ret (sid, conversation_history, retrieved_chunks))).
  { intros sid.
    apply preserves_bind; [apply get_conversation_history_sessions |].
    intros history. apply preserves_bind; [apply generate_embedding_sessions |].
    intros emb. apply preserves_bind; [apply vector_store_search_sessions |].
    intros chunks w0. reflexivity. }
  unfold retrieval_steps. unfold bind at 1.
  destruct session_id as [sid |].
  - unfold ret at 1. exists []. rewrite app_nil_r. split; [apply Hrest | auto].
  - destruct (create_session_outcome env w) as [(e & w' & Hc & Hs) | (row & w' & Hc & Hs & _)];
      rewrite Hc.
    + exists []. rewrite app_nil_r. cbn. split; [exact Hs |]. split; [lia | auto].
    + exists [row]. rewrite Hrest, Hs. split; [reflexivity |].
      split; [cbn; lia | congruence].
Qed.

Lemma persist_steps_messages env query sel sid chunks response w :
  exists added,
    chat_messages (snd (persist_steps env query sel sid chunks response w))
      = chat_messages w ++ added /\
    (List.length added <= 2)%nat.
Proof.
  unfold persist_steps, bind, ret.
  destruct (save_message env sid "user" query sel None w) as [[m1 | e] w1] eqn:H1.
  - apply save_user_message_ok in H1. destruct H1 as (t1 & H1).
    destruct (save_message env sid "assistant" response None
                (Some (context_metadata chunks)) w1) as [[m2 | e] w2] eqn:H2.
    + apply save_assistant_message_ok in H2. destruct H2 as (t2 & H2).
      eexists [_; _]. cbn [snd]. rewrite H2, H1, <- app_assoc.
      split; [reflexivity | cbn; lia].
    + apply save_message_err in H2.
      eexists [_]. cbn [snd]. rewrite H2, H1. split; [reflexivity | cbn; lia].
  - apply save_message_err in H1. exists []. cbn [snd].
    rewrite H1, app_nil_r. split; [reflexivity | cbn; lia].
Qed.

Lemma persist_steps_sessions env query sel sid chunks response :
  preserves chat_sessions (persist_steps env query sel sid chunks response).
Proof.
  unfold persist_steps.
  apply preserves_bind; [apply save_message_sessions | intros _].
  apply preserves_bind; [apply save_message_sessions | intros _].
  intros w. reflexivity.
Qed.

Lemma persist_steps_constraints env query sel sid chunks response :
  preserves db_constraints (persist_steps env query sel sid chunks response).
Proof.
  unfold persist_steps.
  apply preserves_bind; [apply save_message_constraints | intros _].
  apply preserves_bind; [apply save_message_constraints | intros _].
  intros w. reflexivity.
Qed.

(** The final world of [process_query] is the final world of the stage it
    stopped in. *)
Lemma process_query_final_world env query session_id selected_text w :
  let w1 := snd (retrieval_steps env query session_id w) in
  snd (process_query env query session_id selected_text w) = w1 \/
  exists sid history chunks,
    retrieval_steps env query session_id w = (Ok (sid, history, chunks), w1) /\
    let w2 := snd (answer_steps env query selected_text history chunks w1) in
    snd (process_query env query session_id selected_text w) = w2 \/
    exists response sources,
      answer_steps env query selected_text history chunks w1
        = (Ok (response, sources), w2) /\
      snd (process_query env query session_id selected_text w)
        = snd (persist_steps env query selected_text sid chunks response w2).
Proof.
  cbv zeta. rewrite process_query_stages.
  destruct (retrieval_steps env query session_id w)
    as [[[[sid history] chunks] | e] w1]; [| now left].
  right. exists sid, history, chunks. split; [reflexivity |].
  cbn [snd].
  destruct (answer_steps env query selected_text history chunks w1)
    as [[[response sources] | e] w2]; cbv zeta; cbn [snd]; [| now left].
  right. exists response, sources. split; [reflexivity |].
  destruct (persist_steps env query selected_text sid chunks response w2)
    as [[u | e] w3]; reflexivity.
Qed.

(** X4: whatever its outcome, [process_query] only appends to the store:
    the session table afterwards is the old one followed by at most one new
    row (none when a session ID was supplied), the message table is the old
    one followed by at most two new rows, and the constraints of the tables
    are untouched.  No existing row is changed or removed. *)
Theorem process_query_only_appends
    (env : Env) (query : string) (session_id : option UUID)
    (selected_text : option string) (w : World) :
  exists new_sessions new_messages,
    chat_sessions (snd (process_query env query session_id selected_text w))
      = chat_sessions w ++ new_sessions /\
    chat_messages (snd (process_query env query session_id selected_text w))
      = chat_messages w ++ new_messages /\
    (List.length new_sessions <= 1)%nat /\
    (session_id <> None -> new_sessions = []) /\
    (List.length new_messages <= 2)%nat /\
    db_constraints (snd (process_query env query session_id selected_text w))
      = db_constraints w.
Proof.
  destruct (retrieval_steps_sessions env query session_id w) as (added & Hs1 & Hlen & Hsome).
  pose proof (retrieval_steps_messages env query session_id w) as Hm1.
  pose proof (retrieval_steps_constraints env query session_id w) as Hc1.
  destruct (process_query_final_world env query session_id selected_text w)
    as [-> | (sid & history & chunks & Hret & [-> | (response & sources & Hans & ->)])].
  - exists added, []. rewrite app_nil_r. repeat split; auto; cbn; lia.
  - exists added, []. rewrite app_nil_r.
    rewrite answer_steps_sessions, answer_steps_messages, answer_steps_constraints.
    repeat split; auto; cbn; lia.
  - destruct (persist_steps_messages env query selected_text sid chunks response
                (snd (answer_steps env query selected_text history chunks
                        (snd (retrieval_steps env query session_id w)))))
      as (new & Hnew & Hnewlen).
    exists added, new.
    rewrite persist_steps_sessions, persist_steps_constraints, Hnew.
    rewrite answer_steps_sessions, answer_steps_messages, answer_steps_constraints.
    rewrite Hm1. repeat split; auto.
Qed.



(** ** Primary keys *)

Lemma insert_message_keeps_keys row : keeps unique_keys (insert_message row).
Proof.
  intros w (Hs & Hm). unfold insert_message, bind, get_world, raise, put_messages.
  destruct (stored_row row) as [stored |]; [| split; assumption].
  repeat match goal with
         | |- context [if ?b then _ else _] => destruct b eqn:?; cbn
         end; try (split; assumption).
  split; [exact Hs |]. cbn. rewrite map_app. cbn.
  apply (Permutation_NoDup (Permutation_cons_append _ _)).
  constructor; [| exact Hm].
  intros Hin. apply in_map_iff in Hin. destruct Hin as (m & Hid & Hin).
  match goal with
  | H : message_exists _ _ = false |- _ =>
      unfold message_exists in H;
      assert (existsb (fun m0 => m_message_id m0 =? m_message_id stored)
                      (chat_messages w) = true)
        by (apply existsb_exists; exists m; split;
            [exact Hin | now apply String.eqb_eq]);
      congruence
  end.
Qed.

Lemma insert_session_keeps_keys row : keeps unique_keys (insert_session row).
Proof.
  intros w (Hs & Hm). unfold insert_session, bind, get_world, raise, put_sessions.
  repeat match goal with
         | |- context [if ?b then _ else _] => destruct b eqn:?; cbn
         end; try (split; assumption).
  split; [| exact Hm]. cbn. rewrite map_app. cbn.
  apply (Permutation_NoDup (Permutation_cons_append _ _)).
  constructor; [| exact Hs].
  intros Hin. apply in_map_iff in Hin. destruct Hin as (s & Hid & Hin).
  match goal with
  | H : session_exists _ _ = false |- _ =>
      unfold session_exists in H;
      assert (existsb (fun s0 => s_session_id s0 =? s_session_id row)
                      (chat_sessions w) = true)
        by (apply existsb_exists; exists s; split;
            [exact Hin | now apply String.eqb_eq]);
      congruence
  end.
Qed.

Ltac keeps_keys :=
  repeat first
    [ apply insert_message_keeps_keys
    | apply insert_session_keeps_keys
    | apply keeps_bind; [| intros ?]
    | match goal with
      | |- keeps _ (if ?b then _ else _) => destruct b
      | |- keeps _ (match ?x with _ => _ end) => destruct x
      end
    | (let H := fresh in intros ? H; exact H) ].

(** X6: primary keys stay unique: if no two session rows share their id
    and no two message rows share theirs, the same holds after
    [create_session], after [save_message] and after [process_query], with
    any outcome and whatever ids the random source draws (a drawn id that is
    taken makes the insert fail instead). *)
Theorem primary_keys_stay_unique (env : Env) (w : World) :
  NoDup (map s_session_id (chat_sessions w)) ->
  NoDup (map m_message_id (chat_messages w)) ->
  (let w' := snd (create_session env w) in
   NoDup (map s_session_id (chat_sessions w')) /\
   NoDup (map m_message_id (chat_messages w'))) /\
  (forall sid role content sel ctx,
     let w' := snd (save_message env sid role content sel ctx w) in
     NoDup (map s_session_id (chat_sessions w')) /\
     NoDup (map m_message_id (chat_messages w'))) /\
  (forall query session_id selected_text,
     let w' := snd (process_query env query session_id selected_text w) in
     NoDup (map s_session_id (chat_sessions w')) /\
     NoDup (map m_message_id (chat_messages w'))).
Proof.
  intros Hs Hm.
  assert (Hw : unique_keys w) by (split; assumption).
  split; [| split].
  - assert (H : keeps unique_keys (create_session env))
      by (unfold create_session, db_connect; keeps_keys).
    exact (H w Hw).
  - intros sid role content sel ctx.
    assert (H : keeps unique_keys (save_message env sid role content sel ctx))
      by (unfold save_message, db_connect; keeps_keys).
    exact (H w Hw).
  - intros query session_id selected_text.
    assert (H : keeps unique_keys (process_query env query session_id selected_text)).
    { unfold process_query, create_session, get_conversation_history,
        generate_embedding, vector_store_search, generate_response, save_message,
        db_connect, lift.
      keeps_keys. }
    exact (H w Hw).
Qed.

Lemma primary_keys_stay_unique_witness :
  fst (process_query stuck_id_env "What is ROS2?" (Some "s1") None two_sessions_world)
    = Err (IntegrityError "chat_messages_pkey") /\
  NoDup (map m_message_id
           (chat_messages
              (snd (process_query stuck_id_env "What is ROS2?" (Some "s1") None
                      two_sessions_world)))).
Proof.
  split; [vm_compute; reflexivity |].
  destruct (primary_keys_stay_unique stuck_id_env two_sessions_world) as (_ & _ & H).
  - cbn. repeat constructor; cbn; intuition discriminate.
  - cbn. repeat constructor; cbn; intuition discriminate.
  - apply (H "What is ROS2?" (Some "s1") None).
Defined.

(** ** Scores outside the range of a [Source] *)

Lemma map_result_first_error {A B : Type} (f : A -> result B) (l : list A) (err : error) :
  (forall x e, f x = Err e -> e = err) ->
  (exists x e, In x l /\ f x = Err e) ->
  map_result f l = Err err.
Proof.
  intros Hkind (x & e & Hin & Hx).
  induction l as [| y t IH]; [contradiction |].
  cbn. destruct (f y) as [b |] eqn:Ey.
  - destruct Hin as [-> | Hin]; [congruence |].
    now rewrite (IH Hin).
  - now rewrite (Hkind y _ Ey).
Qed.

Lemma source_of_chunk_error (c : RetrievedChunk) (e : error) :
  source_of_chunk c = Err e -> e = ValidationError.
Proof.
  unfold source_of_chunk, new_Source. destruct (_ && _); [discriminate |].
  now intros [= <-].
Qed.

Lemma format_sources_above_one (chunks : list RetrievedChunk) (c : RetrievedChunk) :
  In c chunks -> (1 < relevance_score c)%Q ->
  format_sources chunks = Err ValidationError.
Proof.
  intros Hin Hbig. unfold format_sources.
  destruct (dedupe_by_file_inv chunks) as [Hnd Hent Hcov].
  specialize (Hcov c Hin). apply in_map_iff in Hcov.
  destruct Hcov as ([k v] & Hk & Hkv). cbn in Hk. subst k.
  destruct (Hent _ _ Hkv) as (_ & _ & Hmax).
  specialize (Hmax c Hin eq_refl).
  rewrite (map_result_first_error source_of_chunk _ ValidationError);
    [reflexivity | apply source_of_chunk_error |].
  exists v, ValidationError. split.
  - unfold dict_values. apply in_map_iff. now exists (file_path c, v).
  - unfold source_of_chunk, new_Source.
    assert (Hv : Qle_bool (relevance_score v) 1 = false).
    { destruct (Qle_bool (relevance_score v) 1) eqn:E; [| reflexivity].
      apply Qle_bool_iff in E. exfalso.
      apply (Qlt_not_le 1 (relevance_score c)); [exact Hbig |].
      now apply Qle_trans with (relevance_score v). }
    rewrite Hv, andb_false_r. reflexivity.
Qed.

(** X7: a retrieved chunk whose score exceeds 1 makes the whole query
    fail: building the sources raises the validation error of [Source],
    after the Answer Generator has been called and before anything is saved,
    so [process_query] returns no answer and the message table is as
    before. *)
Theorem score_above_one_fails_query
    (env : Env) (query : string) (session_id : option UUID)
    (selected_text : option string) (w : World)
    (sid : UUID) (history : list HistoryMessage)
    (chunks : list RetrievedChunk) (w1 : World) (c : RetrievedChunk) :
  retrieval_steps env query session_id w = (Ok (sid, history, chunks), w1) ->
  In c chunks ->
  (1 < relevance_score c)%Q ->
  exists e w',
    process_query env query session_id selected_text w = (Err e, w') /\
    chat_messages w' = chat_messages w /\
    calls w' = calls w1 ++
               [ CallGenerateContent
                   (generation_request env query chunks history selected_text) ] /\
    (forall answer,
        generate_content env
          (generation_request env query chunks history selected_text)
          = Ok (Some answer) ->
        e = ValidationError).
Proof.
  intros Hret Hin Hbig.
  pose proof (format_sources_above_one chunks c Hin Hbig) as Hfmt.
  pose proof (retrieval_steps_messages env query session_id w) as Hm.
  rewrite Hret in Hm. cbn in Hm.
  rewrite process_query_stages, Hret.
  destruct chunks as [| c0 rest]; [contradiction |].
  unfold answer_steps, bind, lift. rewrite generate_response_unfold. cbv zeta.
  rewrite Hfmt.
  destruct (generate_content env
              (generation_request env query (c0 :: rest) history selected_text))
    as [[answer |] | err].
  - exists ValidationError. eexists. split; [reflexivity |].
    split; [exact Hm |]. split; [reflexivity | auto].
  - exists TypeError. eexists. split; [reflexivity |].
    split; [exact Hm |]. split; [reflexivity | discriminate].
  - exists err. eexists. split; [reflexivity |].
    split; [exact Hm |]. split; [reflexivity | discriminate].
Qed.

Lemma score_above_one_witness :
  fst (process_query overshoot_env "What is ROS2?" None None
         (empty_world declared_constraints)) = Err ValidationError /\
  chat_messages
    (snd (process_query overshoot_env "What is ROS2?" None None
            (empty_world declared_constraints))) = [].
Proof.
  destruct (score_above_one_fails_query overshoot_env "What is ROS2?" None None
              (empty_world declared_constraints) "id-1" []
              [ chunk_of_point
                  (point "Intro" "a.md" "ROS2 is a robotics middleware."
                     (1000001 # 1000000)) ]
              (snd (retrieval_steps overshoot_env "What is ROS2?" None
                      (empty_world declared_constraints)))
              (chunk_of_point
                 (point "Intro" "a.md" "ROS2 is a robotics middleware."
                    (1000001 # 1000000))))
    as (e & w' & Hrun & Hm & _ & He).
  - vm_compute. reflexivity.
  - now left.
  - reflexivity.
  - rewrite Hrun. cbn [fst snd]. split; [| exact Hm].
    f_equal. apply (He "ROS2 is a robotics middleware."). reflexivity.
Defined.

(** ** The system prompt *)

Lemma append_assoc (a b c : string) : ((a ++ b) ++ c = a ++ b ++ c)%string.
Proof. induction a as [| x a IH]; cbn; [reflexivity | now rewrite IH]. Qed.

Lemma append_empty_r (a : string) : (a ++ "" = a)%string.
Proof. induction a as [| x a IH]; cbn; [reflexivity | now rewrite IH]. Qed.

Lemma occurs_in_refl (x : string) : occurs_in x x.
Proof. exists "", "". cbn. now rewrite append_empty_r. Qed.

Lemma occurs_in_append_r (x a t : string) :
  occurs_in x t -> occurs_in x (a ++ t)%string.
Proof.
  intros (b & c & ->). exists (a ++ b)%string, c. now rewrite append_assoc.
Qed.

Lemma occurs_in_append_l (x t b : string) :
  occurs_in x t -> occurs_in x (t ++ b)%string.
Proof.
  intros (a & c & ->). exists a, (c ++ b)%string. now rewrite !append_assoc.
Qed.

Lemma occurs_in_join (sep x : string) (l : list string) :
  In x l -> occurs_in x (join sep l).
Proof.
  induction l as [| y t IH]; [contradiction |].
  intros Hin. destruct t as [| z t'].
  - destruct Hin as [-> | []]. apply occurs_in_refl.
  - change (join sep (y :: z :: t')) with (y ++ sep ++ join sep (z :: t'))%string.
    destruct Hin as [-> | Hin].
    + apply occurs_in_append_l, occurs_in_refl.
    + apply occurs_in_append_r, occurs_in_append_r. now apply IH.
Qed.

Ltac find_occurrence :=
  repeat match goal with
         | |- occurs_in _ (join _ _ ++ _)%string => apply occurs_in_append_l
         | |- occurs_in ?x (?x ++ _)%string => apply occurs_in_append_l, occurs_in_refl
         | |- occurs_in _ (_ ++ _)%string => apply occurs_in_append_r
         end.

(** X8: the system instruction sent to the Answer Generator contains, for
    every retrieved chunk, its source label with title and file path followed
    by the whole chunk text, and it contains the refusal sentence the
    orchestrator itself answers with when nothing is retrieved. *)
Theorem system_prompt_shows_every_chunk
    (retrieved_chunks : list RetrievedChunk) (chunk : RetrievedChunk) :
  In chunk retrieved_chunks ->
  occurs_in
    ("[Source: " ++ title chunk ++ " - " ++ file_path chunk ++ "]" ++ nl
     ++ chunk_text chunk)%string
    (_build_system_prompt retrieved_chunks) /\
  occurs_in refusal_message (_build_system_prompt retrieved_chunks).
Proof.
  intros Hin. split.
  - unfold _build_system_prompt. cbv zeta.
    change (map _ retrieved_chunks) with (map chunk_block retrieved_chunks).
    change (occurs_in (chunk_block chunk)
              ("You are a helpful AI assistant for the " ++ dquote
               ++ "Physical AI & Humanoid Robotics" ++ dquote ++ " textbook." ++ nl
               ++ nl
               ++ "Your role is to answer questions based ONLY on the provided book content. Follow these guidelines:" ++ nl
               ++ nl
               ++ "1. GROUNDING: Base all answers strictly on the provided context below. Do not use external knowledge." ++ nl
               ++ "2. CITATIONS: Reference specific sources when making claims (e.g., " ++ dquote
               ++ "According to the ROS2 chapter..." ++ dquote ++ ")." ++ nl
               ++ "3. SCOPE: If the question is outside the book's scope, politely state: " ++ dquote
               ++ refusal_sentence ++ dquote ++ nl
               ++ "4. CLARITY: Explain technical concepts clearly, suitable for students learning robotics." ++ nl
               ++ "5. HONESTY: If the context doesn't contain enough information to answer fully, admit it." ++ nl
               ++ nl
               ++ "CONTEXT FROM BOOK:" ++ nl
               ++ join (nl ++ nl) (map chunk_block retrieved_chunks) ++ nl
               ++ nl
               ++ "Answer the user's question based on the above context.")%string).
    find_occurrence.
    apply occurs_in_join, in_map, Hin.
  - unfold _build_system_prompt. cbv zeta.
    change refusal_message with refusal_sentence.
    find_occurrence.
Qed.

Lemma system_prompt_shows_every_chunk_witness :
  occurs_in
    ("[Source: Nav - b.md]" ++ nl ++ "Navigation uses ROS2 actions.")%string
    (_build_system_prompt (map chunk_of_point ros2_points)).
Proof.
  apply (system_prompt_shows_every_chunk (map chunk_of_point ros2_points)
           (chunk_of_point (point "Nav" "b.md" "Navigation uses ROS2 actions." (70 # 100)))).
  cbn. tauto.
Defined.

(** ** The transcript after a first query *)

Lemma create_session_fresh env w sid w0 :
  create_session env w = (Ok sid, w0) ->
  session_exists sid (chat_sessions w) = false /\
  chat_messages w0 = chat_messages w.
Proof.
  intros H. split.
  - destruct (create_session_outcome env w)
      as [(e & w' & Hc & _) | (row & w' & Hc & _ & Hfresh)];
      rewrite Hc in H; [discriminate |].
    now inversion H; subst.
  - pose proof (create_session_messages env w) as Hm. now rewrite H in Hm.
Qed.

(** X9: after a successful first query (no session ID supplied) on
    tables whose messages all belong to existing sessions, the history of the
    new session consists of exactly the two messages of this turn: the user
    message (the query and the selected text) and the assistant message (the
    answer).  They are listed by creation time, so the user message comes
    first unless the clock went back between the two saves. *)
Theorem first_query_transcript
    (env : Env) (query : string) (selected_text : option string) (w : World)
    (response : string) (sources : list Source) (sid : UUID) (w' : World) :
  process_query env query None selected_text w = (Ok (response, sources, sid), w') ->
  referential_integrity w ->
  db_down env (tick w') = false ->
  exists user_row assistant_row w'',
    get_conversation_history env sid w'
      = (Ok (map (history_entry env)
               (if (m_created_at assistant_row <? m_created_at user_row)%Z
                then [assistant_row; user_row]
                else [user_row; assistant_row])),
         w'') /\
    m_role user_row = "user" /\
    m_content user_row = query /\
    m_selected_text user_row = selected_text /\
    m_role assistant_row = "assistant" /\
    m_content assistant_row = response /\
    m_context_used assistant_row <> None.
Proof.
  intros Hrun Href Hup.
  apply process_query_ok in Hrun.
  destruct Hrun as (history & chunks & w1 & w2 & m1 & w3 & m2 & Hret & Hans & Hs1 & Hs2).
  pose proof (retrieval_steps_messages env query None w) as Hm1.
  rewrite Hret in Hm1. cbn in Hm1.
  pose proof (answer_steps_messages env query selected_text history chunks w1) as Hm2.
  rewrite Hans in Hm2. cbn in Hm2.
  apply retrieval_steps_inv in Hret.
  destruct Hret as (w0 & _ & _ & _ & Hcreate & _).
  apply create_session_fresh in Hcreate. destruct Hcreate as (Hfresh & _).
  pose proof (unknown_session_has_no_messages sid w Href Hfresh) as Hnone.
  apply save_user_message_ok in Hs1. apply save_assistant_message_ok in Hs2.
  destruct Hs1 as (t1 & Hs1). destruct Hs2 as (t2 & Hs2).
  rewrite (get_conversation_history_up env sid w' Hup).
  eexists. eexists. eexists.
  split.
  { unfold select_messages. rewrite Hs2, Hs1, Hm2, Hm1.
    rewrite !filter_app. cbn [filter m_session_id].
    rewrite String.eqb_refl. cbn [app].
    rewrite filter_none; [| intros m Hm; apply String.eqb_neq; now apply Hnone].
    reflexivity. }
  repeat split; discriminate.
Qed.

Lemma first_query_transcript_witness :
  exists entries,
    fst (get_conversation_history ros2_env "id-1"
           (snd (process_query ros2_env "What is ROS2?" None None
                   (empty_world declared_constraints)))) = Ok entries /\
    map (fun e => (h_role e, h_content e)) entries
      = [ ("user", "What is ROS2?");
          ("assistant", "ROS2 is a robotics middleware.") ].
Proof.
  destruct (first_query_transcript ros2_env "What is ROS2?" None
              (empty_world declared_constraints)
              "ROS2 is a robotics middleware." ros2_sources "id-1"
              (snd (process_query ros2_env "What is ROS2?" None None
                      (empty_world declared_constraints))))
    as (u & a & w'' & Hread & _).
  - vm_compute. reflexivity.
  - intros m [].
  - reflexivity.
  - eexists. split; [vm_compute; reflexivity | reflexivity].
Defined.

(** ** Splitting a text into words and chunks *)

Lemma split_from_word (acc w s : string) :
  no_space w = true ->
  split_from acc (w ++ s)%string = split_from (acc ++ w)%string s.
Proof.
  revert acc. induction w as [| c w IH]; intros acc Hw; cbn.
  - now rewrite append_empty_r.
  - cbn in Hw. apply andb_true_iff in Hw. destruct Hw as (Hc & Hw).
    apply negb_true_iff in Hc. rewrite Hc.
    rewrite IH by exact Hw. now rewrite append_assoc.
Qed.

Lemma split_from_space (acc s : string) :
  acc <> EmptyString ->
  split_from acc (String " " s) = acc :: split_from EmptyString s.
Proof. intros H. cbn. destruct acc; [contradiction | reflexivity]. Qed.

(** Joining words with single spaces and splitting again gives the words
    back. *)
Lemma split_join_words (ws : list string) :
  Forall is_word ws -> split_ws (join " " ws) = ws.
Proof.
  unfold split_ws. induction 1 as [| w t (Hne & Hw) Ht IH]; [reflexivity |].
  destruct t as [| w2 t'].
  - cbn [join]. rewrite <- (append_empty_r w) at 1.
    rewrite split_from_word by exact Hw. cbn. destruct w; [contradiction | reflexivity].
  - change (join " " (w :: w2 :: t')) with (w ++ " " ++ join " " (w2 :: t'))%string.
    rewrite split_from_word by exact Hw. cbn [append].
    rewrite split_from_space by exact Hne. now rewrite IH.
Qed.

Lemma no_space_snoc (acc : string) (c : ascii) :
  no_space acc = true -> isspace c = false ->
  no_space (acc ++ String c EmptyString)%string = true.
Proof.
  intros Ha Hc. induction acc as [| x acc IH]; cbn in *.
  - now rewrite Hc.
  - apply andb_true_iff in Ha. destruct Ha as (Hx & Ha).
    rewrite Hx. cbn. now apply IH.
Qed.

Lemma split_from_words (s acc : string) :
  no_space acc = true -> Forall is_word (split_from acc s).
Proof.
  revert acc. induction s as [| c rest IH]; intros acc Ha; cbn.
  - destruct acc; [constructor |]. constructor; [| constructor].
    split; [discriminate | exact Ha].
  - destruct (isspace c) eqn:Ec.
    + destruct acc; [now apply IH |].
      constructor; [split; [discriminate | exact Ha] | now apply IH].
    + apply IH. now apply no_space_snoc.
Qed.

Lemma split_ws_words (text : string) : Forall is_word (split_ws text).
Proof. now apply split_from_words. Qed.

Lemma py_slice_window {A : Type} (start size : nat) (l : list A) :
  (start <= List.length l)%nat ->
  py_slice (Z.of_nat start) (Z.of_nat start + Z.of_nat size) l
    = firstn size (skipn start l).
Proof.
  intros Hle. unfold py_slice, slice_index.
  destruct (Z.of_nat start <? 0)%Z eqn:E1; [apply Z.ltb_lt in E1; lia |].
  destruct (Z.of_nat start + Z.of_nat size <? 0)%Z eqn:E2; [apply Z.ltb_lt in E2; lia |].
  rewrite (Z.min_l (Z.of_nat start)) by lia. rewrite Nat2Z.id.
  destruct (Nat.le_gt_cases (start + size) (List.length l)) as [Hfit | Hover].
  - rewrite Z.min_l by lia. f_equal. lia.
  - rewrite Z.min_r by lia.
    rewrite !firstn_all2; [reflexivity | |]; rewrite length_skipn; lia.
Qed.

(** The chunk that starts at word [i * step]. *)
Lemma chunk_loop_windows (words : list string) (cs step : nat) (overlap : Z) :
  (0 < step)%nat ->
  Z.of_nat step = Markdown.chunk_step (Z.of_nat cs) overlap ->
  forall m i fuel chunks,
    (m < fuel)%nat ->
    (List.length words <= (i + m) * step)%nat ->
    (m = 0 \/ (i + m - 1) * step < List.length words)%nat ->
    Markdown.chunk_loop fuel words (Z.of_nat cs) overlap (Z.of_nat (i * step)) chunks
      = Some (chunks ++
              map (fun j => join " " (firstn cs (skipn (j * step) words))) (seq i m)).
Proof.
  intros Hstep Hdef. induction m as [| m IH]; intros i fuel chunks Hfuel Hhi Hlo.
  - destruct fuel as [| fuel]; [lia |]. cbn [Markdown.chunk_loop seq map].
    destruct (Z.of_nat (i * step) <? Z.of_nat (List.length words))%Z eqn:E;
      [apply Z.ltb_lt in E; lia |].
    now rewrite app_nil_r.
  - destruct fuel as [| fuel]; [lia |]. cbn [Markdown.chunk_loop seq map].
    assert (Hin : (i * step < List.length words)%nat).
    { destruct Hlo as [Hlo | Hlo]; [discriminate |]. nia. }
    destruct (Z.of_nat (i * step) <? Z.of_nat (List.length words))%Z eqn:E;
      [| apply Z.ltb_ge in E; lia].
    cbv zeta. rewrite py_slice_window by lia.
    assert (Hnext :
      ((if (overlap >=? Z.of_nat cs)%Z
        then Z.of_nat (i * step) + (Z.of_nat cs - overlap) + 1
        else Z.of_nat (i * step) + (Z.of_nat cs - overlap))
       = Z.of_nat (S i * step))%Z).
    { unfold Markdown.chunk_step in Hdef.
      destruct (overlap >=? Z.of_nat cs)%Z; nia. }
    rewrite Hnext.
    rewrite (IH (S i) fuel); [| lia | | ].
    + rewrite <- app_assoc. reflexivity.
    + replace (S i + m)%nat with (i + S m)%nat by lia. exact Hhi.
    + destruct m as [| m']; [now left | right].
      destruct Hlo as [Hlo | Hlo]; [discriminate |].
      replace (S i + S m' - 1)%nat with (i + S (S m') - 1)%nat by lia. exact Hlo.
Qed.

Lemma Forall_window {A : Type} (P : A -> Prop) (l : list A) (n k : nat) :
  Forall P l -> Forall P (firstn n (skipn k l)).
Proof.
  intros H. apply Forall_forall. intros x Hx.
  rewrite Forall_forall in H. apply H.
  rewrite <- (firstn_skipn k l). apply in_or_app. right.
  rewrite <- (firstn_skipn n (skipn k l)). apply in_or_app. now left.
Qed.

Lemma ceil_div_bounds (n step : nat) :
  (0 < step)%nat ->
  let k := ((n + step - 1) / step)%nat in
  (n <= k * step)%nat /\ (k = 0 \/ (k - 1) * step < n)%nat /\ (k <= n)%nat.
Proof.
  intros Hstep k.
  pose proof (Nat.div_mod_eq (n + step - 1) step) as Hdm.
  pose proof (Nat.mod_upper_bound (n + step - 1) step ltac:(lia)) as Hr.
  fold k in Hdm.
  split; [nia |]. split.
  - destruct k as [| k']; [now left | right]. nia.
  - nia.
Qed.

(** The chunks of a long text, in closed form. *)
Lemma chunk_text_closed_form (fuel : nat) (text : string) (chunk_size overlap : Z) :
  let words := split_ws text in
  let size := Z.to_nat chunk_size in
  let step := Z.to_nat (Markdown.chunk_step chunk_size overlap) in
  (0 < chunk_size)%Z ->
  (overlap <= chunk_size)%Z ->
  (chunk_size < Z.of_nat (List.length words))%Z ->
  (List.length words < fuel)%nat ->
  (0 < step)%nat /\
  Markdown.chunk_text fuel text chunk_size overlap
    = Some (map (fun i => join " " (firstn size (skipn (i * step) words)))
                (seq 0 ((List.length words + step - 1) / step))).
Proof.
  intros words size step Hcs Hov Hlong Hfuel.
  assert (Hstep : (0 < step)%nat).
  { unfold step, Markdown.chunk_step. destruct (overlap >=? chunk_size)%Z eqn:E; lia. }
  split; [exact Hstep |].
  unfold Markdown.chunk_text. fold words.
  destruct (Z.of_nat (List.length words) <=? chunk_size)%Z eqn:E;
    [apply Z.leb_le in E; lia |].
  destruct (ceil_div_bounds (List.length words) step Hstep) as (Hhi & Hlo & Hk).
  pose proof (chunk_loop_windows words size step overlap Hstep) as Hloop.
  replace (Z.of_nat size) with chunk_size in Hloop by (unfold size; lia).
  change (Markdown.chunk_loop fuel words chunk_size overlap 0 [])
    with (Markdown.chunk_loop fuel words chunk_size overlap (Z.of_nat (0 * step)) []).
  rewrite (Hloop ltac:(unfold step; unfold Markdown.chunk_step in *;
                       destruct (overlap >=? chunk_size)%Z; lia)
                 ((List.length words + step - 1) / step)%nat 0%nat fuel []);
    [reflexivity | lia | exact Hhi | exact Hlo].
Qed.

(** X10: for a text of more than [chunk_size] words, with [chunk_size]
    positive and [overlap] at most [chunk_size], [chunk_text] terminates
    (the loop runs at most once per word) and returns the windows of
    [chunk_size] consecutive words that start every [step] words from the
    first one, where [step] is [chunk_size - overlap] (1 when the two are
    equal): there are as many chunks as the word count divided by [step],
    rounded up, and each chunk, split again, is exactly its window, of at
    least one and at most [chunk_size] words. *)
Theorem chunk_text_windows
    (fuel : nat) (text : string) (chunk_size overlap : Z) :
  (0 < chunk_size)%Z ->
  (overlap <= chunk_size)%Z ->
  (chunk_size < Z.of_nat (List.length (split_ws text)))%Z ->
  (List.length (split_ws text) < fuel)%nat ->
  exists chunks,
    Markdown.chunk_text fuel text chunk_size overlap = Some chunks /\
    let step := Z.to_nat (if (overlap =? chunk_size)%Z then 1 else chunk_size - overlap) in
    (List.length chunks
       = (List.length (split_ws text) + step - 1) / step)%nat /\
    forall i chunk,
      nth_error chunks i = Some chunk ->
      split_ws chunk
        = firstn (Z.to_nat chunk_size) (skipn (i * step) (split_ws text)) /\
      (1 <= List.length (split_ws chunk) <= Z.to_nat chunk_size)%nat.
Proof.
  intros Hcs Hov Hlong Hfuel.
  destruct (chunk_text_closed_form fuel text chunk_size overlap Hcs Hov Hlong Hfuel)
    as (Hstep & Hrun).
  eexists. split; [exact Hrun |].
  assert (Hs : Z.to_nat (if (overlap =? chunk_size)%Z then 1 else chunk_size - overlap)%Z
               = Z.to_nat (Markdown.chunk_step chunk_size overlap)).
  { unfold Markdown.chunk_step.
    destruct (overlap =? chunk_size)%Z eqn:E1, (overlap >=? chunk_size)%Z eqn:E2; lia. }
  cbv zeta. rewrite Hs.
  set (step := Z.to_nat (Markdown.chunk_step chunk_size overlap)) in *.
  split; [now rewrite length_map, length_seq |].
  intros i chunk Hnth.
  rewrite nth_error_map, nth_error_seq in Hnth.
  destruct (Nat.ltb i ((List.length (split_ws text) + step - 1) / step)) eqn:Ei;
    [| discriminate].
  cbn in Hnth. inversion Hnth; subst chunk. clear Hnth.
  apply Nat.ltb_lt in Ei.
  rewrite split_join_words by (apply Forall_window, split_ws_words).
  split; [reflexivity |].
  rewrite length_firstn, length_skipn.
  destruct (ceil_div_bounds (List.length (split_ws text)) step Hstep) as (_ & Hlo & _).
  assert (i * step < List.length (split_ws text))%nat by nia.
  lia.
Qed.

Lemma chunk_text_windows_witness :
  Markdown.chunk_text 8 sample_text 3 1 = Some ["a b c"; "c d e"; "e f g"; "g"].
Proof.
  assert (H3 : (3 < Z.of_nat (List.length (split_ws sample_text)))%Z)
    by (vm_compute; reflexivity).
  assert (H4 : (List.length (split_ws sample_text) < 8)%nat) by (vm_compute; lia).
  assert (H1 : (0 < 3)%Z) by lia.
  assert (H2 : (1 <= 3)%Z) by lia.
  destruct (chunk_text_windows 8 sample_text 3 1 H1 H2 H3 H4)
    as (chunks & Hrun & _).
  vm_compute. reflexivity.
Defined.

(** X11: with [overlap] between 0 and [chunk_size], no word of a long
    text is lost: every word of the text is a word of some chunk. *)
Theorem chunk_text_covers_every_word
    (fuel : nat) (text : string) (chunk_size overlap : Z) (word : string) :
  (0 <= overlap <= chunk_size)%Z ->
  (0 < chunk_size)%Z ->
  (chunk_size < Z.of_nat (List.length (split_ws text)))%Z ->
  (List.length (split_ws text) < fuel)%nat ->
  In word (split_ws text) ->
  exists chunks chunk,
    Markdown.chunk_text fuel text chunk_size overlap = Some chunks /\
    In chunk chunks /\
    In word (split_ws chunk).
Proof.
  intros Hov Hcs Hlong Hfuel Hin.
  destruct (chunk_text_closed_form fuel text chunk_size overlap Hcs ltac:(lia) Hlong Hfuel)
    as (Hstep & Hrun).
  set (step := Z.to_nat (Markdown.chunk_step chunk_size overlap)) in *.
  set (size := Z.to_nat chunk_size) in *.
  assert (Hle : (step <= size)%nat).
  { unfold step, size, Markdown.chunk_step.
    destruct (overlap >=? chunk_size)%Z eqn:E; lia. }
  apply In_nth_error in Hin. destruct Hin as (j & Hj).
  assert (Hjn : (j < List.length (split_ws text))%nat)
    by (apply nth_error_Some; congruence).
  destruct (ceil_div_bounds (List.length (split_ws text)) step Hstep) as (Hhi & _ & _).
  pose proof (Nat.div_mod_eq j step) as Hdm.
  pose proof (Nat.mod_upper_bound j step ltac:(lia)) as Hr.
  eexists. exists (join " " (firstn size (skipn ((j / step) * step) (split_ws text)))).
  split; [exact Hrun |]. split.
  - apply in_map_iff. exists (j / step)%nat. split; [reflexivity |].
    apply in_seq. split; [lia |]. cbn.
    apply Nat.Div0.div_lt_upper_bound. nia.
  - rewrite split_join_words by (apply Forall_window, split_ws_words).
    apply (nth_error_In _ (j mod step)).
    rewrite nth_error_firstn.
    assert (Hlt : Nat.ltb (j mod step) size = true) by (apply Nat.ltb_lt; lia).
    rewrite Hlt, nth_error_skipn.
    replace (j / step * step + j mod step)%nat with j by nia. exact Hj.
Qed.

Lemma chunk_text_covers_witness :
  exists chunks chunk,
    Markdown.chunk_text 8 sample_text 3 1 = Some chunks /\
    In chunk chunks /\ In "d" (split_ws chunk).
Proof.
  assert (H3 : (3 < Z.of_nat (List.length (split_ws sample_text)))%Z)
    by (vm_compute; reflexivity).
  assert (H4 : (List.length (split_ws sample_text) < 8)%nat) by (vm_compute; lia).
  assert (H5 : In "d" (split_ws sample_text)) by (vm_compute; tauto).
  assert (H1 : (0 <= 1 <= 3)%Z) by lia.
  assert (H2 : (0 < 3)%Z) by lia.
  exact (chunk_text_covers_every_word 8 sample_text 3 1 "d" H1 H2 H3 H4 H5).
Defined.

(** X12: the guard against an endless loop covers [overlap = chunk_size]
    only.  With [overlap] greater than [chunk_size], on a text of more than
    [chunk_size] words (at least one), the start index never moves forward
    and the loop never ends: no number of iterations lets [chunk_text]
    return. *)
Theorem chunk_text_loops_forever
    (text : string) (chunk_size overlap : Z) :
  (chunk_size < overlap)%Z ->
  (chunk_size < Z.of_nat (List.length (split_ws text)))%Z ->
  (0 < List.length (split_ws text))%nat ->
  forall fuel, Markdown.chunk_text fuel text chunk_size overlap = None.
Proof.
  intros Hov Hlong Hwords fuel.
  unfold Markdown.chunk_text.
  destruct (Z.of_nat (List.length (split_ws text)) <=? chunk_size)%Z eqn:E;
    [apply Z.leb_le in E; lia |].
  assert (Hloop : forall start chunks, (start <= 0)%Z ->
            Markdown.chunk_loop fuel (split_ws text) chunk_size overlap start chunks
              = None).
  { induction fuel as [| fuel IH]; intros start chunks Hstart; [reflexivity |].
    cbn [Markdown.chunk_loop].
    destruct (start <? Z.of_nat (List.length (split_ws text)))%Z eqn:Es;
      [| apply Z.ltb_ge in Es; lia].
    cbv zeta. apply IH.
    destruct (overlap >=? chunk_size)%Z eqn:Eo; lia. }
  apply Hloop. lia.
Qed.

Lemma chunk_text_loops_forever_witness :
  Markdown.chunk_text 1000 sample_text 3 4 = None.
Proof.
  assert (H2 : (3 < Z.of_nat (List.length (split_ws sample_text)))%Z)
    by (vm_compute; reflexivity).
  assert (H3 : (0 < List.length (split_ws sample_text))%nat) by (vm_compute; lia).
  assert (H1 : (3 < 4)%Z) by lia.
  exact (chunk_text_loops_forever sample_text 3 4 H1 H2 H3 1000%nat).
Defined.

(** ** Session identifiers *)

Lemma match_hex_spec (n : nat) (s rest : string) :
  match_hex n s = Some rest <->
  exists h, s = (h ++ rest)%string /\ hex_group n h.
Proof.
  revert s. induction n as [| n IH]; intros s; cbn.
  - split.
    + intros [= ->]. exists EmptyString. repeat split.
    + intros (h & -> & Hlen & _). destruct h; [reflexivity | discriminate].
  - destruct s as [| c s'].
    + split; [discriminate |].
      intros (h & Hs & Hlen & _). destruct h; discriminate.
    + destruct (is_hex_digit c) eqn:Ec.
      * rewrite IH. split.
        -- intros (h & -> & Hlen & Hall). exists (String c h).
           repeat split; cbn; [now rewrite Hlen | now rewrite Ec].
        -- intros (h & Hs & Hlen & Hall). destruct h as [| c' h']; [discriminate |].
           cbn in Hs. inversion Hs; subst. cbn in Hlen, Hall.
           apply andb_true_iff in Hall. destruct Hall as (_ & Hall).
           exists h'. repeat split; [lia | exact Hall].
      * split; [discriminate |].
        intros (h & Hs & Hlen & Hall). destruct h as [| c' h']; [discriminate |].
        cbn in Hs. inversion Hs; subst. cbn in Hall. rewrite Ec in Hall. discriminate.
Qed.

Lemma match_hyphen_spec (s rest : string) :
  match_hyphen s = Some rest <-> s = String "-" rest.
Proof.
  destruct s as [| c s']; cbn; [split; discriminate |].
  destruct (Ascii.eqb c "-") eqn:E.
  - apply Ascii.eqb_eq in E. subst c. split; [now intros [= ->] | now intros [= ->]].
  - apply Ascii.eqb_neq in E. split; [discriminate | intros [= Hc _]; contradiction].
Qed.

Lemma and_then_some {A B : Type} (o : option A) (f : A -> option B) (b : B) :
  and_then o f = Some b <-> exists a, o = Some a /\ f a = Some b.
Proof.
  destruct o as [a |]; cbn.
  - split; [eauto | now intros (a' & [= <-] & H)].
  - split; [discriminate | now intros (a' & H & _)].
Qed.

Lemma length_append (a b : string) :
  String.length (a ++ b) = (String.length a + String.length b)%nat.
Proof. induction a as [| c a IH]; cbn; [reflexivity | now rewrite IH]. Qed.

Lemma remove_hyphens_append (a b : string) :
  remove_hyphens (a ++ b) = (remove_hyphens a ++ remove_hyphens b)%string.
Proof.
  induction a as [| c a IH]; cbn; [reflexivity |].
  destruct (Ascii.eqb c "-"); cbn; now rewrite IH.
Qed.

Lemma remove_hyphens_hex (n : nat) (h : string) :
  hex_group n h -> remove_hyphens h = h.
Proof.
  intros (_ & Hall). induction h as [| c h IH]; cbn; [reflexivity |].
  cbn in Hall. apply andb_true_iff in Hall. destruct Hall as (Hc & Hall).
  destruct (Ascii.eqb c "-") eqn:E.
  - apply Ascii.eqb_eq in E. subst c. discriminate.
  - now rewrite IH.
Qed.

(** X13: [validate_session_id] accepts exactly the texts made of five
    groups of 8, 4, 4, 4 and 12 hexadecimal digits (either letter case)
    separated by hyphens, optionally followed by one final line feed.  For an
    accepted text, [UUID(text)] succeeds exactly when there is no such line
    feed. *)
Theorem validate_session_id_accepts (session_id : string) :
  (validate_session_id session_id = true <->
   exists g1 g2 g3 g4 g5 tail,
     session_id
       = (g1 ++ "-" ++ g2 ++ "-" ++ g3 ++ "-" ++ g4 ++ "-" ++ g5 ++ tail)%string /\
     hex_group 8 g1 /\ hex_group 4 g2 /\ hex_group 4 g3 /\ hex_group 4 g4 /\
     hex_group 12 g5 /\
     (tail = "" \/ tail = nl)) /\
  (validate_session_id session_id = true ->
   (String.length session_id = 36%nat
    /\ UUID_of_text session_id = Some (lower session_id))
   \/ (String.length session_id = 37%nat /\ UUID_of_text session_id = None)).
Proof.
  assert (Hchar :
    validate_session_id session_id = true <->
    exists g1 g2 g3 g4 g5 tail,
      session_id
        = (g1 ++ "-" ++ g2 ++ "-" ++ g3 ++ "-" ++ g4 ++ "-" ++ g5 ++ tail)%string /\
      hex_group 8 g1 /\ hex_group 4 g2 /\ hex_group 4 g3 /\ hex_group 4 g4 /\
      hex_group 12 g5 /\
      (tail = "" \/ tail = nl)).
  { unfold validate_session_id. split.
    - destruct (and_then _ _) as [rest |] eqn:E; [| discriminate].
      intros Htail.
      repeat (apply and_then_some in E; destruct E as (? & ? & E)).
      repeat match goal with
             | H : match_hex _ _ = Some _ |- _ =>
                 apply match_hex_spec in H; destruct H as (? & ? & ?)
             | H : match_hyphen _ = Some _ |- _ => apply match_hyphen_spec in H
             end.
      subst. do 6 eexists. split; [reflexivity |].
      repeat (split; [eassumption |]).
      apply orb_true_iff in Htail.
      destruct Htail as [H | H]; apply String.eqb_eq in H; auto.
    - intros (g1 & g2 & g3 & g4 & g5 & tail & -> & H1 & H2 & H3 & H4 & H5 & Htail).
      assert (E : and_then
                    (match_hex 8 (g1 ++ "-" ++ g2 ++ "-" ++ g3 ++ "-" ++ g4 ++ "-" ++ g5 ++ tail))
                    (fun s1 => and_then (match_hyphen s1) (fun s2 =>
                     and_then (match_hex 4 s2) (fun s3 =>
                     and_then (match_hyphen s3) (fun s4 =>
                     and_then (match_hex 4 s4) (fun s5 =>
                     and_then (match_hyphen s5) (fun s6 =>
                     and_then (match_hex 4 s6) (fun s7 =>
                     and_then (match_hyphen s7) (fun s8 =>
                     match_hex 12 s8)))))))) = Some tail).
      { apply and_then_some. eexists. split; [apply match_hex_spec; eauto |].
        apply and_then_some. eexists. split; [apply match_hyphen_spec; reflexivity |].
        apply and_then_some. eexists. split; [apply match_hex_spec; eauto |].
        apply and_then_some. eexists. split; [apply match_hyphen_spec; reflexivity |].
        apply and_then_some. eexists. split; [apply match_hex_spec; eauto |].
        apply and_then_some. eexists. split; [apply match_hyphen_spec; reflexivity |].
        apply and_then_some. eexists. split; [apply match_hex_spec; eauto |].
        apply and_then_some. eexists. split; [apply match_hyphen_spec; reflexivity |].
        apply match_hex_spec; eauto. }
      rewrite E. destruct Htail as [-> | ->]; reflexivity. }
  split; [exact Hchar |].
  intros Hvalid. apply Hchar in Hvalid.
  destruct Hvalid as (g1 & g2 & g3 & g4 & g5 & tail & -> & H1 & H2 & H3 & H4 & H5 & Htail).
  unfold UUID_of_text.
  assert (Hlen : forall t,
    String.length (g1 ++ "-" ++ g2 ++ "-" ++ g3 ++ "-" ++ g4 ++ "-" ++ g5 ++ t)
      = (36 + String.length t)%nat).
  { intros t. rewrite !length_append. cbn [String.length].
    destruct H1 as (-> & _), H2 as (-> & _), H3 as (-> & _), H4 as (-> & _),
             H5 as (-> & _). lia. }
  assert (Hhex : forall t,
    String.length
      (remove_hyphens (g1 ++ "-" ++ g2 ++ "-" ++ g3 ++ "-" ++ g4 ++ "-" ++ g5 ++ t))
      = (32 + String.length (remove_hyphens t))%nat).
  { intros t. rewrite !remove_hyphens_append.
    rewrite (remove_hyphens_hex 8 g1 H1), (remove_hyphens_hex 4 g2 H2),
      (remove_hyphens_hex 4 g3 H3), (remove_hyphens_hex 4 g4 H4),
      (remove_hyphens_hex 12 g5 H5).
    cbn [remove_hyphens Ascii.eqb Bool.eqb]. rewrite !length_append. cbn [String.length].
    destruct H1 as (-> & _), H2 as (-> & _), H3 as (-> & _), H4 as (-> & _),
             H5 as (-> & _). lia. }
  rewrite Hlen, Hhex.
  destruct Htail as [-> | ->]; [left | right]; split; reflexivity.
Qed.

Lemma validate_session_id_witness :
  validate_session_id sample_uuid_upper = true /\
  UUID_of_text sample_uuid_upper = Some sample_uuid /\
  validate_session_id (sample_uuid ++ nl) = true /\
  UUID_of_text (sample_uuid ++ nl) = None.
Proof.
  destruct (validate_session_id_accepts sample_uuid_upper) as (_ & H).
  destruct (H eq_refl) as [(_ & Hu) | (Hl & _)]; [| discriminate].
  repeat split; reflexivity.
Defined.

(** ** The session history endpoint *)



Lemma map_result_all_ok {A B : Type} (f : A -> result B) (g : A -> B) (l : list A) :
  (forall x, In x l -> f x = Ok (g x)) -> map_result f l = Ok (map g l).
Proof.
  induction l as [| x t IH]; intros H; cbn; [reflexivity |].
  rewrite (H x (or_introl eq_refl)), IH; [reflexivity |].
  intros y Hy. apply H. now right.
Qed.



(** ** Looking a session up *)

(** X16: [get_session] never raises.  With the database reachable and
    session ids unique it returns the row of the given id when there is one
    and nothing otherwise; with the database unreachable it returns nothing
    as well, so absence and failure look the same to the caller.  It leaves
    both tables unchanged. *)
Theorem get_session_finds_the_row (env : Env) (session_id : UUID) (w : World) :
  NoDup (map s_session_id (chat_sessions w)) ->
  (db_down env (tick w) = true -> fst (get_session env session_id w) = None) /\
  (db_down env (tick w) = false ->
   forall s, fst (get_session env session_id w) = Some s <->
             In s (chat_sessions w) /\ s_session_id s = session_id) /\
  chat_sessions (snd (get_session env session_id w)) = chat_sessions w /\
  chat_messages (snd (get_session env session_id w)) = chat_messages w.
Proof.
  intros Hnd. unfold get_session, db_connect, bind, next_tick, raise, ret.
  cbn -[filter].
  destruct (db_down env (tick w)).
  - cbn. repeat split; try discriminate; auto.
  - cbn -[filter].
    assert (Hfilter : forall l, NoDup (map s_session_id l) ->
      (forall s, In s (filter (fun s0 => s_session_id s0 =? session_id) l) <->
                 In s l /\ s_session_id s = session_id) /\
      (List.length (filter (fun s0 => (s_session_id s0 =? session_id)%string) l)
       <= 1)%nat).
    { intros l Hl. split.
      - intros s. rewrite filter_In, String.eqb_eq. tauto.
      - induction l as [| x t IH]; cbn; [lia |].
        inversion Hl as [| ? ? Hx Ht]; subst.
        destruct (s_session_id x =? session_id) eqn:E; [| now apply IH].
        apply String.eqb_eq in E. cbn.
        rewrite filter_none; [cbn; lia |].
        intros y Hy. apply String.eqb_neq. intros Hy'.
        apply Hx. rewrite E, <- Hy'. now apply in_map. }
    destruct (Hfilter _ Hnd) as (Hmem & Hlen).
    destruct (filter (fun s0 => s_session_id s0 =? session_id) (chat_sessions w))
      as [| s0 [| s1 rest]]; cbn in *.
    + split; [discriminate |]. split; [| split; reflexivity].
      intros _ s. split; [discriminate |].
      intros H. apply Hmem in H. contradiction.
    + split; [discriminate |]. split; [| split; reflexivity].
      intros _ s. split.
      * intros [= <-]. apply Hmem. now left.
      * intros H. apply Hmem in H. destruct H as [-> | []]. reflexivity.
    + lia.
Qed.

Lemma get_session_finds_the_row_witness :
  fst (get_session ros2_env "s2" two_sessions_world)
    = Some {| s_session_id := "s2"; s_created_at := 2%Z; s_last_activity_at := 2%Z |} /\
  fst (get_session ros2_env "s3" two_sessions_world) = None.
Proof.
  assert (Hnd : NoDup (map s_session_id (chat_sessions two_sessions_world))).
  { cbn. repeat constructor; cbn; intuition discriminate. }
  destruct (get_session_finds_the_row ros2_env "s2" two_sessions_world Hnd)
    as (_ & H2 & _).
  split.
  - apply (H2 eq_refl). split; [cbn; tauto | reflexivity].
  - reflexivity.
Defined.

(** ** Upserting chunks *)

Lemma make_points_run env (pairs : list (Payload * list Q)) (w : World) :
  make_points env pairs w
    = (Ok (map (fun '(i, (chunk, embedding)) =>
                  {| ps_id := uuid4 env i; ps_vector := embedding; ps_payload := chunk |})
               (combine (seq (tick w) (List.length pairs)) pairs)),
       ticks (List.length pairs) w).
Proof.
  revert w. induction pairs as [| [chunk embedding] rest IH]; intros w.
  - destruct w. reflexivity.
  - cbn [make_points]. unfold bind at 1. unfold next_tick at 1.
    unfold bind at 1. rewrite IH. unfold ret. cbn.
    unfold ticks. cbn. do 2 f_equal. f_equal. lia.
Qed.

(** X17: [upsert_chunks] pairs chunks and vectors by position and stops
    at the shorter list: the single request handed to the index has as many
    points as the shorter of the two lists, the i-th carrying the i-th chunk
    as payload, the i-th vector and a freshly drawn id; chunks or vectors
    beyond that are dropped without an error.  The call's outcome is the
    index's answer to that request, and the store is not touched. *)
Theorem upsert_chunks_pairs_by_position
    (env : Env) (clients : AdminClients)
    (chunks : list Payload) (embeddings : list (list Q)) (w : World) :
  exists points,
    fst (upsert_chunks env clients chunks embeddings w)
      = qdrant_upsert clients
          {| ur_collection_name := qdrant_collection_name (settings env);
             ur_points := points |} /\
    List.length points = Nat.min (List.length chunks) (List.length embeddings) /\
    map ps_payload points = firstn (List.length points) chunks /\
    map ps_vector points = firstn (List.length points) embeddings /\
    map ps_id points = map (uuid4 env) (seq (tick w) (List.length points)) /\
    chat_sessions (snd (upsert_chunks env clients chunks embeddings w)) = chat_sessions w /\
    chat_messages (snd (upsert_chunks env clients chunks embeddings w)) = chat_messages w.
Proof.
  unfold upsert_chunks. unfold bind. rewrite make_points_run. unfold lift.
  eexists. split; [reflexivity |].
  assert (Hgen : forall n (cs : list Payload) (es : list (list Q)),
    let pts := map (fun '(i, (chunk, embedding)) =>
                      {| ps_id := uuid4 env i; ps_vector := embedding;
                         ps_payload := chunk |})
                   (combine (seq n (List.length (combine cs es))) (combine cs es)) in
    List.length pts = Nat.min (List.length cs) (List.length es) /\
    map ps_payload pts = firstn (List.length pts) cs /\
    map ps_vector pts = firstn (List.length pts) es /\
    map ps_id pts = map (uuid4 env) (seq n (List.length pts))).
  { intros n cs. revert n. induction cs as [| c cs IH]; intros n es.
    - cbn. repeat split.
    - destruct es as [| e es]; [cbn; repeat split |].
      cbn [combine List.length seq map firstn].
      destruct (IH (S n) es) as (H1 & H2 & H3 & H4). cbv zeta in *.
      repeat split.
      + cbn. now rewrite H1.
      + cbn [firstn]. f_equal. exact H2.
      + cbn [firstn]. f_equal. exact H3.
      + cbn [seq map]. f_equal. exact H4. }
  destruct (Hgen (tick w) chunks embeddings) as (H1 & H2 & H3 & H4).
  cbv zeta in *. repeat split; assumption.
Qed.

(** ** The health endpoint *)



#[local] Open Scope string_scope.

(** ** Sanitising the selected text; the CORS origins *)

Lemma rstrip_cons_word (c : ascii) (s : string) :
  isspace c = false -> rstrip (String c s) = String c (rstrip s).
Proof. intros H. cbn. rewrite H. now destruct (rstrip s). Qed.

Lemma rstrip_word_prefix (acc s : string) :
  no_space acc = true -> rstrip (acc ++ s) = acc ++ rstrip s.
Proof.
  induction acc as [| c acc IH]; intros H; [reflexivity |].
  cbn in H. apply andb_true_iff in H. destruct H as (Hc & Ha).
  apply negb_true_iff in Hc.
  cbn [append]. rewrite rstrip_cons_word by exact Hc. now rewrite IH.
Qed.

Lemma collapse_word_prefix (acc s : string) :
  no_space acc = true -> collapse_ws (acc ++ s) = acc ++ collapse_ws s.
Proof.
  induction acc as [| c acc IH]; intros H; [reflexivity |].
  cbn in H. apply andb_true_iff in H. destruct H as (Hc & Ha).
  apply negb_true_iff in Hc.
  cbn [append collapse_ws]. rewrite Hc. now rewrite IH.
Qed.

Lemma collapse_ws_space_space (c x : ascii) (s : string) :
  isspace c = true -> isspace x = true ->
  collapse_ws (String c (String x s)) = collapse_ws (String x s).
Proof. intros Hc Hx. simpl. now rewrite Hc, Hx. Qed.

Lemma collapse_ws_space_word (c x : ascii) (s : string) :
  isspace c = true -> isspace x = false ->
  collapse_ws (String c (String x s)) = String " " (String x (collapse_ws s)).
Proof. intros Hc Hx. simpl. now rewrite Hc, Hx. Qed.

Lemma rstrip_space_cons (r : string) :
  rstrip (String " " r)
    = match rstrip r with
      | EmptyString => EmptyString
      | r' => String " " r'
      end.
Proof. reflexivity. Qed.

(** The two scanning states of [split], in terms of [squeeze]. *)
Lemma squeeze_split (s : string) :
  (forall acc, acc <> EmptyString -> no_space acc = true ->
     join " " (split_from acc s) = acc ++ squeeze s) /\
  (forall c, isspace c = true ->
     squeeze (String c s)
       = match split_from EmptyString s with
         | [] => EmptyString
         | l => String " " (join " " l)
         end).
Proof.
  induction s as [| x s (IHword & IHgap)].
  - split.
    + intros acc Hne _. cbn. destruct acc; [contradiction |].
      cbn. now rewrite append_empty_r.
    + intros c Hc. unfold squeeze. cbn. now rewrite Hc.
  - assert (Hgap : forall c, isspace c = true ->
       squeeze (String c (String x s))
       = match split_from EmptyString (String x s) with
         | [] => EmptyString
         | l => String " " (join " " l)
         end).
    { intros c Hc. destruct (isspace x) eqn:Ex.
      - unfold squeeze. rewrite collapse_ws_space_space by assumption.
        fold (squeeze (String x s)). rewrite (IHgap x Ex).
        cbn [split_from]. now rewrite Ex.
      - unfold squeeze. rewrite collapse_ws_space_word by assumption.
        cbn [split_from]. rewrite Ex. cbn [append].
        assert (Hj : join " " (split_from (String x EmptyString) s)
                     = String x (squeeze s)).
        { apply (IHword (String x EmptyString)); [discriminate |].
          cbn. now rewrite Ex. }
        rewrite rstrip_space_cons.
        rewrite rstrip_cons_word by exact Ex. fold (squeeze s).
        rewrite <- Hj.
        destruct (split_from (String x EmptyString) s) eqn:El.
        + cbn in Hj. discriminate.
        + reflexivity. }
    split; [| exact Hgap].
    intros acc Hne Hacc. cbn [split_from].
    destruct (isspace x) eqn:Ex.
    + destruct acc as [| a acc']; [contradiction |].
      rewrite (IHgap x Ex).
      destruct (split_from EmptyString s) as [| w l].
      * cbn. now rewrite append_empty_r.
      * reflexivity.
    + rewrite IHword.
      * unfold squeeze. cbn [collapse_ws]. rewrite Ex.
        rewrite rstrip_cons_word by exact Ex.
        now rewrite append_assoc.
      * destruct acc; discriminate.
      * now apply no_space_snoc.
Qed.

Lemma split_from_lstrip (s : string) :
  split_from EmptyString (lstrip s) = split_from EmptyString s.
Proof.
  induction s as [| c s IH]; [reflexivity |].
  cbn [lstrip]. destruct (isspace c) eqn:Ec; [| reflexivity].
  rewrite IH. cbn [split_from]. now rewrite Ec.
Qed.

Lemma rstrip_empty_split (s acc : string) :
  rstrip s = EmptyString ->
  split_from acc s = match acc with EmptyString => [] | _ => [acc] end.
Proof.
  revert acc. induction s as [| c s IH]; intros acc H; [reflexivity |].
  cbn in H. destruct (rstrip s) eqn:Er; [| discriminate].
  destruct (isspace c) eqn:Ec; [| discriminate].
  cbn [split_from]. rewrite Ec. rewrite (IH EmptyString eq_refl).
  now destruct acc.
Qed.

Lemma split_from_rstrip (s acc : string) :
  split_from acc (rstrip s) = split_from acc s.
Proof.
  revert acc. induction s as [| c s IH]; intros acc; [reflexivity |].
  cbn [rstrip]. destruct (rstrip s) as [| r0 r] eqn:Er.
  - destruct (isspace c) eqn:Ec.
    + cbn [split_from]. rewrite Ec.
      rewrite (rstrip_empty_split s EmptyString Er). now destruct acc.
    + cbn [split_from]. rewrite Ec.
      now rewrite (rstrip_empty_split s _ Er).
  - rewrite <- Er in IH |- *. cbn [split_from]. destruct (isspace c); now rewrite !IH.
Qed.

Lemma split_ws_strip (s : string) : split_ws (strip s) = split_ws s.
Proof.
  unfold split_ws, strip. now rewrite split_from_rstrip, split_from_lstrip.
Qed.

Lemma lstrip_length (s : string) : (String.length (lstrip s) <= String.length s)%nat.
Proof.
  induction s as [| a s IH]; cbn; [lia |]. destruct (isspace a); cbn; lia.
Qed.

(** A text without leading white space, squeezed, is its words joined by
    single spaces. *)
Lemma squeeze_join (s : string) :
  lstrip s = s -> squeeze s = join " " (split_ws s).
Proof.
  intros H. destruct s as [| c s]; [reflexivity |].
  cbn [lstrip] in H. destruct (isspace c) eqn:Ec.
  - exfalso. generalize (lstrip_length s). rewrite H. cbn. lia.
  - unfold split_ws. cbn [split_from]. rewrite Ec. cbn [append].
    destruct (squeeze_split s) as (Hword & _).
    rewrite Hword; [| discriminate | cbn; now rewrite Ec].
    unfold squeeze. cbn [collapse_ws]. rewrite Ec.
    now rewrite rstrip_cons_word by exact Ec.
Qed.

Lemma lstrip_idem (s : string) : lstrip (lstrip s) = lstrip s.
Proof.
  induction s as [| c s IH]; [reflexivity |].
  cbn [lstrip]. destruct (isspace c) eqn:Ec; [exact IH |].
  cbn [lstrip]. now rewrite Ec.
Qed.

Lemma lstrip_rstrip (s : string) : lstrip s = s -> lstrip (rstrip s) = rstrip s.
Proof.
  intros H. destruct s as [| c s]; [reflexivity |].
  cbn [lstrip] in H. destruct (isspace c) eqn:Ec.
  - exfalso. generalize (lstrip_length s). rewrite H. cbn. lia.
  - rewrite rstrip_cons_word by exact Ec. cbn [lstrip]. now rewrite Ec.
Qed.

Lemma lstrip_strip (s : string) : lstrip (strip s) = strip s.
Proof. unfold strip. apply lstrip_rstrip, lstrip_idem. Qed.

Lemma lstrip_collapse (s : string) :
  lstrip s = s -> lstrip (collapse_ws s) = collapse_ws s.
Proof.
  intros H. destruct s as [| c s]; [reflexivity |].
  cbn [lstrip] in H. destruct (isspace c) eqn:Ec.
  - exfalso. generalize (lstrip_length s). rewrite H. cbn. lia.
  - cbn [collapse_ws]. rewrite Ec. cbn [lstrip]. now rewrite Ec.
Qed.

Lemma strip_collapse_strip (s : string) :
  strip (collapse_ws (strip s)) = join " " (split_ws s).
Proof.
  unfold strip at 1.
  rewrite lstrip_collapse by apply lstrip_strip.
  fold (squeeze (strip s)).
  rewrite squeeze_join by apply lstrip_strip.
  now rewrite split_ws_strip.
Qed.

Lemma rstrip_idem (s : string) : rstrip (rstrip s) = rstrip s.
Proof.
  induction s as [| c s IH]; [reflexivity |].
  cbn [rstrip]. destruct (rstrip s) as [| a r] eqn:Er.
  - destruct (isspace c) eqn:Ec; [reflexivity |]. cbn. now rewrite Ec.
  - change (rstrip (String c (String a r)))
      with (match rstrip (String a r) with
            | EmptyString => if isspace c then EmptyString else String c EmptyString
            | r' => String c r'
            end).
    now rewrite IH.
Qed.

Lemma rstrip_length (s : string) : (String.length (rstrip s) <= String.length s)%nat.
Proof.
  induction s as [| c s IH]; cbn; [lia |].
  destruct (rstrip s); [destruct (isspace c) |]; cbn in *; lia.
Qed.

Lemma collapse_ws_length (s : string) :
  (String.length (collapse_ws s) <= String.length s)%nat.
Proof.
  induction s as [| c s IH]; [cbn; lia |].
  cbn [collapse_ws]. destruct (isspace c).
  - destruct s as [| c' s']; [cbn; lia |].
    destruct (isspace c'); cbn [String.length] in *; lia.
  - cbn [String.length]. lia.
Qed.

(** X19: [sanitize_selected_text] returns a text exactly when the input,
    stripped of surrounding white space, has between [min_length] and
    [max_length] characters; the text returned is then the words of the
    input joined by single spaces, so it has the same words as the input, no
    surrounding white space, and at most [max_length] characters. *)
Theorem sanitize_selected_text_joins_words
    (text : string) (min_length max_length : Z) (r : string) :
  (sanitize_selected_text (Some text) min_length max_length = Some r
     <-> (min_length <= len (strip text) <= max_length)%Z /\
         r = join " " (split_ws text)) /\
  (sanitize_selected_text (Some text) min_length max_length = Some r ->
     split_ws r = split_ws text /\
     strip r = r /\
     (len r <= max_length)%Z).
Proof.
  assert (Hiff : sanitize_selected_text (Some text) min_length max_length = Some r
     <-> (min_length <= len (strip text) <= max_length)%Z /\
         r = join " " (split_ws text)).
  { unfold sanitize_selected_text. cbv zeta. rewrite strip_collapse_strip.
    destruct (Z.ltb_spec (len (strip text)) min_length) as [Hlo | Hlo];
      destruct (Z.gtb_spec (len (strip text)) max_length) as [Hhi | Hhi]; cbn [orb];
      split; try discriminate; try (intros ((? & ?) & _); lia).
    - intros H. injection H as <-. split; [lia | reflexivity].
    - intros (_ & ->). reflexivity. }
  split; [exact Hiff |].
  intros H. apply Hiff in H. destruct H as (Hlen & ->).
  split; [apply split_join_words, split_ws_words |].
  rewrite <- (strip_collapse_strip text).
  split.
  - unfold strip at 1. rewrite lstrip_strip. unfold strip at 1 2.
    now rewrite rstrip_idem.
  - unfold strip at 1. unfold len in *.
    generalize (rstrip_length (lstrip (collapse_ws (strip text)))).
    generalize (lstrip_length (collapse_ws (strip text))).
    generalize (collapse_ws_length (strip text)). lia.
Qed.

Lemma sanitize_selected_text_witness :
  sanitize_selected_text (Some "  the   quick  fox ") 1 1000 = Some "the quick fox".
Proof.
  apply (proj1 (sanitize_selected_text_joins_words "  the   quick  fox " 1 1000
                  "the quick fox")).
  split; [vm_compute; split; discriminate | reflexivity].
Defined.

Lemma split_on_from_length (sep : ascii) (s field : string) :
  List.length (split_on_from sep field s) = S (count_char sep s).
Proof.
  revert field. induction s as [| c s IH]; intros field; [reflexivity |].
  cbn [split_on_from count_char]. destruct (Ascii.eqb c sep); cbn; now rewrite IH.
Qed.

Lemma split_on_from_field (sep : ascii) (w field s : string) :
  count_char sep w = O ->
  split_on_from sep field (w ++ s) = split_on_from sep (field ++ w) s.
Proof.
  revert field. induction w as [| c w IH]; intros field H.
  - now rewrite append_empty_r.
  - cbn [count_char] in H. cbn [append split_on_from].
    destruct (Ascii.eqb c sep); [discriminate |].
    rewrite IH by exact H. now rewrite append_assoc.
Qed.

Lemma split_on_join (sep : ascii) (o : string) (l : list string) :
  Forall (fun x => count_char sep x = O) (o :: l) ->
  split_on sep (join (String sep EmptyString) (o :: l)) = o :: l.
Proof.
  unfold split_on. revert o. induction l as [| o2 l IH]; intros o H.
  - cbn [join]. rewrite <- (append_empty_r o) at 1.
    rewrite split_on_from_field by (now inversion H). reflexivity.
  - change (join (String sep EmptyString) (o :: o2 :: l))
      with (o ++ String sep (join (String sep EmptyString) (o2 :: l))).
    rewrite split_on_from_field by (now inversion H).
    cbn [append split_on_from]. rewrite Ascii.eqb_refl.
    f_equal. apply IH. now inversion H.
Qed.

Lemma strip_word (w : string) : no_space w = true -> strip w = w.
Proof.
  intros H. unfold strip.
  assert (Hl : lstrip w = w).
  { destruct w as [| c w]; [reflexivity |].
    cbn in H. apply andb_true_iff in H. destruct H as (Hc & _).
    apply negb_true_iff in Hc. cbn. now rewrite Hc. }
  rewrite Hl. rewrite <- (append_empty_r w) at 1.
  rewrite rstrip_word_prefix by exact H. cbn. apply append_empty_r.
Qed.

(** X20: [cors_origins_list] has one entry more than the setting has
    commas (so it is never empty, and an empty field between two commas is
    kept as an empty origin), and no entry has surrounding white space. *)
Theorem cors_origins_list_entries (cors_origins : string) :
  List.length (cors_origins_list cors_origins) = S (count_char "," cors_origins) /\
  Forall (fun origin => lstrip origin = origin /\ rstrip origin = origin)
         (cors_origins_list cors_origins).
Proof.
  unfold cors_origins_list, split_on. split.
  - rewrite length_map. apply split_on_from_length.
  - apply Forall_forall. intros o Ho. apply in_map_iff in Ho.
    destruct Ho as (x & <- & _). split; [apply lstrip_strip |].
    unfold strip. apply rstrip_idem.
Qed.

(** X21: origins that contain neither a comma nor white space come back
    unchanged, in order, from the setting in which they are joined by
    commas. *)
Theorem cors_origins_list_round_trip (origin : string) (origins : list string) :
  Forall (fun o => count_char "," o = O /\ no_space o = true) (origin :: origins) ->
  cors_origins_list (join "," (origin :: origins)) = origin :: origins.
Proof.
  intros H. unfold cors_origins_list.
  rewrite split_on_join.
  - rewrite <- (map_id (origin :: origins)) at 2.
    apply map_ext_in. intros o Ho.
    rewrite Forall_forall in H. now apply strip_word, H.
  - eapply Forall_impl; [| exact H]. now intros o (Ho & _).
Qed.

Lemma cors_origins_list_round_trip_witness :
  cors_origins_list default_cors_origins
    = ["http://localhost:3000"; "http://localhost:3001"].
Proof.
  apply (cors_origins_list_round_trip "http://localhost:3000" ["http://localhost:3001"]).
  repeat constructor.
Defined.

#[local] Open Scope list_scope.
